(** * Domain availability checker: the resolution engine

    A shallow embedding of the backend of the domain checker
    (services/whois.service.js, services/godaddy.service.js,
    services/cache.service.js, utils/rateLimiter.js, utils/fileParser.js)
    and the properties of its classifier, cache, scheduler and
    resolution service.

    Conventions.
    - A JavaScript string is a Rocq [string]; each [ascii] stands for one
      UTF-16 code unit below 256 (the Latin-1 range, which [toLowerCase]
      maps into itself).  Lengths are counts of code units, as in JS.
    - [Date.now()] is a field of the world; time passes only while an
      upstream call is awaited.
    - The upstream transports (the whois-json client and the HTTP client
      of the registrar API) are oracles: functions from the request and
      the time of the call to a reply. *)

From Stdlib Require Import ZArith NArith Ascii String List Bool Lia.
From stdpp Require Import base option list strings gmap fin_maps.

Set Warnings "-register-all".
Local Open Scope string_scope.
Local Open Scope list_scope.

(** ** JavaScript strings *)

Module JsString.

Definition fromCode (n : N) : string := String (ascii_of_N n) "".

(** U+00F3, LATIN SMALL LETTER O WITH ACUTE. *)
Definition o_acute : string := fromCode 243.
(** U+000A, the line feed. *)
Definition LF : string := fromCode 10.

(** [String.prototype.toLowerCase] on the Latin-1 range: A-Z, and
    U+00C0..U+00DE except the multiplication sign U+00D7. *)
Definition toLowerCaseUnit (c : ascii) : ascii :=
  let n := N_of_ascii c in
  if ((65 <=? n) && (n <=? 90) ||
      (192 <=? n) && (n <=? 222) && negb (n =? 215))%N
  then ascii_of_N (n + 32) else c.

Fixpoint toLowerCase (s : string) : string :=
  match s with
  | "" => ""
  | String c r => String (toLowerCaseUnit c) (toLowerCase r)
  end.

(** White space and line terminators of ECMAScript below 256. *)
Definition isWhiteSpace (c : ascii) : bool :=
  let n := N_of_ascii c in
  ((9 <=? n) && (n <=? 13) || (n =? 32) || (n =? 160))%N.

Fixpoint trimStart (s : string) : string :=
  match s with
  | "" => ""
  | String c r => if isWhiteSpace c then trimStart r else s
  end.

Fixpoint trimEnd (s : string) : string :=
  match s with
  | "" => ""
  | String c r =>
      match trimEnd r with
      | "" => if isWhiteSpace c then "" else String c ""
      | r' => String c r'
      end
  end.

Definition trim (s : string) : string := trimEnd (trimStart s).

(** [s.startsWith(p)]. *)
Fixpoint startsWith (s p : string) : bool :=
  match p, s with
  | "", _ => true
  | String _ _, "" => false
  | String b p', String a s' => Ascii.eqb a b && startsWith s' p'
  end.

(** [s.includes(p)]. *)
Fixpoint includes (s p : string) : bool :=
  startsWith s p ||
  match s with
  | "" => false
  | String _ r => includes r p
  end.

Fixpoint drop (n : nat) (s : string) : string :=
  match n, s with
  | O, _ => s
  | S n', "" => ""
  | S n', String _ r => drop n' r
  end.

(** [s.endsWith(p)]. *)
Definition endsWith (s p : string) : bool :=
  (String.length p <=? String.length s)%nat &&
  String.eqb (drop (String.length s - String.length p) s) p.

(** [s.lastIndexOf(c)] for a one-unit needle; [None] stands for -1. *)
Fixpoint lastIndexOf (s : string) (c : ascii) : option nat :=
  match s with
  | "" => None
  | String a r =>
      match lastIndexOf r c with
      | Some i => Some (S i)
      | None => if Ascii.eqb a c then Some O else None
      end
  end.

(** [s.substring(i)] where [i] is the result of [lastIndexOf]: a
    negative start is clamped to 0. *)
Definition substringFrom (s : string) (i : option nat) : string :=
  match i with
  | Some n => drop n s
  | None => s
  end.

End JsString.

Import JsString.

(** ** JSON values and [JSON.stringify] *)

(** The values a WHOIS client hands back: null, booleans, strings, arrays
    and objects (properties in enumeration order).  Numbers are left out:
    the client yields text fields.  [undefined] is not told apart from
    [null]: [isDomainAvailable] leaves both at its first test. *)
Inductive JsValue : Type :=
| JsNull
| JsBool (b : bool)
| JsStr (s : string)
| JsArray (items : list JsValue)
| JsObject (props : list (string * JsValue)).

Module JSON.

Definition hexDigit (n : N) : ascii :=
  ascii_of_N (if (n <? 10)%N then 48 + n else 87 + n).

(** QuoteJSONString, one code unit at a time. *)
Definition quoteUnit (c : ascii) : string :=
  let n := N_of_ascii c in
  if (n =? 8)%N then "\b"
  else if (n =? 9)%N then "\t"
  else if (n =? 10)%N then "\n"
  else if (n =? 12)%N then "\f"
  else if (n =? 13)%N then "\r"
  else if (n =? 34)%N then "\" +:+ fromCode 34
  else if (n =? 92)%N then "\\"
  else if (n <? 32)%N then
    "\u00" +:+ String (hexDigit (n / 16)) (String (hexDigit (n mod 16)) "")
  else String c "".

Fixpoint quoteBody (s : string) : string :=
  match s with
  | "" => ""
  | String c r => quoteUnit c +:+ quoteBody r
  end.

Definition dquote : string := fromCode 34.

Definition quote (s : string) : string := dquote +:+ quoteBody s +:+ dquote.

Fixpoint stringify (v : JsValue) : string :=
  match v with
  | JsNull => "null"
  | JsBool b => if b then "true" else "false"
  | JsStr s => quote s
  | JsArray items =>
      "[" +:+
      (fix elements (l : list JsValue) : string :=
         match l with
         | [] => ""
         | x :: r =>
             stringify x +:+
             match r with [] => "" | _ => "," +:+ elements r end
         end) items
      +:+ "]"
  | JsObject props =>
      "{" +:+
      (fix members (l : list (string * JsValue)) : string :=
         match l with
         | [] => ""
         | (k, x) :: r =>
             quote k +:+ ":" +:+ stringify x +:+
             match r with [] => "" | _ => "," +:+ members r end
         end) props
      +:+ "}"
  end.

End JSON.

(** [!data] is false exactly on the truthy values. *)
Definition truthy (v : JsValue) : bool :=
  match v with
  | JsNull => false
  | JsBool b => b
  | JsStr s => negb (String.eqb s "")
  | JsArray _ | JsObject _ => true
  end.

(** ** The response classifier (whois.service.js) *)

Module Classifier.

Definition strongRegisteredPatterns : list string :=
  [ "registrar:";
    "registrar url:";
    "registrar iana id:";
    "creation date:";
    "created on:";
    "created:";
    "registered on:";
    "registered:";
    "registration date:";
    "domain status: clienttransferprohibited";
    "domain status: active";
    "status: active";
    "status: registered";
    "nameserver:";
    "name server:";
    "nserver:";
    "dns:";
    "registrant organization:";
    "registrant name:";
    "registrant:";
    "admin contact:";
    "admin email:";
    "technical contact:";
    "tech email:";
    "expiration date:";
    "expiry date:";
    "expires on:";
    "expires:";
    "updated date:";
    "last updated:";
    "registry expiry date:";
    "dnssec:";
    "whois server:" ].

Definition availablePatterns : list string :=
  [ "no match for";
    "no match";
    "not found";
    "no entries found";
    "no data found";
    "status: available";
    "status: free";
    "available for registration";
    "is available";
    "no se encontr" +:+ o_acute;
    "not registered";
    "no existe";
    "disponible para";
    "domain not found";
    "no object found";
    "no matching record";
    "no information available";
    "domain name not known" ].

Definition notFoundPatterns : list string :=
  [ "no match";
    "not found";
    "no entries found";
    "no data found";
    "no se encontr" +:+ o_acute;
    "domain not found" ].

Definition timeoutPatterns : list string :=
  [ "timeout";
    "timed out";
    "econnrefused";
    "enotfound";
    "etimedout";
    "connection";
    "socket hang up";
    "network" ].

(** [patterns.some(pattern => s.includes(pattern))]. *)
Definition some_includes (patterns : list string) (s : string) : bool :=
  existsb (includes s) patterns.

Definition isNotFoundError (errorMessage : string) : bool :=
  let errorLower := toLowerCase errorMessage in
  some_includes notFoundPatterns errorLower.

Definition isTimeoutOrConnectionError (errorMessage : string) : bool :=
  let errorLower := toLowerCase errorMessage in
  some_includes timeoutPatterns errorLower.

(** What [isDomainAvailable] writes with [console.log]. *)
Inductive LogLine : Type :=
| LogRegistered (domain : string) (indicators : nat)
| LogLikelyRegistered (domain : string) (indicators : nat)
| LogAvailable (domain : string) (pattern : string)
| LogShortResponse (domain : string) (chars : nat)
| LogUncertain (domain : string).

(** The counting loop over the registration vocabulary: it is left with
    [return false] from inside the loop, or runs to the end. *)
Inductive Scan : Type :=
| ReturnedInLoop (registeredPatternCount : nat)
| LoopDone (registeredPatternCount : nat).

Fixpoint scanRegistered (patterns : list string) (dataStr : string)
         (registeredPatternCount : nat) : Scan :=
  match patterns with
  | [] => LoopDone registeredPatternCount
  | pattern :: rest =>
      if includes dataStr pattern then
        let registeredPatternCount := S registeredPatternCount in
        if (2 <=? registeredPatternCount)%nat
        then ReturnedInLoop registeredPatternCount
        else scanRegistered rest dataStr registeredPatternCount
      else scanRegistered rest dataStr registeredPatternCount
  end.

(** The loop over the availability vocabulary returns at the first
    pattern found. *)
Fixpoint scanAvailable (patterns : list string) (dataStr : string)
  : option string :=
  match patterns with
  | [] => None
  | pattern :: rest =>
      if includes dataStr pattern then Some pattern
      else scanAvailable rest dataStr
  end.

(** [JSON.stringify(data).toLowerCase()]. *)
Definition serialize (data : JsValue) : string :=
  toLowerCase (JSON.stringify data).

Definition isDomainAvailable_log (data : JsValue) (domain : string)
  : bool * list LogLine :=
  if negb (truthy data) then (true, [])
  else
    let dataStr := serialize data in
    if (String.length dataStr <? 50)%nat then (true, [])
    else
      match scanRegistered strongRegisteredPatterns dataStr 0 with
      | ReturnedInLoop n => (false, [LogRegistered domain n])
      | LoopDone registeredPatternCount =>
          if (1 <=? registeredPatternCount)%nat
          then (false, [LogLikelyRegistered domain registeredPatternCount])
          else
            match scanAvailable availablePatterns dataStr with
            | Some pattern => (true, [LogAvailable domain pattern])
            | None =>
                if (String.length dataStr <? 200)%nat
                then (true, [LogShortResponse domain (String.length dataStr)])
                else (false, [LogUncertain domain])
            end
      end.

Definition isDomainAvailable (data : JsValue) (domain : string) : bool :=
  fst (isDomainAvailable_log data domain).

End Classifier.

Import Classifier.

(** ** The serial query scheduler (utils/rateLimiter.js) *)

Module RateLimiter.
Section Scheduler.

(** A queued task, the value it resolves with and the error it rejects
    with.  A task stands for the entry [{ task, resolve, reject }]: the
    continuations belong to the promise [add] returned for it. *)
Context {Task R E : Type}.

(** Where the [processQueue] coroutine is suspended. *)
Inductive Await : Type :=
| NotRunning
| OnTask (task : Task)
| OnSleep.

Record t : Type := mk {
  delay : Z;
  queue : list Task;
  processing : bool;
  awaiting : Await
}.

(** [new RateLimiter(delayMs)]. *)
Definition create (delayMs : Z) : t :=
  {| delay := delayMs; queue := []; processing := false;
     awaiting := NotRunning |}.

(** What the scheduler does that the outside can see. *)
Inductive Obs : Type :=
| Started (task : Task)
| Resolved (task : Task) (result : R)
| Rejected (task : Task) (error : E)
| Sleeping (ms : Z).

Definition settle (task : Task) (o : R + E) : Obs :=
  match o with
  | inl result => Resolved task result
  | inr error => Rejected task error
  end.

(** The test of [while (this.queue.length > 0)] and what follows it up
    to the next [await]: either [queue.shift()] and the call [task()],
    or the exit with [processing = false]. *)
Definition loop (l : t) : t * list Obs :=
  match queue l with
  | [] =>
      ({| delay := delay l; queue := []; processing := false;
          awaiting := NotRunning |}, [])
  | task :: rest =>
      ({| delay := delay l; queue := rest; processing := processing l;
          awaiting := OnTask task |}, [Started task])
  end.

Definition processQueue (l : t) : t * list Obs :=
  if processing l || (length (queue l) =? 0)%nat then (l, [])
  else loop {| delay := delay l; queue := queue l; processing := true;
               awaiting := awaiting l |}.

Definition add (task : Task) (l : t) : t * list Obs :=
  processQueue {| delay := delay l; queue := queue l ++ [task];
                  processing := processing l; awaiting := awaiting l |}.

(** The coroutine resumes after [await task()]: the promise of the
    task is settled, then the queue decides between the sleep and the
    loop test. *)
Definition settled (o : R + E) (l : t) : option (t * list Obs) :=
  match awaiting l with
  | OnTask task =>
      if (0 <? length (queue l))%nat then
        Some ({| delay := delay l; queue := queue l;
                 processing := processing l; awaiting := OnSleep |},
              [settle task o; Sleeping (delay l)])
      else
        let '(l', obs) := loop l in Some (l', settle task o :: obs)
  | _ => None
  end.

(** The coroutine resumes after [await this.sleep(this.delay)]. *)
Definition woke (l : t) : option (t * list Obs) :=
  match awaiting l with
  | OnSleep => Some (loop l)
  | _ => None
  end.

Definition getQueueSize (l : t) : nat := length (queue l).

Definition clear (l : t) : t :=
  {| delay := delay l; queue := []; processing := processing l;
     awaiting := awaiting l |}.

Definition setDelay (delayMs : Z) (l : t) : t :=
  {| delay := delayMs; queue := queue l; processing := processing l;
     awaiting := awaiting l |}.

(** A task added now starts at once. *)
Definition idle (l : t) : bool :=
  negb (processing l) && (length (queue l) =? 0)%nat.

(** What happens to a scheduler: a caller adds a task, the running
    task returns or throws, the sleep timer fires. *)
Inductive Event : Type :=
| Add (task : Task)
| Settle (o : R + E)
| Wake.

Definition step (l : t) (ev : Event) : option (t * list Obs) :=
  match ev with
  | Add task => Some (add task l)
  | Settle o => settled o l
  | Wake => woke l
  end.

Fixpoint run (l : t) (evs : list Event) : option (t * list Obs) :=
  match evs with
  | [] => Some (l, [])
  | ev :: evs' =>
      match step l ev with
      | None => None
      | Some (l1, obs1) =>
          match run l1 evs' with
          | None => None
          | Some (l2, obs2) => Some (l2, obs1 ++ obs2)
          end
      end
  end.

(** Readings of a schedule and of a trace. *)
Definition submitted (evs : list Event) : list Task :=
  flat_map (fun ev => match ev with Add task => [task] | _ => [] end) evs.

Definition outcomes (evs : list Event) : list (R + E) :=
  flat_map (fun ev => match ev with Settle o => [o] | _ => [] end) evs.

Definition started (obs : list Obs) : list Task :=
  flat_map (fun ob => match ob with Started task => [task] | _ => [] end) obs.

Definition settlements (obs : list Obs) : list (Task * (R + E)) :=
  flat_map (fun ob => match ob with
                      | Resolved task r => [(task, inl r)]
                      | Rejected task e => [(task, inr e)]
                      | _ => []
                      end) obs.

Definition running (l : t) : list Task :=
  match awaiting l with
  | OnTask task => [task]
  | _ => []
  end.

(** The tasks that have not settled yet, in the order they will. *)
Definition remaining (l : t) : list Task := running l ++ queue l.

Definition rounds (os : list (R + E)) : list Event :=
  flat_map (fun o => [Wake; Settle o]) os.

(** The events that let every remaining task finish, given the
    outcome of each. *)
Definition completion (l : t) (os : list (R + E)) : list Event :=
  match awaiting l, os with
  | OnTask _, o :: os' => Settle o :: rounds os'
  | OnSleep, _ => rounds os
  | _, _ => []
  end.

(** The traces a scheduler can leave, with the place its coroutine is
    suspended at after each: a task starts from rest or from a sleep;
    a running task settles, and either the scheduler is at rest or the
    sleep follows at once. *)
Inductive shaped : list Obs -> Await -> Prop :=
| shaped_rest : shaped [] NotRunning
| shaped_begin (obs : list Obs) (task : Task) :
    shaped obs NotRunning -> shaped (obs ++ [Started task]) (OnTask task)
| shaped_resume (obs : list Obs) (task : Task) :
    shaped obs OnSleep -> shaped (obs ++ [Started task]) (OnTask task)
| shaped_finish (obs : list Obs) (task : Task) (o : R + E) :
    shaped obs (OnTask task) -> shaped (obs ++ [settle task o]) NotRunning
| shaped_pause (obs : list Obs) (task : Task) (o : R + E) (ms : Z) :
    shaped obs (OnTask task) ->
    shaped (obs ++ [settle task o; Sleeping ms]) OnSleep.

(** The flag and the queue agree with the place of suspension. *)
Definition coherent (l : t) : Prop :=
  match awaiting l with
  | NotRunning => processing l = false /\ queue l = []
  | OnTask _ => processing l = true
  | OnSleep => processing l = true /\ queue l <> []
  end.

End Scheduler.

Arguments t : clear implicits.
Arguments Await : clear implicits.
Arguments Obs : clear implicits.
Arguments Event : clear implicits.

End RateLimiter.

(** ** Resolution results *)

Inductive Status : Type := Available | Registered | Error.

(** The price fields a registrar-API result carries. *)
Record Pricing : Type := {
  price : option Z;     (* [null] when the API gave none *)
  currency : string;
  period : Z
}.

Module Result.

(** The object [checkDomain] returns.  [available] is [None] for
    [null]; [error], [provider] and [pricing] are [None] when the object
    has no such property; timestamps are in milliseconds. *)
Record t : Type := mk {
  domain : string;
  available : option bool;
  status : Status;
  error : option string;
  responseTime : Z;
  fromCache : bool;
  checkedAt : Z;
  provider : option string;
  pricing : option Pricing
}.

(** [{ ...cached, fromCache: b }]. *)
Definition withFromCache (cached : t) (b : bool) : t :=
  {| domain := domain cached;
     available := available cached;
     status := status cached;
     error := error cached;
     responseTime := responseTime cached;
     fromCache := b;
     checkedAt := checkedAt cached;
     provider := provider cached;
     pricing := pricing cached |}.

(** The invariant of the data model: status and availability agree. *)
Definition consistent (r : t) : Prop :=
  (status r = Available <-> available r = Some true) /\
  (status r = Registered <-> available r = Some false) /\
  (available r = None -> status r = Error).

End Result.

(** ** The cache store (services/cache.service.js) *)

Module CacheService.

Record CacheEntry : Type := {
  value : Result.t;
  expiry : Z;
  createdAt : Z
}.

Record t : Type := mk {
  cache : gmap string CacheEntry;
  ttl : Z
}.

(** [new CacheService(ttl)]. *)
Definition create (ttl : Z) : t := {| cache := ∅; ttl := ttl |}.

(** [get(key)] at time [now]: an expired entry is deleted and reported
    as absent. *)
Definition get (key : string) (now : Z) (c : t) : option Result.t * t :=
  match cache c !! key with
  | None => (None, c)
  | Some item =>
      if (now >? expiry item)%Z
      then (None, {| cache := base.delete key (cache c); ttl := ttl c |})
      else (Some (value item), c)
  end.

(** [set(key, value, customTTL)]: [customTTL || this.ttl]. *)
Definition set (key : string) (value : Result.t) (customTTL : option Z)
           (now : Z) (c : t) : t :=
  let ttl_ := match customTTL with
              | Some n => if (n =? 0)%Z then ttl c else n
              | None => ttl c
              end in
  let expiry := (now + ttl_)%Z in
  {| cache := <[ key := {| value := value; expiry := expiry;
                            createdAt := now |} ]> (cache c);
     ttl := ttl c |}.

Definition has (key : string) (now : Z) (c : t) : bool * t :=
  match get key now c with
  | (Some _, c') => (true, c')
  | (None, c') => (false, c')
  end.

Definition delete (key : string) (c : t) : t :=
  {| cache := base.delete key (cache c); ttl := ttl c |}.

Definition clear (c : t) : t := {| cache := ∅; ttl := ttl c |}.

Definition cleanExpired (now : Z) (c : t) : t :=
  {| cache := filter (fun kv => ¬ (now > expiry (snd kv))%Z) (cache c);
     ttl := ttl c |}.

End CacheService.

(** ** The world the services run in *)

Record WhoisConfig : Type := { timeout : Z; follow : Z }.

(** What [whois(domain, whoisConfig)] does: after [elapsed] milliseconds
    it resolves with the parsed record or rejects with an error whose
    [message] is given. *)
Record WhoisReply : Type := {
  elapsed : Z;
  outcome : JsValue + string
}.

(** [{ available, data }], what [performWhoisLookup] returns. *)
Record LookupResult : Type := {
  lookup_available : bool;
  lookup_data : JsValue
}.

(** The body of a successful answer of the registrar API; the spec's
    interface types [available] as a boolean.  Absent fields are [None]. *)
Record ApiData : Type := {
  api_available : bool;
  api_price : option Z;
  api_currency : option string;
  api_period : option Z
}.

(** The error of a failed API request: the HTTP status of
    [error.response] when there is a response, and [error.message]. *)
Record ApiError : Type := {
  response_status : option Z;
  api_message : string
}.

Record ApiReply : Type := {
  api_elapsed : Z;
  api_outcome : ApiData + ApiError
}.

(** The argument of the progress callback.  The [percentage] string, a
    floating-point [toFixed(2)], is left out. *)
Record ProgressInfo : Type := {
  current : nat;
  total : nat;
  progress_domain : string;
  progress_result : Result.t
}.

(** What a resolution does to the outside. *)
Inductive Effect : Type :=
| Submitted (domain : string)                      (* [rateLimiter.add] *)
| WhoisCall (domain : string) (cfg : WhoisConfig)  (* [whois(domain, cfg)] *)
| ApiCall (domain : string)                        (* [axios.get] *)
| Progress (info : ProgressInfo).                  (* [onProgress(info)] *)

Record World : Type := {
  cacheService : CacheService.t;
  rateLimiter : RateLimiter.t string;
  now : Z;
  trace : list Effect
}.

Definition withCache (c : CacheService.t) (w : World) : World :=
  {| cacheService := c; rateLimiter := rateLimiter w; now := now w;
     trace := trace w |}.

Definition withLimiter (l : RateLimiter.t string) (w : World) : World :=
  {| cacheService := cacheService w; rateLimiter := l; now := now w;
     trace := trace w |}.

Definition atTime (t : Z) (w : World) : World :=
  {| cacheService := cacheService w; rateLimiter := rateLimiter w; now := t;
     trace := trace w |}.

Definition emit (e : Effect) (w : World) : World :=
  {| cacheService := cacheService w; rateLimiter := rateLimiter w;
     now := now w; trace := trace w ++ [e] |}.

(** How an awaited call ends: it returns, it throws an error with a
    message, or it stays pending (its task waits behind another one that
    nothing in a sequential run will ever finish). *)
Inductive Completion (A : Type) : Type :=
| Returned (a : A)
| Threw (message : string)
| Pending.
Arguments Returned {A} a.
Arguments Threw {A} message.
Arguments Pending {A}.

(** [config.whoisTimeout]. *)
Definition whoisTimeout : Z := 10000.

(** ** The WHOIS resolution service (services/whois.service.js) *)

Module WhoisService.
Section Service.

(** The whois-json client: the reply to a query made at a given time. *)
Variable whois : string -> WhoisConfig -> Z -> WhoisReply.

Definition problematicTLDs : list string := [".app"; ".dev"; ".page"; ".new"].

(** [problematicTLDs.includes(extension)]. *)
Definition isProblematic (extension : string) : bool :=
  existsb (String.eqb extension) problematicTLDs.

(** [domain.substring(domain.lastIndexOf('.'))]. *)
Definition extensionOf (domain : string) : string :=
  substringFrom domain (lastIndexOf domain "."%char).

(** The message of the error thrown for a problematic TLD. *)
Definition manualVerificationMessage (extension : string) : string :=
  "El TLD " +:+ extension +:+ " requiere verificaci" +:+ o_acute +:+
  "n manual. WHOIS no disponible para esta extensi" +:+ o_acute +:+ "n.".

(** The [whoisConfig] object: a longer timeout for the problematic
    TLDs. *)
Definition whoisConfigOf (extension : string) : WhoisConfig :=
  {| timeout := if isProblematic extension then 15000 else whoisTimeout;
     follow := 3 |}.

(** [performWhoisLookup(domain)]: [inl] is the returned object, [inr]
    the message of the error thrown. *)
Definition performWhoisLookup (domain : string) (w : World)
  : (LookupResult + string) * World :=
  let extension := extensionOf domain in
  let whoisConfig := whoisConfigOf extension in
  let reply := whois domain whoisConfig (now w) in
  let w := atTime (now w + elapsed reply) (emit (WhoisCall domain whoisConfig) w) in
  match outcome reply with
  | inl data =>
      let available := isDomainAvailable data domain in
      (inl {| lookup_available := available; lookup_data := data |}, w)
  | inr message =>
      if isNotFoundError message then
        (inl {| lookup_available := true; lookup_data := JsNull |}, w)
      else if isTimeoutOrConnectionError message && isProblematic extension
      then (inr (manualVerificationMessage extension), w)
      else (inr message, w)
  end.

(** [await rateLimiter.add(() => this.performWhoisLookup(normalizedDomain))]
    run to its end.  On a free scheduler the task starts inside [add]
    and the scheduler goes back to rest when it settles. *)
Definition submitLookup (normalizedDomain : string) (w : World)
  : Completion LookupResult * World :=
  let l := rateLimiter w in
  let '(l1, _) := RateLimiter.add (R := LookupResult) (E := string)
                    normalizedDomain l in
  let w := withLimiter l1 (emit (Submitted normalizedDomain) w) in
  if RateLimiter.idle l then
    let '(o, w) := performWhoisLookup normalizedDomain w in
    match RateLimiter.settled o l1 with
    | Some (l2, _) =>
        (match o with
         | inl result => Returned result
         | inr message => Threw message
         end, withLimiter l2 w)
    | None => (Pending, w)
    end
  else (Pending, w).

Definition checkDomain (domain : string) (w : World)
  : Completion Result.t * World :=
  let startTime := now w in
  let normalizedDomain := trim (toLowerCase domain) in
  let '(cached, c) :=
    CacheService.get normalizedDomain (now w) (cacheService w) in
  let w := withCache c w in
  match cached with
  | Some cached => (Returned (Result.withFromCache cached true), w)
  | None =>
      match submitLookup normalizedDomain w with
      | (Returned result, w) =>
          let responseTime := (now w - startTime)%Z in
          let domainResult :=
            {| Result.domain := normalizedDomain;
               Result.available := Some (lookup_available result);
               Result.status :=
                 if lookup_available result then Available else Registered;
               Result.error := None;
               Result.responseTime := responseTime;
               Result.fromCache := false;
               Result.checkedAt := now w;
               Result.provider := None;
               Result.pricing := None |} in
          (Returned domainResult,
           withCache (CacheService.set normalizedDomain domainResult None
                        (now w) (cacheService w)) w)
      | (Threw message, w) =>
          let responseTime := (now w - startTime)%Z in
          (Returned
             {| Result.domain := normalizedDomain;
                Result.available := None;
                Result.status := Error;
                Result.error := Some message;
                Result.responseTime := responseTime;
                Result.fromCache := false;
                Result.checkedAt := now w;
                Result.provider := None;
                Result.pricing := None |}, w)
      | (Pending, w) => (Pending, w)
      end
  end.

(** The [for] loop of [checkMultipleDomains] from index [i] on, with
    the domains still to visit. *)
Fixpoint batchLoop (rest : list string) (i total : nat) (onProgress : bool)
         (results : list Result.t) (w : World)
  : Completion (list Result.t) * World :=
  match rest with
  | [] => (Returned results, w)
  | domain :: rest =>
      match checkDomain domain w with
      | (Returned result, w) =>
          let results := results ++ [result] in
          let w :=
            if onProgress then
              emit (Progress {| current := i + 1; total := total;
                                progress_domain := domain;
                                progress_result := result |}) w
            else w in
          batchLoop rest (i + 1) total onProgress results w
      | (Threw message, w) => (Threw message, w)
      | (Pending, w) => (Pending, w)
      end
  end.

(** [checkMultipleDomains(domains, onProgress)]; [onProgress] tells
    whether a callback was passed (it is [null] by default). *)
Definition checkMultipleDomains (domains : list string) (onProgress : bool)
           (w : World) : Completion (list Result.t) * World :=
  batchLoop domains 0 (length domains) onProgress [] w.

End Service.
End WhoisService.

(** ** The registrar-API resolution service (services/godaddy.service.js) *)

Module GoDaddyService.
Section Service.

(** The HTTP client: the reply to an availability request for a domain
    made at a given time. *)
Variable axios_get : string -> Z -> ApiReply.

Definition errorResult (normalizedDomain message : string)
           (responseTime : Z) (w : World) : Result.t :=
  {| Result.domain := normalizedDomain;
     Result.available := None;
     Result.status := Error;
     Result.error := Some message;
     Result.responseTime := responseTime;
     Result.fromCache := false;
     Result.checkedAt := now w;
     Result.provider := Some "godaddy";
     Result.pricing := None |}.

Definition checkDomain (domain : string) (w : World) : Result.t * World :=
  let startTime := now w in
  let normalizedDomain := trim (toLowerCase domain) in
  let '(cached, c) :=
    CacheService.get normalizedDomain (now w) (cacheService w) in
  let w := withCache c w in
  match cached with
  | Some cached => (Result.withFromCache cached true, w)
  | None =>
      let reply := axios_get normalizedDomain (now w) in
      let w := atTime (now w + api_elapsed reply)
                 (emit (ApiCall normalizedDomain) w) in
      let responseTime := (now w - startTime)%Z in
      match api_outcome reply with
      | inl data =>
          let domainResult :=
            {| Result.domain := normalizedDomain;
               Result.available := Some (api_available data);
               Result.status :=
                 if api_available data then Available else Registered;
               Result.error := None;
               Result.responseTime := responseTime;
               Result.fromCache := false;
               Result.checkedAt := now w;
               Result.provider := Some "godaddy";
               Result.pricing :=
                 Some {| price := match api_price data with
                                  | Some p => if (p =? 0)%Z then None else Some p
                                  | None => None
                                  end;
                         currency := match api_currency data with
                                     | Some c => if String.eqb c "" then "USD" else c
                                     | None => "USD"
                                     end;
                         period := match api_period data with
                                   | Some n => if (n =? 0)%Z then 1 else n
                                   | None => 1
                                   end |} |} in
          (domainResult,
           withCache (CacheService.set normalizedDomain domainResult None
                        (now w) (cacheService w)) w)
      | inr error =>
          let generic :=
            errorResult normalizedDomain
              (if String.eqb (api_message error) ""
               then "Error desconocido" else api_message error)
              responseTime w in
          match response_status error with
          | Some status =>
              if (status =? 400)%Z then
                (errorResult normalizedDomain
                   ("API keys inv" +:+ fromCode 225 +:+ "lidas (" +:+
                    fromCode 191 +:+ "est" +:+ fromCode 225 +:+
                    "s usando keys de OTE en lugar de Production?)")
                   responseTime w, w)
              else if (status =? 401)%Z then
                (errorResult normalizedDomain
                   ("API Key de GoDaddy inv" +:+ fromCode 225 +:+
                    "lida. Verifica tu configuraci" +:+ o_acute +:+ "n.")
                   responseTime w, w)
              else if (status =? 429)%Z then
                (errorResult normalizedDomain
                   ("L" +:+ fromCode 237 +:+
                    "mite de requests excedido. Espera un momento.")
                   responseTime w, w)
              else if (status =? 422)%Z then
                (errorResult normalizedDomain
                   ("Formato de dominio inv" +:+ fromCode 225 +:+ "lido")
                   responseTime w, w)
              else (generic, w)
          | None => (generic, w)
          end
      end
  end.

End Service.
End GoDaddyService.

(** ** Domain syntax (utils/fileParser.js) *)

Module Regex.

(** The fragment of regular expressions [domainPattern] is written in;
    a pattern is matched against the whole string, as between [^] and
    [$]. *)
Inductive t : Type :=
| Never
| Eps
| Class (member : ascii -> bool)
| Seq (r1 r2 : t)
| Alt (r1 r2 : t)
| Star (r : t).

Definition Opt (r : t) : t := Alt r Eps.

Fixpoint nullable (r : t) : bool :=
  match r with
  | Never => false
  | Eps => true
  | Class _ => false
  | Seq r1 r2 => nullable r1 && nullable r2
  | Alt r1 r2 => nullable r1 || nullable r2
  | Star _ => true
  end.

Fixpoint deriv (c : ascii) (r : t) : t :=
  match r with
  | Never => Never
  | Eps => Never
  | Class member => if member c then Eps else Never
  | Seq r1 r2 =>
      if nullable r1
      then Alt (Seq (deriv c r1) r2) (deriv c r2)
      else Seq (deriv c r1) r2
  | Alt r1 r2 => Alt (deriv c r1) (deriv c r2)
  | Star r1 => Seq (deriv c r1) (Star r1)
  end.

Fixpoint test (r : t) (s : string) : bool :=
  match s with
  | "" => nullable r
  | String c s' => test (deriv c r) s'
  end.

End Regex.

Module FileParser.

Definition between (lo hi : N) (c : ascii) : bool :=
  let n := N_of_ascii c in ((lo <=? n) && (n <=? hi))%N.

(** [[a-z0-9]] under the [i] flag. *)
Definition alnum (c : ascii) : bool :=
  between 97 122 c || between 65 90 c || between 48 57 c.

(** [[a-z0-9-]] under the [i] flag. *)
Definition alnumHyphen (c : ascii) : bool :=
  alnum c || Ascii.eqb c "-"%char.

Definition dot (c : ascii) : bool := Ascii.eqb c "."%char.

(** [[a-z0-9]([a-z0-9-]*[a-z0-9])?]. *)
Definition label : Regex.t :=
  Regex.Seq (Regex.Class alnum)
    (Regex.Opt (Regex.Seq (Regex.Star (Regex.Class alnumHyphen))
                          (Regex.Class alnum))).

(** [/^[a-z0-9]([a-z0-9-]*[a-z0-9])?(\.[a-z0-9]([a-z0-9-]*[a-z0-9])?)*$/i]. *)
Definition domainPattern : Regex.t :=
  Regex.Seq label (Regex.Star (Regex.Seq (Regex.Class dot) label)).

Definition isValidDomainName (domain : string) : bool :=
  if (String.length domain =? 0)%nat then false
  else
    Regex.test domainPattern domain &&
    (String.length domain <=? 253)%nat &&
    negb (includes domain "..") &&
    negb (startsWith domain "-") &&
    negb (endsWith domain "-").

End FileParser.

(** ** Domain lists (utils/fileParser.js, and the same code of the
    client in js/fileHandler.js) *)

Module DomainsFile.

(** [s.split(sep)[0]]: what stands before the first [sep]. *)
Fixpoint upTo (sep : ascii) (s : string) : string :=
  match s with
  | "" => ""
  | String c r => if Ascii.eqb c sep then "" else String c (upTo sep r)
  end.

Fixpoint removeLast (s : string) : string :=
  match s with
  | "" => ""
  | String c "" => ""
  | String c r => String c (removeLast r)
  end.

(** [s.replace(/^https?:\/\//, '')]. *)
Definition stripProtocol (s : string) : string :=
  if startsWith s "http://" then drop 7 s
  else if startsWith s "https://" then drop 8 s
  else s.

(** [s.replace(/^www\./, '')]. *)
Definition stripWww (s : string) : string :=
  if startsWith s "www." then drop 4 s else s.

(** [s.replace(/\/$/, '')]. *)
Definition stripFinalSlash (s : string) : string :=
  if endsWith s "/" then removeLast s else s.

Definition cleanDomainName (domain : string) : string :=
  upTo "?"%char
    (upTo "/"%char
       (stripFinalSlash (stripWww (stripProtocol (trim (toLowerCase domain)))))).

(** [s.split(/\r?\n/)]: the pieces between line feeds, each piece before
    a line feed without the carriage return that ended it. *)
Fixpoint splitAtLF (s : string) : list string :=
  match s with
  | "" => [""]
  | String c r =>
      if Ascii.eqb c (ascii_of_N 10) then "" :: splitAtLF r
      else match splitAtLF r with
           | piece :: pieces => String c piece :: pieces
           | [] => [String c ""]
           end
  end.

Definition dropFinalCR (s : string) : string :=
  if endsWith s (fromCode 13) then removeLast s else s.

Fixpoint dropLineCRs (pieces : list string) : list string :=
  match pieces with
  | [] => []
  | [piece] => [piece]
  | piece :: rest => dropFinalCR piece :: dropLineCRs rest
  end.

Definition splitLines (s : string) : list string := dropLineCRs (splitAtLF s).

(** [[...new Set(domains)]]: the first occurrence of each element, in
    order. *)
Fixpoint distinctFrom (seen : list string) (l : list string) : list string :=
  match l with
  | [] => []
  | x :: r =>
      if existsb (String.eqb x) seen then distinctFrom seen r
      else x :: distinctFrom (x :: seen) r
  end.

Definition distinct (l : list string) : list string := distinctFrom [] l.

(** The chain of [map] and [filter] both parsers share, over the lines
    and a cleaning function. *)
Definition parseLines (clean : string -> string) (lines : list string)
  : list string :=
  distinct
    (List.filter FileParser.isValidDomainName
       (map clean
          (List.filter (fun line => negb (startsWith line "#"))
             (List.filter (fun line => (0 <? String.length line)%nat)
                (map trim lines))))).

(** [parseDomainsFile(fileContent)], for a string. *)
Definition parseDomainsFile (fileContent : string) : list string :=
  if (String.length fileContent =? 0)%nat then []
  else parseLines cleanDomainName (splitLines fileContent).

(** [combineDomainsWithExtensions(baseNames, extensions)]. *)
Definition withDot (ext : string) : string :=
  if startsWith ext "." then ext else "." +:+ ext.

Definition combineDomainsWithExtensions (baseNames extensions : list string)
  : list string :=
  flat_map (fun baseName =>
              if includes baseName "." then [baseName]
              else map (fun ext => baseName +:+ withDot ext) extensions)
           baseNames.

(** What [validateFileContent] returns: the error, or the count and the
    domains. *)
Definition validateFileContent (fileContent : string)
  : string + (nat * list string) :=
  if (String.length fileContent =? 0)%nat then
    inl ("El archivo est" +:+ fromCode 225 +:+ " vac" +:+ fromCode 237 +:+
         "o o no es v" +:+ fromCode 225 +:+ "lido")
  else
    let domains := parseDomainsFile fileContent in
    if (length domains =? 0)%nat then
      inl ("No se encontraron nombres de dominio v" +:+ fromCode 225 +:+
           "lidos en el archivo")
    else inr (length domains, domains).

End DomainsFile.

(** The parser of the client (js/fileHandler.js). *)
Module FileHandler.

Definition cleanDomain (domain : string) : string :=
  DomainsFile.upTo "?"%char
    (DomainsFile.upTo "/"%char
       (DomainsFile.stripFinalSlash
          (DomainsFile.stripWww (DomainsFile.stripProtocol (toLowerCase domain))))).

Definition isValidDomain (domain : string) : bool :=
  if (String.length domain =? 0)%nat then false
  else
    Regex.test FileParser.domainPattern domain &&
    (String.length domain <=? 253)%nat &&
    negb (includes domain "..") &&
    negb (startsWith domain "-") &&
    negb (endsWith domain "-").

Definition parseDomains (content : string) : list string :=
  DomainsFile.distinct
    (List.filter isValidDomain
       (map cleanDomain
          (List.filter (fun line => negb (startsWith line "#"))
             (List.filter (fun line => (0 <? String.length line)%nat)
                (map trim (DomainsFile.splitLines content)))))).

End FileHandler.

(** A string all of whose code units are their own lower case. *)
Fixpoint allLower (s : string) : Prop :=
  match s with
  | "" => True
  | String c r => toLowerCaseUnit c = c /\ allLower r
  end.

(** A string all of whose code units satisfy a test. *)
Fixpoint allUnits (P : ascii -> bool) (s : string) : Prop :=
  match s with
  | "" => True
  | String c r => P c = true /\ allUnits P r
  end.

(** The code units a domain name is made of. *)
Definition nameUnit (c : ascii) : bool :=
  FileParser.alnumHyphen c || FileParser.dot c.

(** A regular expression all of whose classes lie within a test. *)
Fixpoint within (P : ascii -> bool) (r : Regex.t) : Prop :=
  match r with
  | Regex.Never | Regex.Eps => True
  | Regex.Class member => forall c, member c = true -> P c = true
  | Regex.Seq r1 r2 | Regex.Alt r1 r2 => within P r1 /\ within P r2
  | Regex.Star r1 => within P r1
  end.

(** A regular expression that visibly matches nothing. *)
Fixpoint dead (r : Regex.t) : bool :=
  match r with
  | Regex.Never => true
  | Regex.Eps | Regex.Class _ | Regex.Star _ => false
  | Regex.Seq r1 r2 => dead r1 || dead r2
  | Regex.Alt r1 r2 => dead r1 && dead r2
  end.

(** A file for the examples, in the two line-ending styles, with a
    comment, a URL, a repeated name and a line that is no domain. *)
Definition exampleFile : string :=
  "# my list" +:+ fromCode 13 +:+ LF +:+
  "Example.COM" +:+ LF +:+
  "  https://www.Foo-Bar.cl/path?x=1  " +:+ fromCode 13 +:+ LF +:+
  "not a domain" +:+ LF +:+
  "example.com" +:+ LF +:+
  "localhost".

(** ** Readings used in the statements *)

(** How many patterns of a vocabulary occur in a text. *)
Definition matchCount (patterns : list string) (s : string) : nat :=
  length (List.filter (includes s) patterns).

(** The object a fresh WHOIS resolution returns on success. *)
Definition whoisFreshResult (normalizedDomain : string) (available : bool)
           (startTime t : Z) : Result.t :=
  {| Result.domain := normalizedDomain;
     Result.available := Some available;
     Result.status := if available then Available else Registered;
     Result.error := None;
     Result.responseTime := (t - startTime)%Z;
     Result.fromCache := false;
     Result.checkedAt := t;
     Result.provider := None;
     Result.pricing := None |}.

(** The object a WHOIS resolution returns when the lookup threw. *)
Definition whoisErrorResult (normalizedDomain message : string)
           (startTime t : Z) : Result.t :=
  {| Result.domain := normalizedDomain;
     Result.available := None;
     Result.status := Error;
     Result.error := Some message;
     Result.responseTime := (t - startTime)%Z;
     Result.fromCache := false;
     Result.checkedAt := t;
     Result.provider := None;
     Result.pricing := None |}.

(** A world at the start: empty cache, scheduler at rest, empty trace. *)
Definition initialWorld (ttl delayMs t0 : Z) : World :=
  {| cacheService := CacheService.create ttl;
     rateLimiter := RateLimiter.create delayMs;
     now := t0;
     trace := [] |}.

(** Transports that always answer the same way. *)
Definition whoisRejecting (message : string) (ms : Z)
  : string -> WhoisConfig -> Z -> WhoisReply :=
  fun _ _ _ => {| elapsed := ms; outcome := inr message |}.

Definition whoisResolving (data : JsValue) (ms : Z)
  : string -> WhoisConfig -> Z -> WhoisReply :=
  fun _ _ _ => {| elapsed := ms; outcome := inl data |}.

(** The scenario of the specification: a raw text response naming a
    registrar and a creation date. *)
Definition registeredScenario : JsValue :=
  JsStr ("Domain Name: EXAMPLE.COM" +:+ LF +:+ "Registrar: Foo" +:+ LF +:+
         "Creation Date: 2001-01-01").

(** A world whose cache holds an entry for [example.com] that expired
    long ago: written at time 10 with a TTL of 1000, read at time 5000. *)
Definition staleWorld : World :=
  {| cacheService :=
       CacheService.set "example.com"
         (whoisFreshResult "example.com" false 0 10) None 10
         (CacheService.create 1000);
     rateLimiter := RateLimiter.create 2000;
     now := 5000;
     trace := [] |}.

(** The world left by a first resolution of [Example.com], one minute
    later. *)
Definition oneMinuteLater : World :=
  atTime 61250
    (snd (WhoisService.checkDomain (whoisResolving registeredScenario 250)
            "Example.com" (initialWorld 86400000 2000 1000))).

(** The worlds the program can be in: it starts with an empty cache and
    a scheduler at rest, and then resolutions by either service, batches,
    cache maintenance, changes of the delay and the passing of time follow
    one another. *)
Inductive reachable (whois : string -> WhoisConfig -> Z -> WhoisReply)
          (axios_get : string -> Z -> ApiReply) : World -> Prop :=
| reach_start (ttl delayMs t0 : Z) :
    reachable whois axios_get (initialWorld ttl delayMs t0)
| reach_whois (w : World) (domain : string) (r : Result.t) (w' : World) :
    reachable whois axios_get w ->
    WhoisService.checkDomain whois domain w = (Returned r, w') ->
    reachable whois axios_get w'
| reach_batch (w : World) (domains : list string) (onProgress : bool)
              (rs : list Result.t) (w' : World) :
    reachable whois axios_get w ->
    WhoisService.checkMultipleDomains whois domains onProgress w = (Returned rs, w') ->
    reachable whois axios_get w'
| reach_godaddy (w : World) (domain : string) :
    reachable whois axios_get w ->
    reachable whois axios_get (snd (GoDaddyService.checkDomain axios_get domain w))
| reach_clear (w : World) :
    reachable whois axios_get w ->
    reachable whois axios_get (withCache (CacheService.clear (cacheService w)) w)
| reach_delete (w : World) (key : string) :
    reachable whois axios_get w ->
    reachable whois axios_get (withCache (CacheService.delete key (cacheService w)) w)
| reach_cleanExpired (w : World) :
    reachable whois axios_get w ->
    reachable whois axios_get
      (withCache (CacheService.cleanExpired (now w) (cacheService w)) w)
| reach_setDelay (w : World) (delayMs : Z) :
    reachable whois axios_get w ->
    reachable whois axios_get
      (withLimiter (RateLimiter.setDelay delayMs (rateLimiter w)) w)
| reach_time (w : World) (t : Z) :
    reachable whois axios_get w ->
    reachable whois axios_get (atTime t w).

(** Every cached capture is consistent. *)
Definition cacheConsistent (c : CacheService.t) : Prop :=
  forall key item,
    CacheService.cache c !! key = Some item ->
    Result.consistent (CacheService.value item).

(** A registrar API that always answers the same way. *)
Definition apiAnswering (data : ApiData) (ms : Z) : string -> Z -> ApiReply :=
  fun _ _ => {| api_elapsed := ms; api_outcome := inl data |}.

(** [if (onProgress) onProgress(info)]. *)
Definition notify (onProgress : bool) (info : ProgressInfo) (w : World) : World :=
  if onProgress then emit (Progress info) w else w.

(** The calls of the progress callback on a trace, in order. *)
Definition progressOf (tr : list Effect) : list ProgressInfo :=
  flat_map (fun e => match e with Progress info => [info] | _ => [] end) tr.

(** The reports a batch owes: one per domain, numbered from [i + 1]. *)
Fixpoint progressReports (total i : nat) (domains : list string)
         (results : list Result.t) : list ProgressInfo :=
  match domains, results with
  | domain :: domains, result :: results =>
      {| current := i + 1; total := total; progress_domain := domain;
         progress_result := result |}
      :: progressReports total (i + 1) domains results
  | _, _ => []
  end.

(** Resolution strictly in sequence and in input order, in the words of
    the specification: each domain is resolved in the world the previous
    resolution and its report left, and reported once, right after. *)
Inductive resolvedInOrder (whois : string -> WhoisConfig -> Z -> WhoisReply)
          (total : nat) (onProgress : bool)
  : nat -> list string -> World -> list Result.t -> World -> Prop :=
| inOrder_done (i : nat) (w : World) :
    resolvedInOrder whois total onProgress i [] w [] w
| inOrder_next (i : nat) (domain : string) (rest : list string) (w : World)
               (r : Result.t) (w1 : World) (rs : list Result.t) (w' : World) :
    WhoisService.checkDomain whois domain w = (Returned r, w1) ->
    resolvedInOrder whois total onProgress (i + 1) rest
      (notify onProgress
         {| current := i + 1; total := total; progress_domain := domain;
            progress_result := r |} w1)
      rs w' ->
    resolvedInOrder whois total onProgress i (domain :: rest) w (r :: rs) w'.

(** A transport that knows three kinds of names: a registered one, one
    under a slow TLD that times out, and names the registry has no match
    for. *)
Definition whoisByName : string -> WhoisConfig -> Z -> WhoisReply :=
  fun domain _ _ =>
    if String.eqb domain "taken.com" then
      {| elapsed := 250; outcome := inl registeredScenario |}
    else if String.eqb domain "slow.app" then
      {| elapsed := 15000; outcome := inr "connect ETIMEDOUT 192.0.2.1:43" |}
    else
      {| elapsed := 80; outcome := inr "No match for domain" |}.

Definition batchExample : list string :=
  ["free-name.org"; "slow.app"; "Taken.com"].

(** A schedule: two lookups are added, the first fails, a third is added
    during the sleep, and all are let to finish. *)
Definition exampleSchedule : list (RateLimiter.Event string bool string) :=
  [ RateLimiter.Add "a.com"; RateLimiter.Add "b.com";
    RateLimiter.Settle (inr "boom"); RateLimiter.Add "c.com";
    RateLimiter.Wake; RateLimiter.Settle (inl true);
    RateLimiter.Wake; RateLimiter.Settle (inl false) ].

(** ** Further readings *)

(** The lengths of the sleeps on a trace of the scheduler. *)
Definition sleeps {Task R E : Type} (obs : list (RateLimiter.Obs Task R E))
  : list Z :=
  flat_map (fun ob => match ob with RateLimiter.Sleeping ms => [ms] | _ => [] end)
           obs.

(** A caller that awaits each task before adding the next: the schedule
    and the trace it should leave. *)
Definition oneByOne {Task R E : Type} (jobs : list (Task * (R + E)))
  : list (RateLimiter.Event Task R E) :=
  flat_map (fun job => [RateLimiter.Add (fst job); RateLimiter.Settle (snd job)])
           jobs.

Definition oneByOneTrace {Task R E : Type} (jobs : list (Task * (R + E)))
  : list (RateLimiter.Obs Task R E) :=
  flat_map (fun job => [RateLimiter.Started (fst job);
                        RateLimiter.settle (fst job) (snd job)]) jobs.

(** Whether a schedule adds a task. *)
Definition addsNothing {Task R E : Type} (evs : list (RateLimiter.Event Task R E))
  : Prop :=
  RateLimiter.submitted evs = [].


(** A scheduler with one lookup in flight and two waiting. *)
Definition busyExample : RateLimiter.t string :=
  RateLimiter.mk 2000 ["b.com"; "c.com"] true (RateLimiter.OnTask "a.com").

(** The domains the WHOIS transport was called for, and the domains a
    task was submitted to the scheduler for, on a trace, in order. *)
Definition transportCalls (tr : list Effect) : list string :=
  flat_map (fun e => match e with WhoisCall domain _ => [domain] | _ => [] end) tr.

Definition submissions (tr : list Effect) : list string :=
  flat_map (fun e => match e with Submitted domain => [domain] | _ => [] end) tr.

(** The domains of the results that did not come from the cache. *)
Definition lookedUp (results : list Result.t) : list string :=
  map Result.domain (List.filter (fun r => negb (Result.fromCache r)) results).

(** The messages of the registrar-API service for the HTTP statuses it
    knows, and for a failure with no message. *)
Definition message400 : string :=
  "API keys inv" +:+ fromCode 225 +:+ "lidas (" +:+ fromCode 191 +:+ "est" +:+
  fromCode 225 +:+ "s usando keys de OTE en lugar de Production?)".
Definition message401 : string :=
  "API Key de GoDaddy inv" +:+ fromCode 225 +:+
  "lida. Verifica tu configuraci" +:+ o_acute +:+ "n.".
Definition message429 : string :=
  "L" +:+ fromCode 237 +:+ "mite de requests excedido. Espera un momento.".
Definition message422 : string :=
  "Formato de dominio inv" +:+ fromCode 225 +:+ "lido".
Definition messageUnknown : string := "Error desconocido".

(** The [summary] object of the [/api/check] route and of the JSON
    export: how many results have [available === true], how many
    [available === false], how many [status === 'error']. *)
Record Summary : Type := {
  summary_available : nat;
  summary_registered : nat;
  summary_errors : nat
}.

Definition isAvailableTrue (r : Result.t) : bool :=
  match Result.available r with Some true => true | _ => false end.
Definition isAvailableFalse (r : Result.t) : bool :=
  match Result.available r with Some false => true | _ => false end.
Definition isStatusError (r : Result.t) : bool :=
  match Result.status r with Error => true | _ => false end.

Definition summary (results : list Result.t) : Summary :=
  {| summary_available := length (List.filter isAvailableTrue results);
     summary_registered := length (List.filter isAvailableFalse results);
     summary_errors := length (List.filter isStatusError results) |}.

(** A transport that refuses every query. *)
Definition whoisRefusing : string -> WhoisConfig -> Z -> WhoisReply :=
  whoisRejecting "Query rate limit exceeded" 40.

(** Registrar APIs for the examples: one that refuses the credentials,
    one that answers with an availability and no price fields. *)
Definition apiUnauthorized : string -> Z -> ApiReply :=
  fun _ _ => {| api_elapsed := 35;
                api_outcome := inr {| response_status := Some 401%Z;
                                      api_message := "Request failed with status code 401" |} |}.

Definition apiBare (available : bool) : string -> Z -> ApiReply :=
  apiAnswering {| api_available := available; api_price := None;
                  api_currency := None; api_period := None |} 90.

(** Three results: one available, one registered, one failed. *)
Definition threeResults : list Result.t :=
  [ whoisFreshResult "free-name.org" true 1000 1080;
    whoisFreshResult "taken.com" false 1080 1330;
    whoisErrorResult "slow.app" "boom" 1330 16330 ].

(** A string that does not begin with white space. *)
Definition startsClean (s : string) : Prop :=
  match s with
  | "" => True
  | String c _ => isWhiteSpace c = false
  end.

(** The strings a regular expression stands for. *)
Inductive matches : Regex.t -> string -> Prop :=
| MEps : matches Regex.Eps ""
| MClass (member : ascii -> bool) (c : ascii) :
    member c = true -> matches (Regex.Class member) (String c "")
| MSeq (r1 r2 : Regex.t) (s1 s2 : string) :
    matches r1 s1 -> matches r2 s2 -> matches (Regex.Seq r1 r2) (s1 +:+ s2)
| MAltL (r1 r2 : Regex.t) (s : string) :
    matches r1 s -> matches (Regex.Alt r1 r2) s
| MAltR (r1 r2 : Regex.t) (s : string) :
    matches r2 s -> matches (Regex.Alt r1 r2) s
| MStarNil (r : Regex.t) : matches (Regex.Star r) ""
| MStarCons (r : Regex.t) (s1 s2 : string) :
    matches r s1 -> matches (Regex.Star r) s2 ->
    matches (Regex.Star r) (s1 +:+ s2).

(** The first, and the last, code unit of a string passes a test. *)
Definition headIs (P : ascii -> bool) (s : string) : bool :=
  match s with
  | "" => false
  | String c _ => P c
  end.

Fixpoint lastIs (P : ascii -> bool) (s : string) : bool :=
  match s with
  | "" => false
  | String c "" => P c
  | String _ r => lastIs P r
  end.

(** No dot is followed by a dot. *)
Fixpoint dotsApart (s : string) : bool :=
  match s with
  | "" => true
  | String c r => negb (FileParser.dot c && headIs FileParser.dot r) && dotsApart r
  end.

(** ** The classifier of the second [WhoisService] of whois.service.js *)

Module Classifier2.

Definition registeredPatterns : list string :=
  [ "registrar:";
    "creation date:";
    "created:";
    "registered:";
    "domain status: active";
    "status: active";
    "nameserver";
    "name server" ].

Definition availablePatterns : list string :=
  [ "no match";
    "not found";
    "no entries found";
    "no data found";
    "available";
    "free";
    "no se encontr" +:+ o_acute ].

(** Availability patterns are looked for first, then registration
    patterns; both ways out of the second loop, and the end of the
    function, return [false]. *)
Definition isDomainAvailable (data : JsValue) (domain : string) : bool :=
  if negb (truthy data) then true
  else
    let dataStr := Classifier.serialize data in
    match Classifier.scanAvailable availablePatterns dataStr with
    | Some _ => true
    | None =>
        match Classifier.scanAvailable registeredPatterns dataStr with
        | Some _ => false
        | None => false
        end
    end.

End Classifier2.

(** A payload the two classifiers of whois.service.js read differently. *)
Definition parkedScenario : JsValue :=
  JsObject [ ("registrar", JsStr "Registrar: Example Registrar, Inc.");
             ("notice", JsStr "This domain is available for transfer") ].

(** ** Readings for the serialization *)

Definition isColon (c : ascii) : bool := Ascii.eqb c ":"%char.

Definition isQuote (c : ascii) : bool := Ascii.eqb c (ascii_of_N 34).

(** A string without a colon. *)
Fixpoint colonless (s : string) : bool :=
  match s with
  | "" => true
  | String c r => negb (isColon c) && colonless r
  end.

(** Every colon of [s] comes right after a double quote, [prev] being
    the code unit before [s]. *)
Fixpoint guardedFrom (prev : ascii) (s : string) : bool :=
  match s with
  | "" => true
  | String c r => (negb (isColon c) || isQuote prev) && guardedFrom c r
  end.

(** The same from the second code unit on. *)
Definition innerGuarded (p : string) : bool :=
  match p with
  | "" => true
  | String c r => guardedFrom c r
  end.

Fixpoint lastUnit (prev : ascii) (s : string) : ascii :=
  match s with
  | "" => prev
  | String c r => lastUnit c r
  end.

(** A value none of whose strings -- property names and string values,
    at any depth -- holds a colon. *)
Inductive colonFree : JsValue -> Prop :=
| cf_null : colonFree JsNull
| cf_bool (b : bool) : colonFree (JsBool b)
| cf_str (s : string) : colonless s = true -> colonFree (JsStr s)
| cf_array_nil : colonFree (JsArray [])
| cf_array_cons (x : JsValue) (r : list JsValue) :
    colonFree x -> colonFree (JsArray r) -> colonFree (JsArray (x :: r))
| cf_object_nil : colonFree (JsObject [])
| cf_object_cons (k : string) (x : JsValue) (r : list (string * JsValue)) :
    colonless k = true -> colonFree x -> colonFree (JsObject r) ->
    colonFree (JsObject ((k, x) :: r)).

(** A parsed WHOIS record of a registered domain: fields by name, no
    colon in any of them. *)
Definition recordScenario : JsValue :=
  JsObject [ ("domainName", JsStr "EXAMPLE.COM");
             ("registrar", JsStr "Example Registrar, Inc.");
             ("nameServer", JsStr "ns1.example.com ns2.example.com") ].

(** * Properties *)

(** ** Strings *)

Lemma toLowerCase_length (s : string) :
  String.length (toLowerCase s) = String.length s.
Proof. induction s as [|c s IH]; simpl; congruence. Qed.

(** ** The classifier *)

Lemma falsy_serialize_short (data : JsValue) :
  truthy data = false -> (String.length (serialize data) < 50)%nat.
Proof.
  destruct data as [|[]|s| |]; simpl; try discriminate; intros H.
  - vm_compute. lia.
  - vm_compute. lia.
  - destruct s; [vm_compute; lia | discriminate].
Qed.

Lemma matchCount_cons (p : string) (patterns : list string) (s : string) :
  matchCount (p :: patterns) s =
  ((if includes s p then 1 else 0) + matchCount patterns s)%nat.
Proof. unfold matchCount. simpl. destruct (includes s p); reflexivity. Qed.

Lemma matchCount_app (l1 l2 : list string) (s : string) :
  matchCount (l1 ++ l2) s = (matchCount l1 s + matchCount l2 s)%nat.
Proof.
  unfold matchCount. rewrite List.filter_app, length_app. reflexivity.
Qed.

(** The counting loop, in closed form: from a count below two it leaves
    with exactly two as soon as the total reaches two. *)
Lemma scanRegistered_spec (patterns : list string) (s : string) (c : nat) :
  (c <= 1)%nat ->
  scanRegistered patterns s c =
  if (2 <=? c + matchCount patterns s)%nat then ReturnedInLoop 2
  else LoopDone (c + matchCount patterns s).
Proof.
  revert c. induction patterns as [|p patterns IH]; intros c Hc.
  - unfold matchCount. simpl. rewrite Nat.add_0_r.
    destruct c as [|[|c]]; [reflexivity | reflexivity | lia].
  - rewrite matchCount_cons. simpl. destruct (includes s p).
    + destruct c as [|[|c]]; [ | | lia].
      * simpl (2 <=? 1)%nat. cbv iota. rewrite IH by lia.
        replace (0 + (1 + matchCount patterns s))%nat
          with (1 + matchCount patterns s)%nat by lia.
        reflexivity.
      * simpl (2 <=? 2)%nat. cbv iota.
        destruct (Nat.leb_spec 2 (1 + (1 + matchCount patterns s))); [reflexivity | lia].
    + rewrite IH by lia. reflexivity.
Qed.

(** With two occurrences or more, the vocabulary splits at the second
    pattern found. *)
Lemma second_match_split (patterns : list string) (s : string) :
  (2 <= matchCount patterns s)%nat ->
  exists pre p post,
    patterns = pre ++ p :: post /\ matchCount pre s = 1%nat /\
    includes s p = true.
Proof.
  induction patterns as [|q patterns IH] using rev_ind; intros H.
  - unfold matchCount in H. simpl in H. lia.
  - rewrite matchCount_app, matchCount_cons in H.
    change (matchCount [] s) with 0%nat in H.
    destruct (Nat.le_gt_cases 2 (matchCount patterns s)) as [H2|H2].
    + destruct (IH H2) as (pre & p & post & -> & H1 & Hp).
      exists pre, p, (post ++ [q]). rewrite <- app_assoc. simpl. auto.
    + destruct (includes s q) eqn:Hq; [|lia].
      exists patterns, q, []. repeat split; [lia | exact Hq].
Qed.

Lemma scanAvailable_none (patterns : list string) (s : string) :
  matchCount patterns s = 0%nat -> scanAvailable patterns s = None.
Proof.
  induction patterns as [|p patterns IH]; [reflexivity|].
  rewrite matchCount_cons. simpl. destruct (includes s p); [lia|].
  intros H. apply IH. lia.
Qed.

(** C1, as stated, fails on a payload shorter than 50 code units: the
    serialization below holds the two phrases [registrar:] and [created:]
    and is classified available. *)
Lemma C1_short_payload_with_two_phrases :
  (2 <= matchCount strongRegisteredPatterns
          (serialize (JsStr "registrar: x created: y")))%nat /\
  isDomainAvailable (JsStr "registrar: x created: y") "x.com" = true.
Proof. split; [vm_compute; lia | reflexivity]. Qed.

(** C1 (amended): when the lowercase serialization has at least 50 code
    units and holds at least one phrase of the strong-registration
    vocabulary, the classifier answers registered, whatever availability
    phrases are present.  With two phrases or more the loop is left at
    the second pattern found, with a count of exactly two and without a
    look at the patterns after it; with exactly one phrase the loop runs
    to its end and the answer is registered all the same. *)
Theorem C1_strong_evidence_registered (data : JsValue) (domain : string) :
  (50 <= String.length (serialize data))%nat ->
  (1 <= matchCount strongRegisteredPatterns (serialize data))%nat ->
  isDomainAvailable data domain = false /\
  ((2 <= matchCount strongRegisteredPatterns (serialize data))%nat ->
   isDomainAvailable_log data domain = (false, [LogRegistered domain 2]) /\
   exists pre p post,
     strongRegisteredPatterns = pre ++ p :: post /\
     matchCount pre (serialize data) = 1%nat /\
     includes (serialize data) p = true /\
     forall rest,
       scanRegistered (pre ++ p :: rest) (serialize data) 0 = ReturnedInLoop 2) /\
  (matchCount strongRegisteredPatterns (serialize data) = 1%nat ->
   isDomainAvailable_log data domain = (false, [LogLikelyRegistered domain 1])).
Proof.
  intros Hlen Hone.
  assert (Htruthy : truthy data = true).
  { destruct (truthy data) eqn:Ht; [reflexivity|].
    apply falsy_serialize_short in Ht. lia. }
  assert (Hlog : isDomainAvailable_log data domain =
                 if (2 <=? matchCount strongRegisteredPatterns (serialize data))%nat
                 then (false, [LogRegistered domain 2])
                 else (false, [LogLikelyRegistered domain
                                 (matchCount strongRegisteredPatterns (serialize data))])).
  { unfold isDomainAvailable_log. rewrite Htruthy. cbv [negb].
    destruct (Nat.ltb_spec (String.length (serialize data)) 50) as [Hlt|_]; [lia|].
    rewrite scanRegistered_spec by lia. rewrite Nat.add_0_l.
    destruct (2 <=? matchCount strongRegisteredPatterns (serialize data))%nat;
      [reflexivity|].
    destruct (Nat.leb_spec 1 (matchCount strongRegisteredPatterns (serialize data)));
      [reflexivity | lia]. }
  split; [|split].
  - unfold isDomainAvailable. rewrite Hlog.
    destruct (2 <=? _)%nat; reflexivity.
  - intros Htwo. split.
    + rewrite Hlog. destruct (Nat.leb_spec 2
        (matchCount strongRegisteredPatterns (serialize data))); [reflexivity | lia].
    + destruct (second_match_split _ _ Htwo) as (pre & p & post & Heq & Hpre & Hp).
      exists pre, p, post. repeat split; try assumption.
      intros rest. rewrite scanRegistered_spec by lia.
      rewrite matchCount_app, matchCount_cons, Hpre, Hp. reflexivity.
  - intros Hexact. rewrite Hlog, Hexact. reflexivity.
Qed.

Lemma C1_strong_evidence_registered_witness :
  isDomainAvailable registeredScenario "example.com" = false.
Proof.
  apply (C1_strong_evidence_registered registeredScenario "example.com").
  - vm_compute. lia.
  - vm_compute. lia.
Defined.

(** C2: when the lowercase serialization holds no phrase of either
    vocabulary, the answer is available exactly when the serialization is
    shorter than 200 code units, and registered otherwise; a payload
    shorter than 50 code units and the null payload are available. *)
Theorem C2_no_evidence_length_decides (data : JsValue) (domain : string) :
  matchCount strongRegisteredPatterns (serialize data) = 0%nat ->
  matchCount availablePatterns (serialize data) = 0%nat ->
  isDomainAvailable data domain = (String.length (serialize data) <? 200)%nat /\
  ((String.length (serialize data) < 50)%nat ->
   isDomainAvailable data domain = true) /\
  isDomainAvailable JsNull domain = true.
Proof.
  intros Hstrong Havail.
  assert (Hmain : isDomainAvailable data domain =
                  (String.length (serialize data) <? 200)%nat).
  { unfold isDomainAvailable, isDomainAvailable_log.
    destruct (truthy data) eqn:Ht; cbv [negb].
    - destruct (Nat.ltb_spec (String.length (serialize data)) 50) as [Hlt|Hge].
      + destruct (Nat.ltb_spec (String.length (serialize data)) 200); [reflexivity | lia].
      + rewrite scanRegistered_spec by lia. rewrite Hstrong.
        cbv [Nat.add Nat.leb]. rewrite scanAvailable_none by assumption.
        destruct (String.length (serialize data) <? 200)%nat; reflexivity.
    - apply falsy_serialize_short in Ht.
      destruct (Nat.ltb_spec (String.length (serialize data)) 200); [reflexivity | lia]. }
  split; [exact Hmain|]. split; [|reflexivity].
  intros Hshort. rewrite Hmain. apply Nat.ltb_lt. lia.
Qed.

Lemma C2_no_evidence_length_decides_witness :
  isDomainAvailable (JsObject [("domainName", JsStr "free-name.example")])
    "free-name.example" = true /\
  isDomainAvailable
    (JsObject [("domainName", JsStr "EXAMPLE.COM");
               ("registrar", JsStr "Example Registrar, Inc.");
               ("creationDate", JsStr "2001-01-01T00:00:00Z");
               ("registryExpiryDate", JsStr "2031-01-01T00:00:00Z");
               ("nameServer", JsStr "NS1.EXAMPLE.NET NS2.EXAMPLE.NET");
               ("domainStatus", JsStr "clientTransferProhibited")])
    "example.com" = false.
Proof.
  split.
  - apply (proj1 (proj2 (C2_no_evidence_length_decides
                           (JsObject [("domainName", JsStr "free-name.example")])
                           "free-name.example" eq_refl eq_refl))).
    vm_compute. lia.
  - exact (proj1 (C2_no_evidence_length_decides
                    (JsObject [("domainName", JsStr "EXAMPLE.COM");
               ("registrar", JsStr "Example Registrar, Inc.");
               ("creationDate", JsStr "2001-01-01T00:00:00Z");
               ("registryExpiryDate", JsStr "2031-01-01T00:00:00Z");
               ("nameServer", JsStr "NS1.EXAMPLE.NET NS2.EXAMPLE.NET");
               ("domainStatus", JsStr "clientTransferProhibited")])
                    "example.com" eq_refl eq_refl)).
Defined.

(** ** Suffixes and extensions *)

Lemma append_nil (b : string) : "" +:+ b = b.
Proof. reflexivity. Qed.

Lemma append_cons (c : ascii) (a b : string) :
  String c a +:+ b = String c (a +:+ b).
Proof. reflexivity. Qed.

Lemma append_length (a b : string) :
  String.length (a +:+ b) = (String.length a + String.length b)%nat.
Proof.
  induction a as [|c a IH]; [reflexivity|].
  rewrite append_cons. simpl. congruence.
Qed.

Lemma drop_app_length (pre s : string) :
  drop (String.length pre) (pre +:+ s) = s.
Proof.
  induction pre as [|c pre IH]; [reflexivity|].
  rewrite append_cons. exact IH.
Qed.

Lemma drop_is_suffix (n : nat) (s : string) :
  exists pre, s = pre +:+ drop n s.
Proof.
  revert s. induction n as [|n IH]; intros s.
  - exists "". reflexivity.
  - destruct s as [|c s]; [exists ""; reflexivity|].
    destruct (IH s) as [pre Hpre]. exists (String c pre).
    rewrite append_cons. simpl. congruence.
Qed.

Lemma endsWith_spec (s p : string) :
  endsWith s p = true <-> exists pre, s = pre +:+ p.
Proof.
  unfold endsWith. rewrite andb_true_iff, Nat.leb_le, String.eqb_eq. split.
  - intros [_ Hdrop].
    destruct (drop_is_suffix (String.length s - String.length p) s) as [pre Hpre].
    exists pre. congruence.
  - intros [pre ->]. rewrite append_length. split; [lia|].
    replace (String.length pre + String.length p - String.length p)%nat
      with (String.length pre) by lia.
    apply drop_app_length.
Qed.

Lemma lastIndexOf_app_dot (pre x : string) :
  lastIndexOf x "."%char = None ->
  lastIndexOf (pre +:+ String "."%char x) "."%char = Some (String.length pre).
Proof.
  intros Hx. induction pre as [|c pre IH].
  - rewrite append_nil. simpl. rewrite Hx. reflexivity.
  - rewrite append_cons. simpl. rewrite IH. reflexivity.
Qed.

Section ExtensionFacts.
Import WhoisService.

Lemma extensionOf_app_dot (pre x : string) :
  lastIndexOf x "."%char = None ->
  extensionOf (pre +:+ String "."%char x) = String "."%char x.
Proof.
  intros Hx. unfold extensionOf. rewrite lastIndexOf_app_dot by assumption.
  simpl. apply drop_app_length.
Qed.

Lemma extensionOf_is_suffix (domain : string) :
  endsWith domain (extensionOf domain) = true.
Proof.
  apply endsWith_spec. unfold extensionOf.
  destruct (lastIndexOf domain "."%char) as [n|]; simpl.
  - apply drop_is_suffix.
  - exists "". reflexivity.
Qed.

(** For a problematic TLD, ending in it and having it as extension are
    the same thing. *)
Lemma endsWith_problematic (domain tld : string) :
  In tld problematicTLDs ->
  (endsWith domain tld = true <-> extensionOf domain = tld).
Proof.
  intros Hin. split.
  - intros H. apply endsWith_spec in H. destruct H as [pre ->].
    simpl in Hin.
    destruct Hin as [<-|[<-|[<-|[<-|[]]]]];
      apply extensionOf_app_dot; reflexivity.
  - intros <-. apply extensionOf_is_suffix.
Qed.

Lemma isProblematic_iff (extension : string) :
  isProblematic extension = true <-> In extension problematicTLDs.
Proof.
  unfold isProblematic. rewrite existsb_exists. split.
  - intros (x & Hin & Heq). apply String.eqb_eq in Heq. subst x. exact Hin.
  - intros Hin. exists extension. split; [assumption | apply String.eqb_refl].
Qed.

Lemma isProblematic_endsWith (domain : string) :
  isProblematic (extensionOf domain) = true <->
  exists tld, In tld problematicTLDs /\ endsWith domain tld = true.
Proof.
  rewrite isProblematic_iff. split.
  - intros Hin. exists (extensionOf domain). split; [assumption|].
    apply extensionOf_is_suffix.
  - intros (tld & Hin & Hends).
    apply (endsWith_problematic domain tld Hin) in Hends.
    rewrite Hends. exact Hin.
Qed.

End ExtensionFacts.

(** ** The scheduler seen from one awaited call *)

Lemma idle_spec {Task : Type} (l : RateLimiter.t Task) :
  RateLimiter.idle l = true <->
  RateLimiter.processing l = false /\ RateLimiter.queue l = [].
Proof.
  unfold RateLimiter.idle. rewrite andb_true_iff, negb_true_iff, Nat.eqb_eq.
  destruct (RateLimiter.queue l); simpl; intuition (try discriminate; auto).
Qed.

Lemma add_on_idle {Task R E : Type} (task : Task) (l : RateLimiter.t Task) :
  RateLimiter.idle l = true ->
  RateLimiter.add (R := R) (E := E) task l =
  (RateLimiter.mk (RateLimiter.delay l) [] true (RateLimiter.OnTask task),
   [RateLimiter.Started task]).
Proof.
  intros H. apply idle_spec in H. destruct H as [Hp Hq].
  unfold RateLimiter.add, RateLimiter.processQueue, RateLimiter.loop. simpl.
  rewrite Hp, Hq. reflexivity.
Qed.

Lemma settled_last {Task R E : Type} (task : Task) (o : R + E) (d : Z) :
  RateLimiter.settled o (RateLimiter.mk d [] true (RateLimiter.OnTask task)) =
  Some (RateLimiter.create d, [RateLimiter.settle task o]).
Proof. reflexivity. Qed.

(** ** One resolution *)

Section CheckDomain.
Import WhoisService.

Variable whois : string -> WhoisConfig -> Z -> WhoisReply.

Local Arguments isNotFoundError : simpl never.
Local Arguments isTimeoutOrConnectionError : simpl never.
Local Arguments isDomainAvailable : simpl never.
Local Arguments isProblematic : simpl never.
Local Arguments extensionOf : simpl never.
Local Arguments whoisConfigOf : simpl never.
Local Arguments manualVerificationMessage : simpl never.
Local Arguments trim : simpl never.
Local Arguments toLowerCase : simpl never.
Local Arguments CacheService.get : simpl never.
Local Arguments CacheService.set : simpl never.

(** The world a lookup leaves: the clock has advanced by the time the
    transport took, and the call is on the trace. *)
Lemma performWhoisLookup_world (domain : string) (w : World) :
  snd (performWhoisLookup whois domain w) =
  atTime (now w + elapsed (whois domain (whoisConfigOf (extensionOf domain)) (now w)))
         (emit (WhoisCall domain (whoisConfigOf (extensionOf domain))) w).
Proof.
  unfold performWhoisLookup.
  destruct (outcome _) as [data|message]; [reflexivity|].
  destruct (isNotFoundError message); [reflexivity|].
  destruct (_ && _); reflexivity.
Qed.

(** What a lookup answers depends on the world through the clock only. *)
Lemma performWhoisLookup_answer (domain : string) (w1 w2 : World) :
  now w1 = now w2 ->
  fst (performWhoisLookup whois domain w1) =
  fst (performWhoisLookup whois domain w2).
Proof.
  intros Hnow. unfold performWhoisLookup. rewrite Hnow.
  destruct (outcome _) as [data|message]; [reflexivity|].
  destruct (isNotFoundError message); [reflexivity|].
  destruct (_ && _); reflexivity.
Qed.

(** A hit: the cached capture comes back, and nothing else happens. *)
Lemma checkDomain_hit (domain : string) (w : World)
      (item : CacheService.CacheEntry) :
  CacheService.cache (cacheService w) !! trim (toLowerCase domain) = Some item ->
  (now w <= CacheService.expiry item)%Z ->
  checkDomain whois domain w =
  (Returned (Result.withFromCache (CacheService.value item) true), w).
Proof.
  intros Hitem Hlive. unfold checkDomain, CacheService.get. rewrite Hitem.
  destruct (Z.gtb_spec (now w) (CacheService.expiry item)) as [Hgt|_]; [lia|].
  destruct w as [[c t] l n tr]. reflexivity.
Qed.

(** A miss on a free scheduler: one task, one transport call, and the
    result made from what the lookup answers. *)
Lemma checkDomain_miss (domain : string) (w : World) (c : CacheService.t) :
  CacheService.get (trim (toLowerCase domain)) (now w) (cacheService w) = (None, c) ->
  RateLimiter.idle (rateLimiter w) = true ->
  let nd := trim (toLowerCase domain) in
  let cfg := whoisConfigOf (extensionOf nd) in
  let t := (now w + elapsed (whois nd cfg (now w)))%Z in
  let after c' :=
    {| cacheService := c';
       rateLimiter := RateLimiter.create (RateLimiter.delay (rateLimiter w));
       now := t;
       trace := trace w ++ [Submitted nd; WhoisCall nd cfg] |} in
  checkDomain whois domain w =
  match fst (performWhoisLookup whois nd w) with
  | inl result =>
      let r := whoisFreshResult nd (lookup_available result) (now w) t in
      (Returned r, after (CacheService.set nd r None t c))
  | inr message =>
      (Returned (whoisErrorResult nd message (now w) t), after c)
  end.
Proof.
  intros Hget Hidle nd cfg t after.
  unfold checkDomain. rewrite Hget. fold nd.
  unfold submitLookup.
  change (rateLimiter (withCache c w)) with (rateLimiter w).
  rewrite (add_on_idle (R := LookupResult) (E := string) nd _ Hidle), Hidle.
  pose proof (performWhoisLookup_world nd
    (withLimiter (RateLimiter.mk (RateLimiter.delay (rateLimiter w)) [] true
                    (RateLimiter.OnTask nd))
       (emit (Submitted nd) (withCache c w)))) as Hw.
  pose proof (performWhoisLookup_answer nd
    (withLimiter (RateLimiter.mk (RateLimiter.delay (rateLimiter w)) [] true
                    (RateLimiter.OnTask nd))
       (emit (Submitted nd) (withCache c w))) w eq_refl) as Ha.
  destruct (performWhoisLookup whois nd (withLimiter _ _)) as [o w1].
  simpl in Hw, Ha. subst w1. rewrite <- Ha.
  rewrite settled_last.
  unfold after, t, cfg, whoisFreshResult, whoisErrorResult.
  destruct o as [result|message];
    unfold withCache, withLimiter, atTime, emit; simpl;
    rewrite <- app_assoc; reflexivity.
Qed.

End CheckDomain.

(** ** Transport failures *)

Lemma vocabulary_match (patterns : list string) (s : string) :
  some_includes patterns s = true <->
  exists p, In p patterns /\ includes s p = true.
Proof. unfold some_includes. apply existsb_exists. Qed.

Lemma vocabulary_no_match (patterns : list string) (s : string) :
  some_includes patterns s = false <->
  forall p, In p patterns -> includes s p = false.
Proof.
  unfold some_includes. split.
  - intros H p Hin. destruct (includes s p) eqn:Hp; [|reflexivity].
    assert (existsb (includes s) patterns = true)
      by (apply existsb_exists; eauto).
    congruence.
  - intros H. destruct (existsb (includes s) patterns) eqn:He; [|reflexivity].
    apply existsb_exists in He. destruct He as (p & Hin & Hp).
    rewrite (H p Hin) in Hp. discriminate.
Qed.

Section TransportFailures.
Import WhoisService.

Variable whois : string -> WhoisConfig -> Z -> WhoisReply.

Lemma lookup_not_found (domain message : string) (w : World) :
  outcome (whois domain (whoisConfigOf (extensionOf domain)) (now w)) = inr message ->
  isNotFoundError message = true ->
  fst (performWhoisLookup whois domain w) =
  inl {| lookup_available := true; lookup_data := JsNull |}.
Proof.
  intros Hout Hnf. unfold performWhoisLookup. rewrite Hout, Hnf. reflexivity.
Qed.

Lemma lookup_rethrows (domain message : string) (w : World) :
  outcome (whois domain (whoisConfigOf (extensionOf domain)) (now w)) = inr message ->
  isNotFoundError message = false ->
  fst (performWhoisLookup whois domain w) =
  inr (if isTimeoutOrConnectionError message && isProblematic (extensionOf domain)
       then manualVerificationMessage (extensionOf domain)
       else message).
Proof.
  intros Hout Hnf. unfold performWhoisLookup. rewrite Hout, Hnf.
  destruct (_ && _); reflexivity.
Qed.

(** C3: a transport failure whose message holds, in any letter case, a
    phrase of the not-found vocabulary makes the lookup return
    available with no data, and the resolution a result with
    available = true and status = available and no error -- whether or
    not the message also belongs to the transient vocabulary and
    whatever the TLD, since the not-found test comes first. *)
Theorem C3_not_found_is_available (domain message : string) (w : World) :
  fst (CacheService.get (trim (toLowerCase domain)) (now w) (cacheService w)) = None ->
  RateLimiter.idle (rateLimiter w) = true ->
  outcome (whois (trim (toLowerCase domain))
             (whoisConfigOf (extensionOf (trim (toLowerCase domain))))
             (now w)) = inr message ->
  (exists p, In p notFoundPatterns /\ includes (toLowerCase message) p = true) ->
  fst (performWhoisLookup whois (trim (toLowerCase domain)) w) =
    inl {| lookup_available := true; lookup_data := JsNull |} /\
  exists r w',
    checkDomain whois domain w = (Returned r, w') /\
    Result.available r = Some true /\
    Result.status r = Available /\
    Result.error r = None.
Proof.
  intros Hmiss Hidle Hout Hvoc.
  assert (Hnf : isNotFoundError message = true)
    by (apply vocabulary_match; exact Hvoc).
  pose proof (lookup_not_found _ _ w Hout Hnf) as Hlook.
  split; [exact Hlook|].
  destruct (CacheService.get (trim (toLowerCase domain)) (now w) (cacheService w))
    as [o c] eqn:Hget.
  simpl in Hmiss. subst o.
  rewrite (checkDomain_miss whois domain w c Hget Hidle). rewrite Hlook.
  eexists _, _. split; [reflexivity|]. repeat split.
Qed.

(** C5 (amended): a transport failure whose message belongs to the
    transient vocabulary and to no phrase of the not-found vocabulary
    yields a result with status = error and available = null, and
    nothing is cached; for a domain ending in a problematic TLD the
    error is the manual-verification message for that TLD, for any
    other domain it is the message of the transport, verbatim. *)
Theorem C5_transient_failure_is_error (domain message : string) (w : World) :
  fst (CacheService.get (trim (toLowerCase domain)) (now w) (cacheService w)) = None ->
  RateLimiter.idle (rateLimiter w) = true ->
  outcome (whois (trim (toLowerCase domain))
             (whoisConfigOf (extensionOf (trim (toLowerCase domain))))
             (now w)) = inr message ->
  (exists p, In p timeoutPatterns /\ includes (toLowerCase message) p = true) ->
  (forall p, In p notFoundPatterns -> includes (toLowerCase message) p = false) ->
  exists r w',
    checkDomain whois domain w = (Returned r, w') /\
    Result.status r = Error /\
    Result.available r = None /\
    (forall tld, In tld problematicTLDs ->
                 endsWith (trim (toLowerCase domain)) tld = true ->
                 Result.error r = Some (manualVerificationMessage tld)) /\
    ((forall tld, In tld problematicTLDs ->
                  endsWith (trim (toLowerCase domain)) tld = false) ->
     Result.error r = Some message) /\
    cacheService w' =
      snd (CacheService.get (trim (toLowerCase domain)) (now w) (cacheService w)).
Proof.
  intros Hmiss Hidle Hout Hvoc Hnot.
  assert (Hto : isTimeoutOrConnectionError message = true)
    by (apply vocabulary_match; exact Hvoc).
  assert (Hnf : isNotFoundError message = false)
    by (apply vocabulary_no_match; exact Hnot).
  pose proof (lookup_rethrows _ _ w Hout Hnf) as Hlook.
  rewrite Hto in Hlook. cbv [andb] in Hlook.
  destruct (CacheService.get (trim (toLowerCase domain)) (now w) (cacheService w))
    as [o c] eqn:Hget.
  simpl in Hmiss. subst o.
  rewrite (checkDomain_miss whois domain w c Hget Hidle). rewrite Hlook.
  eexists _, _. split; [reflexivity|].
  split; [reflexivity|]. split; [reflexivity|]. split; [|split; [|reflexivity]].
  - intros tld Hin Hends. simpl.
    apply (endsWith_problematic _ _ Hin) in Hends.
    rewrite Hends. apply isProblematic_iff in Hin. rewrite Hin. reflexivity.
  - intros Hnone. simpl.
    destruct (isProblematic (extensionOf (trim (toLowerCase domain)))) eqn:Hp;
      [|reflexivity].
    apply isProblematic_endsWith in Hp. destruct Hp as (tld & Hin & Hends).
    rewrite (Hnone tld Hin) in Hends. discriminate.
Qed.

End TransportFailures.

Lemma C3_not_found_is_available_witness :
  exists r w',
    WhoisService.checkDomain
      (whoisRejecting "Connection error: Domain NOT FOUND" 120)
      " Example.APP " (initialWorld 86400000 2000 1000) = (Returned r, w') /\
    Result.available r = Some true /\
    Result.status r = Available /\
    Result.error r = None.
Proof.
  apply (C3_not_found_is_available
           (whoisRejecting "Connection error: Domain NOT FOUND" 120)
           " Example.APP " "Connection error: Domain NOT FOUND"
           (initialWorld 86400000 2000 1000)).
  - reflexivity.
  - reflexivity.
  - reflexivity.
  - exists "not found". split; [simpl; tauto | reflexivity].
Defined.

(** C5, as stated, fails when the message also holds a not-found phrase:
    for a domain under [.app] and a message of the transient vocabulary
    that says [not found], the resolution is available, not an error. *)
Lemma C5_transient_message_saying_not_found :
  (exists p, In p timeoutPatterns /\
             includes (toLowerCase "connection closed: domain not found") p = true) /\
  endsWith "example.app" ".app" = true /\
  fst (WhoisService.checkDomain
         (whoisRejecting "connection closed: domain not found" 120)
         "example.app" (initialWorld 86400000 2000 1000)) =
  Returned (whoisFreshResult "example.app" true 1000 1120).
Proof.
  split; [|split].
  - exists "connection". split; [simpl; tauto | reflexivity].
  - reflexivity.
  - vm_compute. reflexivity.
Qed.

Lemma C5_transient_failure_is_error_witness :
  (exists r w',
      WhoisService.checkDomain (whoisRejecting "connect ETIMEDOUT 192.0.2.1:43" 15000)
        "example.dev" (initialWorld 86400000 2000 1000) = (Returned r, w') /\
      Result.status r = Error /\
      Result.available r = None /\
      Result.error r = Some (WhoisService.manualVerificationMessage ".dev")) /\
  (exists r w',
      WhoisService.checkDomain (whoisRejecting "connect ETIMEDOUT 192.0.2.1:43" 10000)
        "example.com" (initialWorld 86400000 2000 1000) = (Returned r, w') /\
      Result.status r = Error /\
      Result.available r = None /\
      Result.error r = Some "connect ETIMEDOUT 192.0.2.1:43").
Proof.
  split.
  - destruct (C5_transient_failure_is_error
                (whoisRejecting "connect ETIMEDOUT 192.0.2.1:43" 15000)
                "example.dev" "connect ETIMEDOUT 192.0.2.1:43"
                (initialWorld 86400000 2000 1000))
      as (r & w' & Hrun & Hstatus & Havail & Hman & _).
    + reflexivity.
    + reflexivity.
    + reflexivity.
    + exists "etimedout". split; [simpl; tauto | reflexivity].
    + intros p Hin. simpl in Hin.
      repeat (destruct Hin as [<-|Hin]; [reflexivity|]). destruct Hin.
    + exists r, w'. repeat split; try assumption.
      apply Hman; [simpl; tauto | reflexivity].
  - destruct (C5_transient_failure_is_error
                (whoisRejecting "connect ETIMEDOUT 192.0.2.1:43" 10000)
                "example.com" "connect ETIMEDOUT 192.0.2.1:43"
                (initialWorld 86400000 2000 1000))
      as (r & w' & Hrun & Hstatus & Havail & _ & Hplain & _).
    + reflexivity.
    + reflexivity.
    + reflexivity.
    + exists "etimedout". split; [simpl; tauto | reflexivity].
    + intros p Hin. simpl in Hin.
      repeat (destruct Hin as [<-|Hin]; [reflexivity|]). destruct Hin.
    + exists r, w'. repeat split; try assumption.
      apply Hplain. intros tld Hin. simpl in Hin.
      repeat (destruct Hin as [<-|Hin]; [reflexivity|]). destruct Hin.
Defined.

(** ** The cache around one resolution *)

Lemma get_absent (key : string) (t : Z) (c c' : CacheService.t) :
  CacheService.get key t c = (None, c') ->
  CacheService.cache c' !! key = None /\
  (forall k, k <> key -> CacheService.cache c' !! k = CacheService.cache c !! k) /\
  CacheService.ttl c' = CacheService.ttl c /\
  (CacheService.cache c !! key = None -> c' = c).
Proof.
  unfold CacheService.get.
  destruct (CacheService.cache c !! key) as [item|] eqn:Hk.
  - destruct (t >? CacheService.expiry item)%Z; [|discriminate].
    intros [= <-]. simpl. split; [apply lookup_delete_eq|].
    split; [|split; [reflexivity | discriminate]].
    intros k Hne. apply lookup_delete_ne. congruence.
  - intros [= <-]. auto.
Qed.

Lemma get_present (key : string) (t : Z) (c c' : CacheService.t) (v : Result.t) :
  CacheService.get key t c = (Some v, c') ->
  c' = c /\
  exists item, CacheService.cache c !! key = Some item /\
               CacheService.value item = v /\ (t <= CacheService.expiry item)%Z.
Proof.
  unfold CacheService.get.
  destruct (CacheService.cache c !! key) as [item|] eqn:Hk; [|discriminate].
  destruct (Z.gtb_spec t (CacheService.expiry item)); [discriminate|].
  intros [= <- <-]. split; [reflexivity|]. exists item. repeat split. lia.
Qed.

Lemma get_of_absent (key : string) (t : Z) (c : CacheService.t) :
  CacheService.cache c !! key = None -> CacheService.get key t c = (None, c).
Proof. intros H. unfold CacheService.get. rewrite H. reflexivity. Qed.

Section Resolution.
Import WhoisService.

Variable whois : string -> WhoisConfig -> Z -> WhoisReply.

(** Behind a busy scheduler the call stays pending. *)
Lemma checkDomain_busy (domain : string) (w : World) (c : CacheService.t) :
  CacheService.get (trim (toLowerCase domain)) (now w) (cacheService w) = (None, c) ->
  RateLimiter.idle (rateLimiter w) = false ->
  fst (checkDomain whois domain w) = Pending.
Proof.
  intros Hget Hbusy. unfold checkDomain. rewrite Hget. unfold submitLookup.
  change (rateLimiter (withCache c w)) with (rateLimiter w). rewrite Hbusy.
  destruct (RateLimiter.add _ _). reflexivity.
Qed.

Lemma checkDomain_never_throws (domain : string) (w : World) (message : string) :
  fst (checkDomain whois domain w) <> Threw message.
Proof.
  destruct (CacheService.get (trim (toLowerCase domain)) (now w) (cacheService w))
    as [[cached|] c] eqn:Hget.
  - unfold checkDomain. rewrite Hget. discriminate.
  - destruct (RateLimiter.idle (rateLimiter w)) eqn:Hidle.
    + rewrite (checkDomain_miss whois domain w c Hget Hidle).
      destruct (fst (performWhoisLookup _ _ _)); discriminate.
    + rewrite (checkDomain_busy domain w c Hget Hidle). discriminate.
Qed.

(** On a free scheduler a resolution returns. *)
Lemma checkDomain_returns (domain : string) (w : World) :
  RateLimiter.idle (rateLimiter w) = true ->
  exists r w', checkDomain whois domain w = (Returned r, w').
Proof.
  intros Hidle.
  destruct (CacheService.get (trim (toLowerCase domain)) (now w) (cacheService w))
    as [[cached|] c] eqn:Hget.
  - unfold checkDomain. rewrite Hget. eauto.
  - rewrite (checkDomain_miss whois domain w c Hget Hidle).
    destruct (fst (performWhoisLookup _ _ _)); eauto.
Qed.

(** Whatever a returned resolution leaves in the cache under its key
    carries the status and availability it returned; an entry written
    by a fresh resolution expires one TTL after the check. *)
Lemma checkDomain_entry_agrees (domain : string) (w w' : World) (r : Result.t)
      (item : CacheService.CacheEntry) :
  checkDomain whois domain w = (Returned r, w') ->
  CacheService.cache (cacheService w') !! trim (toLowerCase domain) = Some item ->
  Result.status (CacheService.value item) = Result.status r /\
  Result.available (CacheService.value item) = Result.available r /\
  (Result.fromCache r = false ->
   CacheService.expiry item =
   (Result.checkedAt r + CacheService.ttl (cacheService w))%Z).
Proof.
  intros Hrun Hitem.
  destruct (CacheService.get (trim (toLowerCase domain)) (now w) (cacheService w))
    as [[cached|] c] eqn:Hget.
  - unfold checkDomain in Hrun. rewrite Hget in Hrun.
    apply get_present in Hget. destruct Hget as (-> & item0 & Hk & <- & _).
    injection Hrun as <- <-. simpl in Hitem.
    rewrite Hk in Hitem. injection Hitem as ->.
    repeat split. discriminate.
  - destruct (RateLimiter.idle (rateLimiter w)) eqn:Hidle.
    + rewrite (checkDomain_miss whois domain w c Hget Hidle) in Hrun.
      apply get_absent in Hget. destruct Hget as (Hgone & _ & Httl & _).
      destruct (fst (performWhoisLookup _ _ _)) as [result|message].
      * injection Hrun as <- <-. simpl in Hitem.
        rewrite lookup_insert_eq in Hitem. injection Hitem as <-.
        simpl. rewrite Httl. auto.
      * injection Hrun as <- <-. simpl in Hitem. congruence.
    + pose proof (checkDomain_busy domain w c Hget Hidle) as Hp.
      rewrite Hrun in Hp. discriminate.
Qed.

(** C4 (amended): [checkDomain] never throws, and on a free scheduler
    it returns a result.  When the lookup task throws, the result has
    status = error, available = null, the message of the failure and
    the elapsed time, and it is not written to the cache: the cache is
    the one the initial read left (which evicts an expired entry of the
    domain; with no entry for the domain the cache state is unchanged),
    every other key is as before, and a later call for the same domain
    is a miss again. *)
Theorem C4_failures_become_error_results (domain : string) (w : World) :
  (forall message, fst (checkDomain whois domain w) <> Threw message) /\
  (RateLimiter.idle (rateLimiter w) = true ->
   (exists r w', checkDomain whois domain w = (Returned r, w')) /\
   forall message,
     fst (CacheService.get (trim (toLowerCase domain)) (now w) (cacheService w)) = None ->
     fst (performWhoisLookup whois (trim (toLowerCase domain)) w) = inr message ->
     exists w',
       checkDomain whois domain w =
         (Returned (whoisErrorResult (trim (toLowerCase domain)) message
                      (now w) (now w')), w') /\
       cacheService w' =
         snd (CacheService.get (trim (toLowerCase domain)) (now w) (cacheService w)) /\
       (forall k, k <> trim (toLowerCase domain) ->
                  CacheService.cache (cacheService w') !! k =
                  CacheService.cache (cacheService w) !! k) /\
       (CacheService.cache (cacheService w) !! trim (toLowerCase domain) = None ->
        cacheService w' = cacheService w) /\
       (forall t, fst (CacheService.get (trim (toLowerCase domain)) t
                         (cacheService w')) = None)).
Proof.
  split; [apply checkDomain_never_throws|].
  intros Hidle.
  destruct (CacheService.get (trim (toLowerCase domain)) (now w) (cacheService w))
    as [[cached|] c] eqn:Hget.
  - split; [apply checkDomain_returns; exact Hidle|].
    intros message Hmiss. discriminate.
  - pose proof (checkDomain_miss whois domain w c Hget Hidle) as Hrun.
    simpl in Hrun. split; [apply checkDomain_returns; exact Hidle|].
    + intros message _ Hthrow. rewrite Hthrow in Hrun.
      match type of Hrun with _ = (_, ?W) => exists W end.
      split; [exact Hrun|]. simpl.
      apply get_absent in Hget. destruct Hget as (Hgone & Hother & _ & Hsame).
      split; [reflexivity|]. split; [exact Hother|]. split; [exact Hsame|].
      intros t. rewrite (get_of_absent _ t c Hgone). reflexivity.
Qed.

(** C8: with a live entry for the normalized domain, [checkDomain]
    returns the cached capture with fromCache = true and every other
    field as cached, and leaves the world as it was -- no transport
    call, no task for the scheduler.  When that entry is what an
    earlier call for the domain left, the status and availability are
    those of that call; the entry of a fresh resolution lives for one
    TTL from its check. *)
Theorem C8_live_entry_is_returned (domain : string) (w : World)
        (item : CacheService.CacheEntry) :
  CacheService.cache (cacheService w) !! trim (toLowerCase domain) = Some item ->
  (now w <= CacheService.expiry item)%Z ->
  exists r,
    checkDomain whois domain w = (Returned r, w) /\
    Result.fromCache r = true /\
    Result.domain r = Result.domain (CacheService.value item) /\
    Result.available r = Result.available (CacheService.value item) /\
    Result.status r = Result.status (CacheService.value item) /\
    Result.responseTime r = Result.responseTime (CacheService.value item) /\
    Result.checkedAt r = Result.checkedAt (CacheService.value item) /\
    Result.error r = Result.error (CacheService.value item) /\
    Result.provider r = Result.provider (CacheService.value item) /\
    Result.pricing r = Result.pricing (CacheService.value item) /\
    forall w0 r1 w1,
      checkDomain whois domain w0 = (Returned r1, w1) ->
      w = atTime (now w) w1 ->
      Result.status r = Result.status r1 /\
      Result.available r = Result.available r1 /\
      (Result.fromCache r1 = false ->
       CacheService.expiry item =
       (Result.checkedAt r1 + CacheService.ttl (cacheService w0))%Z).
Proof.
  intros Hitem Hlive.
  exists (Result.withFromCache (CacheService.value item) true).
  split; [apply checkDomain_hit; assumption|].
  repeat (split; [reflexivity|]).
  intros w0 r1 w1 Hfirst Hw. rewrite Hw in Hitem. simpl in Hitem.
  apply (checkDomain_entry_agrees domain w0 w1 r1 item Hfirst Hitem).
Qed.

(** C10 (amended): [checkDomain] makes no test of the domain syntax.
    For a domain that [isValidDomainName] refuses and that has no live
    cache entry, on a free scheduler, one task is submitted and one
    transport call is made, as for any other domain, and the result is
    an error exactly when that lookup throws. *)
Theorem C10_invalid_domain_is_looked_up (domain : string) (w : World) :
  FileParser.isValidDomainName domain = false ->
  fst (CacheService.get (trim (toLowerCase domain)) (now w) (cacheService w)) = None ->
  RateLimiter.idle (rateLimiter w) = true ->
  exists r w',
    checkDomain whois domain w = (Returned r, w') /\
    trace w' =
      trace w ++
      [Submitted (trim (toLowerCase domain));
       WhoisCall (trim (toLowerCase domain))
         (whoisConfigOf (extensionOf (trim (toLowerCase domain))))] /\
    (Result.status r = Error <->
     exists message,
       fst (performWhoisLookup whois (trim (toLowerCase domain)) w) = inr message).
Proof.
  intros _ Hmiss Hidle.
  destruct (CacheService.get (trim (toLowerCase domain)) (now w) (cacheService w))
    as [o c] eqn:Hget.
  simpl in Hmiss. subst o.
  rewrite (checkDomain_miss whois domain w c Hget Hidle).
  destruct (fst (performWhoisLookup _ _ _)) as [result|message].
  - eexists _, _. split; [reflexivity|]. split; [reflexivity|]. simpl. split.
    + destruct (lookup_available result); discriminate.
    + intros [message H]. discriminate.
  - eexists _, _. split; [reflexivity|]. split; [reflexivity|]. simpl.
    split; eauto.
Qed.

End Resolution.

(** C4, as stated, fails on the cache: a failed resolution started over
    an expired entry leaves a cache without that entry. *)
Lemma C4_error_after_expired_entry_changes_cache :
  fst (WhoisService.checkDomain (whoisRejecting "read ECONNRESET" 300)
         "example.com" staleWorld) =
    Returned (whoisErrorResult "example.com" "read ECONNRESET" 5000 5300) /\
  CacheService.cache (cacheService staleWorld) !! "example.com" =
    Some {| CacheService.value := whoisFreshResult "example.com" false 0 10;
            CacheService.expiry := 1010;
            CacheService.createdAt := 10 |} /\
  CacheService.cache
    (cacheService
       (snd (WhoisService.checkDomain (whoisRejecting "read ECONNRESET" 300)
               "example.com" staleWorld))) !! "example.com" = None /\
  cacheService
    (snd (WhoisService.checkDomain (whoisRejecting "read ECONNRESET" 300)
            "example.com" staleWorld)) <> cacheService staleWorld.
Proof.
  split; [vm_compute; reflexivity|].
  split; [vm_compute; reflexivity|].
  split; [vm_compute; reflexivity|].
  intros H.
  apply (f_equal (fun c => CacheService.cache c !! "example.com")) in H.
  vm_compute in H. discriminate.
Qed.

Lemma C4_failures_become_error_results_witness :
  exists w',
    WhoisService.checkDomain (whoisRejecting "read ECONNRESET" 300)
      "Example.com" (initialWorld 86400000 2000 1000) =
    (Returned (whoisErrorResult "example.com" "read ECONNRESET" 1000 (now w')), w') /\
    cacheService w' = cacheService (initialWorld 86400000 2000 1000).
Proof.
  destruct (proj2 (proj2 (C4_failures_become_error_results
                            (whoisRejecting "read ECONNRESET" 300)
                            "Example.com" (initialWorld 86400000 2000 1000))
                     eq_refl)
              "read ECONNRESET" eq_refl eq_refl)
    as (w' & Hrun & _ & _ & Hsame & _).
  exists w'. split; [exact Hrun|]. apply Hsame. reflexivity.
Defined.

Lemma C8_live_entry_is_returned_witness :
  exists r,
    WhoisService.checkDomain (whoisResolving registeredScenario 250)
      " EXAMPLE.COM" oneMinuteLater = (Returned r, oneMinuteLater) /\
    Result.fromCache r = true /\
    Result.status r = Registered /\
    Result.available r = Some false.
Proof.
  destruct (C8_live_entry_is_returned
              (whoisResolving registeredScenario 250) " EXAMPLE.COM" oneMinuteLater
              {| CacheService.value := whoisFreshResult "example.com" false 1000 1250;
                 CacheService.expiry := 86401250;
                 CacheService.createdAt := 1250 |})
    as (r & Hrun & Hfrom & _ & Havail & Hstatus & _).
  - vm_compute. reflexivity.
  - vm_compute. discriminate.
  - exists r. repeat split; assumption.
Defined.

(** C10, as stated, fails: a name that [isValidDomainName] refuses goes
    through the scheduler to the transport, and comes back available
    when the registry says it has no match. *)
Lemma C10_invalid_name_reaches_transport :
  FileParser.isValidDomainName "-bad-.com" = false /\
  WhoisService.checkDomain (whoisRejecting "No match for domain" 80)
    "-bad-.com" (initialWorld 86400000 2000 1000) =
  (Returned (whoisFreshResult "-bad-.com" true 1000 1080),
   {| cacheService :=
        CacheService.set "-bad-.com"
          (whoisFreshResult "-bad-.com" true 1000 1080) None 1080
          (CacheService.create 86400000);
      rateLimiter := RateLimiter.create 2000;
      now := 1080;
      trace := [Submitted "-bad-.com";
                WhoisCall "-bad-.com" {| timeout := 10000; follow := 3 |}] |}).
Proof. split; vm_compute; reflexivity. Qed.

Lemma C10_invalid_domain_is_looked_up_witness :
  exists r w',
    WhoisService.checkDomain (whoisRejecting "No match for domain" 80)
      "-bad-.com" (initialWorld 86400000 2000 1000) = (Returned r, w') /\
    trace w' = [Submitted "-bad-.com";
                WhoisCall "-bad-.com" {| timeout := 10000; follow := 3 |}].
Proof.
  destruct (C10_invalid_domain_is_looked_up
              (whoisRejecting "No match for domain" 80)
              "-bad-.com" (initialWorld 86400000 2000 1000))
    as (r & w' & Hrun & Htrace & _).
  - reflexivity.
  - reflexivity.
  - reflexivity.
  - exists r, w'. split; [exact Hrun | exact Htrace].
Defined.

(** ** The consistency invariant *)

Lemma consistent_withFromCache (r : Result.t) (b : bool) :
  Result.consistent r -> Result.consistent (Result.withFromCache r b).
Proof. intros H. exact H. Qed.

Lemma consistent_fresh (nd : string) (a : bool) (t0 t : Z) :
  Result.consistent (whoisFreshResult nd a t0 t).
Proof.
  unfold Result.consistent. simpl.
  destruct a; repeat split; intros; congruence.
Qed.

Lemma consistent_error (nd message : string) (t0 t : Z) :
  Result.consistent (whoisErrorResult nd message t0 t).
Proof. unfold Result.consistent. simpl. repeat split; intros; congruence. Qed.

Lemma cacheConsistent_set (key : string) (r : Result.t) (customTTL : option Z)
      (t : Z) (c : CacheService.t) :
  Result.consistent r -> cacheConsistent c ->
  cacheConsistent (CacheService.set key r customTTL t c).
Proof.
  intros Hr Hc k item. unfold CacheService.set. simpl.
  destruct (decide (key = k)) as [->|Hne].
  - rewrite lookup_insert_eq. intros [= <-]. exact Hr.
  - rewrite lookup_insert_ne by assumption. apply Hc.
Qed.

Lemma cacheConsistent_get (key : string) (t : Z) (c c' : CacheService.t)
      (o : option Result.t) :
  cacheConsistent c -> CacheService.get key t c = (o, c') ->
  cacheConsistent c' /\ (forall v, o = Some v -> Result.consistent v).
Proof.
  intros Hc Hget. destruct o as [v|].
  - apply get_present in Hget. destruct Hget as (-> & item & Hk & <- & _).
    split; [exact Hc|]. intros v [= <-]. exact (Hc _ _ Hk).
  - apply get_absent in Hget. destruct Hget as (Hgone & Hother & _).
    split; [|discriminate]. intros k item Hk.
    destruct (decide (k = key)) as [->|Hne]; [congruence|].
    rewrite (Hother k Hne) in Hk. exact (Hc _ _ Hk).
Qed.

Section Consistency.

Variable whois : string -> WhoisConfig -> Z -> WhoisReply.
Variable axios_get : string -> Z -> ApiReply.

Lemma whois_checkDomain_consistent (domain : string) (w w' : World)
      (r : Result.t) :
  cacheConsistent (cacheService w) ->
  WhoisService.checkDomain whois domain w = (Returned r, w') ->
  Result.consistent r /\ cacheConsistent (cacheService w').
Proof.
  intros Hc Hrun.
  destruct (CacheService.get (trim (toLowerCase domain)) (now w) (cacheService w))
    as [[cached|] c] eqn:Hget.
  - unfold WhoisService.checkDomain in Hrun. rewrite Hget in Hrun.
    destruct (cacheConsistent_get _ _ _ _ _ Hc Hget) as [Hc' Hv].
    injection Hrun as <- <-. split; [|exact Hc'].
    apply consistent_withFromCache. apply Hv. reflexivity.
  - destruct (cacheConsistent_get _ _ _ _ _ Hc Hget) as [Hc' _].
    destruct (RateLimiter.idle (rateLimiter w)) eqn:Hidle.
    + rewrite (checkDomain_miss whois domain w c Hget Hidle) in Hrun.
      destruct (fst (WhoisService.performWhoisLookup _ _ _)) as [result|message];
        injection Hrun as <- <-; simpl.
      * split; [apply consistent_fresh|].
        apply cacheConsistent_set; [apply consistent_fresh | exact Hc'].
      * split; [apply consistent_error | exact Hc'].
    + pose proof (checkDomain_busy whois domain w c Hget Hidle) as Hp.
      rewrite Hrun in Hp. discriminate.
Qed.

Lemma godaddy_checkDomain_consistent (domain : string) (w : World) :
  cacheConsistent (cacheService w) ->
  Result.consistent (fst (GoDaddyService.checkDomain axios_get domain w)) /\
  cacheConsistent (cacheService (snd (GoDaddyService.checkDomain axios_get domain w))).
Proof.
  intros Hc. unfold GoDaddyService.checkDomain.
  destruct (CacheService.get (trim (toLowerCase domain)) (now w) (cacheService w))
    as [[cached|] c] eqn:Hget;
    destruct (cacheConsistent_get _ _ _ _ _ Hc Hget) as [Hc' Hv].
  - simpl. split; [|exact Hc'].
    apply consistent_withFromCache. apply Hv. reflexivity.
  - assert (Herr : forall nd m rt w0,
               Result.consistent (GoDaddyService.errorResult nd m rt w0)).
    { intros. unfold Result.consistent. simpl. repeat split; intros; congruence. }
    destruct (api_outcome _) as [data|error].
    + simpl. split.
      * unfold Result.consistent. simpl.
        destruct (api_available data); repeat split; intros; congruence.
      * apply cacheConsistent_set; [|exact Hc'].
        unfold Result.consistent. simpl.
        destruct (api_available data); repeat split; intros; congruence.
    + destruct (response_status error) as [status|]; [|simpl; auto].
      repeat (match goal with
              | |- context [if ?b then _ else _] => destruct b
              end; [simpl; auto|]).
      simpl. auto.
Qed.

Lemma batchLoop_consistent (rest : list string) (i total : nat)
      (onProgress : bool) (acc rs : list Result.t) (w w' : World) :
  cacheConsistent (cacheService w) ->
  Forall Result.consistent acc ->
  WhoisService.batchLoop whois rest i total onProgress acc w = (Returned rs, w') ->
  Forall Result.consistent rs /\ cacheConsistent (cacheService w').
Proof.
  revert i acc w. induction rest as [|domain rest IH]; intros i acc w Hc Hacc Hrun.
  - simpl in Hrun. injection Hrun as <- <-. auto.
  - simpl in Hrun.
    destruct (WhoisService.checkDomain whois domain w) as [[r| |] w1] eqn:Hone;
      try discriminate.
    destruct (whois_checkDomain_consistent _ _ _ _ Hc Hone) as [Hr Hc1].
    apply IH in Hrun; [exact Hrun | | ].
    + destruct onProgress; exact Hc1.
    + apply Forall_app. split; [exact Hacc|]. constructor; [exact Hr | constructor].
Qed.

Lemma reachable_cacheConsistent (w : World) :
  reachable whois axios_get w -> cacheConsistent (cacheService w).
Proof.
  induction 1 as [ttl delayMs t0 | w domain r w' _ IH Hrun
                  | w domains cb rs w' _ IH Hrun | w domain _ IH
                  | w _ IH | w key _ IH | w _ IH | w delayMs _ IH | w t _ IH].
  - intros key item H. simpl in H. rewrite lookup_empty in H. discriminate.
  - exact (proj2 (whois_checkDomain_consistent _ _ _ _ IH Hrun)).
  - unfold WhoisService.checkMultipleDomains in Hrun.
    exact (proj2 (batchLoop_consistent _ _ _ _ _ _ _ _ IH ltac:(constructor) Hrun)).
  - exact (proj2 (godaddy_checkDomain_consistent domain w IH)).
  - intros key item H. simpl in H. rewrite lookup_empty in H. discriminate.
  - intros k item H. simpl in H.
    apply lookup_delete_Some in H. destruct H as [_ H]. exact (IH _ _ H).
  - intros k item H. simpl in H.
    apply map_lookup_filter_Some in H. destruct H as [H _]. exact (IH _ _ H).
  - exact IH.
  - exact IH.
Qed.

(** C9: in every world the program can reach, whatever result a
    resolution produces -- by the WHOIS service or the registrar API,
    for one domain or in a batch, fresh, failed or from the cache --
    has status = available exactly when available = true, status =
    registered exactly when available = false, and status = error
    whenever available = null. *)
Theorem C9_results_are_consistent (w : World) :
  reachable whois axios_get w ->
  forall domain,
    (forall r w', WhoisService.checkDomain whois domain w = (Returned r, w') ->
                  Result.consistent r) /\
    Result.consistent (fst (GoDaddyService.checkDomain axios_get domain w)) /\
    (forall domains onProgress rs w',
        WhoisService.checkMultipleDomains whois domains onProgress w = (Returned rs, w') ->
        Forall Result.consistent rs).
Proof.
  intros Hreach domain.
  pose proof (reachable_cacheConsistent w Hreach) as Hc.
  split; [|split].
  - intros r w' Hrun. exact (proj1 (whois_checkDomain_consistent _ _ _ _ Hc Hrun)).
  - exact (proj1 (godaddy_checkDomain_consistent domain w Hc)).
  - intros domains cb rs w' Hrun.
    unfold WhoisService.checkMultipleDomains in Hrun.
    exact (proj1 (batchLoop_consistent _ _ _ _ _ _ _ _ Hc ltac:(constructor) Hrun)).
Qed.

End Consistency.

Lemma C9_results_are_consistent_witness :
  Result.consistent
    (fst (GoDaddyService.checkDomain
            (apiAnswering {| api_available := true; api_price := Some 11990000%Z;
                             api_currency := Some "USD"; api_period := Some 1%Z |} 90)
            "example.com" oneMinuteLater)) /\
  Result.consistent
    (fst (GoDaddyService.checkDomain
            (apiAnswering {| api_available := true; api_price := Some 11990000%Z;
                             api_currency := Some "USD"; api_period := Some 1%Z |} 90)
            "other.dev" oneMinuteLater)).
Proof.
  assert (Hreach :
            reachable (whoisResolving registeredScenario 250)
              (apiAnswering {| api_available := true; api_price := Some 11990000%Z;
                               api_currency := Some "USD"; api_period := Some 1%Z |} 90)
              oneMinuteLater).
  { apply reach_time.
    apply (reach_whois _ _ (initialWorld 86400000 2000 1000) "Example.com"
             (whoisFreshResult "example.com" false 1000 1250)).
    - apply reach_start.
    - rewrite (surjective_pairing (WhoisService.checkDomain _ _ _)) at 1.
      f_equal. }
  split.
  - exact (proj1 (proj2 (C9_results_are_consistent _ _ _ Hreach "example.com"))).
  - exact (proj1 (proj2 (C9_results_are_consistent _ _ _ Hreach "other.dev"))).
Defined.

(** ** Batches *)

Lemma progressOf_app (t1 t2 : list Effect) :
  progressOf (t1 ++ t2) = progressOf t1 ++ progressOf t2.
Proof. unfold progressOf. apply flat_map_app. Qed.

Section Batch.

Variable whois : string -> WhoisConfig -> Z -> WhoisReply.

(** One resolution reports nothing by itself and hands the scheduler
    back as free as it found it. *)
Lemma checkDomain_frame (domain : string) (w w' : World) (r : Result.t) :
  WhoisService.checkDomain whois domain w = (Returned r, w') ->
  progressOf (trace w') = progressOf (trace w) /\
  (RateLimiter.idle (rateLimiter w) = true ->
   RateLimiter.idle (rateLimiter w') = true).
Proof.
  intros Hrun.
  destruct (CacheService.get (trim (toLowerCase domain)) (now w) (cacheService w))
    as [[cached|] c] eqn:Hget.
  - unfold WhoisService.checkDomain in Hrun. rewrite Hget in Hrun.
    injection Hrun as <- <-. simpl. auto.
  - destruct (RateLimiter.idle (rateLimiter w)) eqn:Hidle.
    + rewrite (checkDomain_miss whois domain w c Hget Hidle) in Hrun.
      destruct (fst (WhoisService.performWhoisLookup _ _ _));
        injection Hrun as <- <-; simpl; rewrite progressOf_app; simpl;
        rewrite app_nil_r; auto.
    + pose proof (checkDomain_busy whois domain w c Hget Hidle) as Hp.
      rewrite Hrun in Hp. discriminate.
Qed.

Lemma batchLoop_in_order (rest : list string) (i total : nat)
      (onProgress : bool) (acc : list Result.t) (w : World) :
  RateLimiter.idle (rateLimiter w) = true ->
  exists rs w',
    WhoisService.batchLoop whois rest i total onProgress acc w =
      (Returned (acc ++ rs), w') /\
    resolvedInOrder whois total onProgress i rest w rs w'.
Proof.
  revert i acc w. induction rest as [|domain rest IH]; intros i acc w Hidle.
  - exists [], w. simpl. rewrite app_nil_r. split; [reflexivity | constructor].
  - destruct (checkDomain_returns whois domain w Hidle) as (r & w1 & Hone).
    destruct (checkDomain_frame domain w w1 r Hone) as [_ Hidle1].
    specialize (Hidle1 Hidle).
    destruct (IH (i + 1)%nat (acc ++ [r])
                (notify onProgress
                   {| current := i + 1; total := total;
                      progress_domain := domain; progress_result := r |} w1))
      as (rs & w' & Hloop & Hspec).
    { destruct onProgress; exact Hidle1. }
    exists (r :: rs), w'. split.
    + simpl. rewrite Hone. unfold notify in Hloop.
      rewrite Hloop. rewrite <- app_assoc. reflexivity.
    + econstructor; eassumption.
Qed.

Lemma resolvedInOrder_reports (total : nat) (onProgress : bool) (i : nat)
      (domains : list string) (w : World) (rs : list Result.t) (w' : World) :
  resolvedInOrder whois total onProgress i domains w rs w' ->
  length rs = length domains /\
  progressOf (trace w') =
  progressOf (trace w) ++
  (if onProgress then progressReports total i domains rs else []).
Proof.
  induction 1 as [i w | i domain rest w r w1 rs w' Hone _ [IHlen IHrep]].
  - split; [reflexivity|]. destruct onProgress; simpl; rewrite app_nil_r; reflexivity.
  - split; [simpl; congruence|].
    destruct (checkDomain_frame domain w w1 r Hone) as [Hsame _].
    rewrite IHrep. destruct onProgress; simpl.
    + rewrite progressOf_app, Hsame. simpl. rewrite <- app_assoc. reflexivity.
    + rewrite Hsame. reflexivity.
Qed.

(** C7: on a free scheduler [checkMultipleDomains] returns a list of
    results, one per domain and in the order of the input; the domains
    are resolved strictly one after another in that order; with a
    callback, it is called exactly once after each resolution, with
    the 1-based index, the total, the domain and its result, and not
    otherwise; for the empty list the result is the empty list, the
    world is untouched and the callback is never called. *)
Theorem C7_batch_resolves_in_order (domains : list string) (onProgress : bool)
        (w : World) :
  RateLimiter.idle (rateLimiter w) = true ->
  exists results w',
    WhoisService.checkMultipleDomains whois domains onProgress w =
      (Returned results, w') /\
    resolvedInOrder whois (length domains) onProgress 0 domains w results w' /\
    length results = length domains /\
    progressOf (trace w') =
      progressOf (trace w) ++
      (if onProgress
       then progressReports (length domains) 0 domains results else []) /\
    (domains = [] -> results = [] /\ w' = w).
Proof.
  intros Hidle.
  destruct (batchLoop_in_order domains 0 (length domains) onProgress [] w Hidle)
    as (rs & w' & Hloop & Hspec).
  exists rs, w'. split; [exact Hloop|]. split; [exact Hspec|].
  destruct (resolvedInOrder_reports _ _ _ _ _ _ _ Hspec) as [Hlen Hrep].
  split; [exact Hlen|]. split; [exact Hrep|].
  intros ->. inversion Hspec. auto.
Qed.

End Batch.

Lemma C7_batch_resolves_in_order_witness :
  exists results w',
    WhoisService.checkMultipleDomains whoisByName batchExample true
      (initialWorld 86400000 2000 1000) = (Returned results, w') /\
    length results = 3%nat /\
    progressOf (trace w') = progressReports 3 0 batchExample results.
Proof.
  destruct (C7_batch_resolves_in_order whoisByName batchExample true
              (initialWorld 86400000 2000 1000) eq_refl)
    as (results & w' & Hrun & _ & Hlen & Hrep & _).
  exists results, w'. split; [exact Hrun|]. split; [exact Hlen | exact Hrep].
Defined.

(** ** The scheduler *)

Module SchedulerFacts.
Section Facts.
Import RateLimiter.

Context {Task R E : Type}.

Local Abbreviation Limiter := (RateLimiter.t Task).
Local Abbreviation Observation := (RateLimiter.Obs Task R E).
Local Abbreviation Occurrence := (RateLimiter.Event Task R E).

Lemma started_app (o1 o2 : list Observation) :
  started (o1 ++ o2) = started o1 ++ started o2.
Proof. apply flat_map_app. Qed.

Lemma settlements_app (o1 o2 : list Observation) :
  settlements (o1 ++ o2) = settlements o1 ++ settlements o2.
Proof. apply flat_map_app. Qed.

Lemma submitted_cons (ev : Occurrence) (evs : list Occurrence) :
  submitted (ev :: evs) = submitted [ev] ++ submitted evs.
Proof. unfold submitted. simpl. rewrite app_nil_r. reflexivity. Qed.

Lemma outcomes_cons (ev : Occurrence) (evs : list Occurrence) :
  outcomes (ev :: evs) = outcomes [ev] ++ outcomes evs.
Proof. unfold outcomes. simpl. rewrite app_nil_r. reflexivity. Qed.

Lemma settle_not_started (task task' : Task) (o : R + E) :
  settle task o <> Started (R := R) (E := E) task'.
Proof. destruct o; discriminate. Qed.

Lemma settle_not_sleeping (task : Task) (o : R + E) (ms : Z) :
  settle task o <> Sleeping (Task := Task) ms.
Proof. destruct o; discriminate. Qed.

(** What one event does: it keeps the state coherent, extends a shaped
    trace into a shaped trace, moves tasks from the queue to the started
    ones, and gives the running task the outcome that arrived. *)
Lemma step_law (l l' : Limiter) (ev : Occurrence) (obs' : list Observation) :
  coherent l ->
  step l ev = Some (l', obs') ->
  coherent l' /\
  (forall obs, shaped obs (awaiting l) -> shaped (obs ++ obs') (awaiting l')) /\
  started obs' ++ queue l' = queue l ++ submitted [ev] /\
  map fst (settlements obs') ++ running l' = running l ++ started obs' /\
  map snd (settlements obs') = outcomes [ev] /\
  delay l' = delay l.
Proof.
  destruct l as [d q p a]. unfold coherent. simpl. intros Hco Hstep.
  destruct ev as [task|o|]; simpl in Hstep.
  - unfold add, processQueue in Hstep. simpl in Hstep.
    destruct p; simpl in Hstep.
    + injection Hstep as <- <-. simpl. unfold running. simpl.
      rewrite !app_nil_r.
      destruct a as [|running_task|]; try (destruct Hco; discriminate).
      * repeat split; auto. intros obs Hs. rewrite app_nil_r. exact Hs.
      * destruct Hco as [_ Hq]. repeat split; auto.
        -- destruct q; discriminate.
        -- intros obs Hs. rewrite app_nil_r. exact Hs.
    + destruct a as [|running_task|]; try (destruct Hco; discriminate);
        try discriminate.
      destruct Hco as [_ ->]. simpl in Hstep.
      injection Hstep as <- <-. simpl.
      repeat split; auto. intros obs Hs. apply shaped_begin. exact Hs.
  - unfold settled in Hstep. simpl in Hstep.
    destruct a as [|running_task|]; try discriminate.
    destruct q as [|next q]; simpl in Hstep.
    + injection Hstep as <- <-. unfold running. simpl.
      repeat split; auto.
      * intros obs Hs. apply shaped_finish. exact Hs.
      * destruct o; reflexivity.
      * destruct o; reflexivity.
      * destruct o; reflexivity.
    + injection Hstep as <- <-. unfold running. simpl.
      repeat split; auto; try discriminate.
      * intros obs Hs. apply shaped_pause. exact Hs.
      * destruct o; simpl; rewrite app_nil_r; reflexivity.
      * destruct o; reflexivity.
      * destruct o; reflexivity.
  - unfold woke in Hstep. simpl in Hstep.
    destruct a as [|running_task|]; try discriminate.
    destruct Hco as [-> Hq]. destruct q as [|next q]; [congruence|].
    unfold loop in Hstep. simpl in Hstep. injection Hstep as <- <-.
    unfold running. simpl. rewrite app_nil_r.
    repeat split; auto. intros obs Hs. apply shaped_resume. exact Hs.
Qed.

Lemma run_law (evs : list Occurrence) (l l' : Limiter) (obs' : list Observation) :
  coherent l ->
  run l evs = Some (l', obs') ->
  coherent l' /\
  (forall obs, shaped obs (awaiting l) -> shaped (obs ++ obs') (awaiting l')) /\
  started obs' ++ queue l' = queue l ++ submitted evs /\
  map fst (settlements obs') ++ running l' = running l ++ started obs' /\
  map snd (settlements obs') = outcomes evs /\
  delay l' = delay l.
Proof.
  revert l obs'. induction evs as [|ev evs IH]; intros l obs' Hco Hrun.
  - simpl in Hrun. injection Hrun as <- <-. simpl. rewrite !app_nil_r.
    repeat split; auto. intros obs Hs. rewrite app_nil_r. exact Hs.
  - simpl in Hrun.
    destruct (step l ev) as [[l1 obs1]|] eqn:Hstep; [|discriminate].
    destruct (run l1 evs) as [[l2 obs2]|] eqn:Hrest; [|discriminate].
    injection Hrun as <- <-.
    destruct (step_law _ _ _ _ Hco Hstep) as (Hco1 & Hs1 & Hq1 & Hr1 & Ho1 & Hd1).
    destruct (IH _ _ Hco1 Hrest) as (Hco2 & Hs2 & Hq2 & Hr2 & Ho2 & Hd2).
    split; [exact Hco2|]. split; [|split; [|split; [|split]]].
    + intros obs Hs. rewrite app_assoc. apply Hs2, Hs1, Hs.
    + rewrite started_app, <- app_assoc, Hq2, app_assoc, Hq1, <- app_assoc.
      rewrite (submitted_cons ev evs). reflexivity.
    + rewrite settlements_app, map_app, <- app_assoc, Hr2, app_assoc, Hr1.
      rewrite started_app, <- app_assoc. reflexivity.
    + rewrite settlements_app, map_app, Ho1, Ho2.
      rewrite (outcomes_cons ev evs). reflexivity.
    + congruence.
Qed.

Lemma snoc_split {A : Type} (l pre post : list A) (x y : A) :
  l ++ [x] = pre ++ y :: post ->
  (post = [] /\ pre = l /\ y = x) \/
  (exists post0, post = post0 ++ [x] /\ l = pre ++ y :: post0).
Proof.
  intros H. destruct post as [|z post0 _] using rev_ind.
  - left. apply app_inj_tail in H. destruct H as [-> ->]. auto.
  - right. exists post0.
    change (pre ++ y :: post0 ++ [z]) with (pre ++ (y :: post0) ++ [z]) in H.
    rewrite app_assoc in H. apply app_inj_tail in H. destruct H as [-> ->]. auto.
Qed.

(** One at a time: in a shaped trace the observation after the start of
    a task is the settlement of that task. *)
Lemma shaped_after_start (obs : list Observation) (a : Await Task) :
  shaped obs a ->
  forall pre task post,
    obs = pre ++ Started task :: post ->
    (post = [] /\ a = OnTask task) \/
    (exists o post', post = settle task o :: post').
Proof.
  induction 1 as [ | obs task0 _ IH | obs task0 _ IH | obs task0 o0 _ IH
                   | obs task0 o0 ms0 _ IH ]; intros pre task post Heq.
  - destruct pre; discriminate.
  - apply snoc_split in Heq. destruct Heq as [(-> & -> & [= ->])|(post0 & -> & ->)].
    + left. auto.
    + destruct (IH _ _ _ eq_refl) as [[-> [=]]|(o & post' & ->)].
      right. exists o, (post' ++ [Started task0]). reflexivity.
  - apply snoc_split in Heq. destruct Heq as [(-> & -> & [= ->])|(post0 & -> & ->)].
    + left. auto.
    + destruct (IH _ _ _ eq_refl) as [[-> [=]]|(o & post' & ->)].
      right. exists o, (post' ++ [Started task0]). reflexivity.
  - apply snoc_split in Heq. destruct Heq as [(-> & -> & Hx)|(post0 & -> & ->)].
    + symmetry in Hx. apply settle_not_started in Hx. destruct Hx.
    + destruct (IH _ _ _ eq_refl) as [[-> [= ->]]|(o & post' & ->)].
      * right. exists o0, []. reflexivity.
      * right. exists o, (post' ++ [settle task0 o0]). reflexivity.
  - change (obs ++ [settle task0 o0; Sleeping ms0])
      with (obs ++ [settle task0 o0] ++ [Sleeping ms0]) in Heq.
    rewrite app_assoc in Heq.
    apply snoc_split in Heq. destruct Heq as [(-> & -> & [=])|(post0 & -> & Heq)].
    apply snoc_split in Heq. destruct Heq as [(-> & -> & Hx)|(post1 & -> & ->)].
    + symmetry in Hx. apply settle_not_started in Hx. destruct Hx.
    + destruct (IH _ _ _ eq_refl) as [[-> [= ->]]|(o & post' & ->)].
      * right. exists o0, [Sleeping ms0]. reflexivity.
      * right. exists o, (post' ++ [settle task0 o0; Sleeping ms0]).
        simpl. rewrite <- !app_assoc. reflexivity.
Qed.

(** The sleep stands between two tasks: right after a settlement, and
    right before a start, or last while the scheduler still sleeps. *)
Lemma shaped_around_sleep (obs : list Observation) (a : Await Task) :
  shaped obs a ->
  forall pre ms post,
    obs = pre ++ Sleeping ms :: post ->
    (exists pre' task o, pre = pre' ++ [settle task o]) /\
    ((post = [] /\ a = OnSleep) \/
     (exists task' post', post = Started task' :: post')).
Proof.
  induction 1 as [ | obs task0 Hs IH | obs task0 Hs IH | obs task0 o0 Hs IH
                   | obs task0 o0 ms0 Hs IH ]; intros pre ms post Heq.
  - destruct pre; discriminate.
  - apply snoc_split in Heq. destruct Heq as [(-> & -> & [=])|(post0 & -> & ->)].
    destruct (IH _ _ _ eq_refl) as [Hpre [[-> [=]]|(task' & post' & ->)]].
    split; [exact Hpre|]. right. exists task', (post' ++ [Started task0]). reflexivity.
  - apply snoc_split in Heq. destruct Heq as [(-> & -> & [=])|(post0 & -> & ->)].
    destruct (IH _ _ _ eq_refl) as [Hpre [[-> _]|(task' & post' & ->)]].
    + split; [exact Hpre|]. right. exists task0, []. reflexivity.
    + split; [exact Hpre|]. right. exists task', (post' ++ [Started task0]). reflexivity.
  - apply snoc_split in Heq. destruct Heq as [(-> & -> & Hx)|(post0 & -> & ->)].
    + symmetry in Hx. apply settle_not_sleeping in Hx. destruct Hx.
    + destruct (IH _ _ _ eq_refl) as [Hpre [[-> [=]]|(task' & post' & ->)]].
      split; [exact Hpre|]. right. exists task', (post' ++ [settle task0 o0]). reflexivity.
  - change (obs ++ [settle task0 o0; Sleeping ms0])
      with (obs ++ [settle task0 o0] ++ [Sleeping ms0]) in Heq.
    rewrite app_assoc in Heq.
    apply snoc_split in Heq. destruct Heq as [(-> & -> & [= ->])|(post0 & -> & Heq)].
    + split; [exists obs, task0, o0; reflexivity|]. left. auto.
    + apply snoc_split in Heq. destruct Heq as [(-> & -> & Hx)|(post1 & -> & ->)].
      * symmetry in Hx. apply settle_not_sleeping in Hx. destruct Hx.
      * destruct (IH _ _ _ eq_refl) as [Hpre [[-> [=]]|(task' & post' & ->)]].
        split; [exact Hpre|]. right.
        exists task', (post' ++ [settle task0 o0; Sleeping ms0]).
        simpl. rewrite <- !app_assoc. reflexivity.
Qed.

Lemma run_step (l l1 l2 : Limiter) (ev : Occurrence) (evs : list Occurrence)
      (obs1 obs2 : list Observation) :
  step l ev = Some (l1, obs1) ->
  run l1 evs = Some (l2, obs2) ->
  run l (ev :: evs) = Some (l2, obs1 ++ obs2).
Proof. intros H1 H2. simpl. rewrite H1, H2. reflexivity. Qed.

(** From a running task, the outcomes of that task and of the queued
    ones, each followed through its sleep, empty the queue: every queued
    task is started and settled with its own outcome, whatever the
    outcomes of the tasks before it. *)
Lemma drain_running (os : list (R + E)) (l : Limiter) (task : Task) (o : R + E) :
  awaiting l = OnTask task ->
  length os = length (queue l) ->
  exists l' obs',
    run l (Settle o :: rounds os) = Some (l', obs') /\
    awaiting l' = NotRunning /\ queue l' = [] /\
    settlements obs' = combine (task :: queue l) (o :: os) /\
    started obs' = queue l.
Proof.
  revert l task o. induction os as [|o1 os IH]; intros [d q p a] task o Ha Hlen;
    simpl in Ha, Hlen; subst a.
  - destruct q; [|discriminate].
    eexists _, _. split; [reflexivity|]. simpl.
    repeat split; destruct o; reflexivity.
  - destruct q as [|next q]; [discriminate|]. injection Hlen as Hlen.
    destruct (IH (mk d q p (OnTask next)) next o1 eq_refl Hlen)
      as (l' & obs' & Hrun & Hrest & Hq & Hset & Hst).
    exists l', ([settle task o; Sleeping d] ++ [Started next] ++ obs').
    split.
    + eapply run_step; [reflexivity|].
      eapply run_step; [reflexivity|]. exact Hrun.
    + split; [exact Hrest|]. split; [exact Hq|]. simpl in Hset, Hst. split.
      * rewrite settlements_app, settlements_app, Hset. destruct o; reflexivity.
      * rewrite started_app, started_app, Hst. destruct o; reflexivity.
Qed.

Lemma drain (os : list (R + E)) (l : Limiter) :
  coherent l ->
  length os = length (remaining l) ->
  exists l' obs',
    run l (completion l os) = Some (l', obs') /\
    awaiting l' = NotRunning /\ queue l' = [] /\
    settlements obs' = combine (remaining l) os /\
    started obs' = queue l.
Proof.
  destruct l as [d q p a]. unfold coherent, remaining, running, completion.
  simpl. intros Hco Hlen. destruct a as [|task|].
  - destruct Hco as [_ ->]. destruct os; [|discriminate].
    eexists _, _. split; [reflexivity|]. auto.
  - destruct os as [|o os]; [discriminate|]. injection Hlen as Hlen.
    apply (drain_running os (mk d q p (OnTask task)) task o eq_refl Hlen).
  - destruct Hco as [_ Hq]. destruct q as [|next q]; [congruence|].
    destruct os as [|o os]; [discriminate|]. injection Hlen as Hlen.
    destruct (drain_running os (mk d q p (OnTask next)) next o eq_refl Hlen)
      as (l' & obs' & Hrun & Hrest & Hq' & Hset & Hst).
    exists l', ([Started next] ++ obs'). split.
    + eapply run_step; [reflexivity|]. exact Hrun.
    + split; [exact Hrest|]. split; [exact Hq'|]. simpl in Hset, Hst |- *. split.
      * exact Hset.
      * rewrite Hst. reflexivity.
Qed.

Lemma coherent_create (delayMs : Z) : coherent (create (Task := Task) delayMs).
Proof. unfold coherent. simpl. auto. Qed.

(** C6: for every schedule of additions, settlements and wake-ups that a
    scheduler goes through from its creation,
    - the tasks started so far followed by the queue are the tasks added,
      in the order they were added: strict FIFO, none dropped;
    - what follows the start of a task on the trace is the settlement of
      that very task: one task at a time;
    - the settlements pair the started tasks, in order, with the outcomes
      that arrived, so a task that throws rejects its own promise, with
      its error, and no other;
    - a sleep comes right after a settlement and is followed by the
      start of the next task, or is still going on with a task waiting;
      a scheduler at rest has an empty queue and no sleep at the end of
      its trace;
    - whatever the outcomes of the tasks not yet settled, failures
      included, letting them arrive one by one starts and settles every
      queued task, each with its own outcome. *)
Theorem C6_scheduler_is_serial_and_fifo (delayMs : Z) (evs : list Occurrence)
        (l : Limiter) (obs : list Observation) :
  run (create delayMs) evs = Some (l, obs) ->
  started obs ++ queue l = submitted evs /\
  (forall pre task post,
      obs = pre ++ Started task :: post ->
      (post = [] /\ awaiting l = OnTask task) \/
      (exists o post', post = settle task o :: post')) /\
  map fst (settlements obs) ++ running l = started obs /\
  map snd (settlements obs) = outcomes evs /\
  (forall pre ms post,
      obs = pre ++ Sleeping ms :: post ->
      (exists pre' task o, pre = pre' ++ [settle task o]) /\
      ((post = [] /\ awaiting l = OnSleep /\ queue l <> []) \/
       (exists task' post', post = Started task' :: post'))) /\
  (awaiting l = NotRunning ->
   queue l = [] /\ processing l = false /\
   forall pre ms, obs <> pre ++ [Sleeping ms]) /\
  (forall os,
      length os = length (remaining l) ->
      exists l' obs',
        run l (completion l os) = Some (l', obs') /\
        awaiting l' = NotRunning /\ queue l' = [] /\
        settlements obs' = combine (remaining l) os /\
        started (obs ++ obs') = submitted evs).
Proof.
  intros Hrun.
  destruct (run_law evs _ _ _ (coherent_create delayMs) Hrun)
    as (Hco & Hshape & Hfifo & Hown & Hout & _).
  simpl in Hfifo, Hown.
  specialize (Hshape [] shaped_rest). simpl in Hshape.
  split; [exact Hfifo|]. split; [|split; [exact Hown|split; [exact Hout|]]].
  { intros pre task post Heq. exact (shaped_after_start _ _ Hshape _ _ _ Heq). }
  split; [|split].
  - intros pre ms post Heq.
    destruct (shaped_around_sleep _ _ Hshape _ _ _ Heq) as [Hpre Hpost].
    split; [exact Hpre|]. destruct Hpost as [[-> Ha]|Hnext]; [|right; exact Hnext].
    left. split; [reflexivity|]. split; [exact Ha|].
    unfold coherent in Hco. rewrite Ha in Hco. exact (proj2 Hco).
  - intros Ha. unfold coherent in Hco. rewrite Ha in Hco. destruct Hco as [Hp Hq].
    split; [exact Hq|]. split; [exact Hp|].
    intros pre ms Heq.
    destruct (shaped_around_sleep _ _ Hshape _ _ _ Heq) as [_ [[_ Hs]|(t & p' & [=])]].
    congruence.
  - intros os Hlen.
    destruct (drain os l Hco Hlen) as (l' & obs' & Hdrain & Hrest & Hq & Hset & Hst).
    exists l', obs'. repeat split; try assumption.
    rewrite started_app, Hst. exact Hfifo.
Qed.

End Facts.
End SchedulerFacts.

Lemma C6_scheduler_is_serial_and_fifo_witness :
  match RateLimiter.run (RateLimiter.create 2000) exampleSchedule with
  | Some (l, obs) =>
      RateLimiter.started obs ++ RateLimiter.queue l = ["a.com"; "b.com"; "c.com"] /\
      RateLimiter.settlements obs =
        [("a.com", inr "boom"); ("b.com", inl true); ("c.com", inl false)] /\
      RateLimiter.awaiting l = RateLimiter.NotRunning
  | None => False
  end.
Proof.
  destruct (RateLimiter.run (RateLimiter.create 2000) exampleSchedule)
    as [[l obs]|] eqn:Hrun.
  - split; [|split].
    + exact (proj1 (SchedulerFacts.C6_scheduler_is_serial_and_fifo
                      2000 exampleSchedule l obs Hrun)).
    + vm_compute in Hrun. injection Hrun as <- <-. reflexivity.
    + vm_compute in Hrun. injection Hrun as <- <-. reflexivity.
  - vm_compute in Hrun. discriminate.
Defined.

(** * Further properties of the code *)

(** ** The classifier, whole *)

Lemma scanAvailable_some (patterns : list string) (s : string) :
  (1 <= matchCount patterns s)%nat ->
  exists p, scanAvailable patterns s = Some p /\ In p patterns /\
            includes s p = true.
Proof.
  induction patterns as [|p patterns IH]; intros H.
  - unfold matchCount in H. simpl in H. lia.
  - rewrite matchCount_cons in H. simpl. destruct (includes s p) eqn:Hp.
    + exists p. auto.
    + destruct (IH ltac:(lia)) as (q & Hq & Hin & Hinc). exists q. auto.
Qed.

Lemma isDomainAvailable_table (data : JsValue) (domain : string) :
  isDomainAvailable data domain =
  if negb (truthy data) || (String.length (serialize data) <? 50)%nat then true
  else if (1 <=? matchCount strongRegisteredPatterns (serialize data))%nat then false
  else if (1 <=? matchCount availablePatterns (serialize data))%nat then true
  else (String.length (serialize data) <? 200)%nat.
Proof.
  unfold isDomainAvailable, isDomainAvailable_log.
  destruct (truthy data); cbv [negb orb]; [|reflexivity].
  destruct (String.length (serialize data) <? 50)%nat; [reflexivity|].
  rewrite scanRegistered_spec by lia. rewrite Nat.add_0_l.
  destruct (Nat.leb_spec 2 (matchCount strongRegisteredPatterns (serialize data)))
    as [H2|H2].
  - destruct (Nat.leb_spec 1 (matchCount strongRegisteredPatterns (serialize data)));
      [reflexivity | lia].
  - destruct (1 <=? matchCount strongRegisteredPatterns (serialize data))%nat;
      [reflexivity|].
    destruct (Nat.leb_spec 1 (matchCount availablePatterns (serialize data)))
      as [Ha|Ha].
    + destruct (scanAvailable_some _ _ Ha) as (p & -> & _). reflexivity.
    + rewrite scanAvailable_none by lia.
      destruct (String.length (serialize data) <? 200)%nat; reflexivity.
Qed.

(** X1: the verdict of [isDomainAvailable] in closed form.  A falsy
    payload or a serialization shorter than 50 code units is available;
    otherwise one strong-registration phrase makes it registered;
    otherwise one availability phrase makes it available; otherwise it is
    available exactly when shorter than 200 code units. *)
Theorem X1_classifier_decision_table (data : JsValue) (domain : string) :
  isDomainAvailable data domain =
  if negb (truthy data) || (String.length (serialize data) <? 50)%nat then true
  else if (1 <=? matchCount strongRegisteredPatterns (serialize data))%nat then false
  else if (1 <=? matchCount availablePatterns (serialize data))%nat then true
  else (String.length (serialize data) <? 200)%nat.
Proof. exact (isDomainAvailable_table data domain). Qed.

(** ** The cache store, by itself *)


(** X3: the sweep [cleanExpired] keeps exactly the entries that are still
    alive, and no reader can tell it has run: [get] at the time of the
    sweep answers the same before and after it, for every key. *)
Theorem X3_cleanExpired_keeps_the_living (t : Z) (c : CacheService.t) :
  (forall key item,
      CacheService.cache (CacheService.cleanExpired t c) !! key = Some item <->
      CacheService.cache c !! key = Some item /\ (t <= CacheService.expiry item)%Z) /\
  (forall key,
      fst (CacheService.get key t (CacheService.cleanExpired t c)) =
      fst (CacheService.get key t c)) /\
  CacheService.cleanExpired t (CacheService.cleanExpired t c) =
  CacheService.cleanExpired t c.
Proof.
  assert (Hlook : forall key item,
             CacheService.cache (CacheService.cleanExpired t c) !! key = Some item <->
             CacheService.cache c !! key = Some item /\ (t <= CacheService.expiry item)%Z).
  { intros key item. unfold CacheService.cleanExpired. simpl.
    rewrite map_lookup_filter_Some. simpl. split; intros [H1 H2]; split; auto; lia. }
  split; [exact Hlook|]. split.
  - intros key. unfold CacheService.get at 1.
    destruct (CacheService.cache (CacheService.cleanExpired t c) !! key)
      as [item|] eqn:Hk.
    + apply Hlook in Hk. destruct Hk as [Hc Hlive].
      unfold CacheService.get. rewrite Hc.
      destruct (Z.gtb_spec t (CacheService.expiry item)); [lia | reflexivity].
    + unfold CacheService.get.
      destruct (CacheService.cache c !! key) as [item|] eqn:Hc; [|reflexivity].
      destruct (Z.gtb_spec t (CacheService.expiry item)); [reflexivity|].
      assert (Hin : CacheService.cache (CacheService.cleanExpired t c) !! key = Some item)
        by (apply Hlook; split; [exact Hc | lia]).
      congruence.
  - transitivity (CacheService.mk (CacheService.cache (CacheService.cleanExpired t c))
                                  (CacheService.ttl c)); [|reflexivity].
    unfold CacheService.cleanExpired at 1.
    change (CacheService.ttl (CacheService.cleanExpired t c))
      with (CacheService.ttl c).
    f_equal. apply map_eq. intros key.
    destruct (CacheService.cache (CacheService.cleanExpired t c) !! key)
      as [item|] eqn:Hk.
    + apply map_lookup_filter_Some. split; [exact Hk|].
      apply Hlook in Hk. simpl. lia.
    + apply map_lookup_filter_None. left. exact Hk.
Qed.

(** ** The scheduler, further *)

Module SchedulerMore.
Section Facts.
Import RateLimiter.
Import SchedulerFacts.

Context {Task R E : Type}.

Local Abbreviation Limiter := (RateLimiter.t Task).
Local Abbreviation Observation := (RateLimiter.Obs Task R E).
Local Abbreviation Occurrence := (RateLimiter.Event Task R E).

Lemma sleeps_app (o1 o2 : list Observation) :
  sleeps (o1 ++ o2) = sleeps o1 ++ sleeps o2.
Proof. apply flat_map_app. Qed.

(** X4: a caller that awaits each task before it adds the next is never
    made to wait: every task starts inside its [add], no sleep is ever
    taken, and the scheduler is back at rest after each task. *)
Theorem X4_awaited_one_by_one_never_sleeps (delayMs : Z)
        (jobs : list (Task * (R + E))) :
  run (create delayMs) (oneByOne jobs) =
    Some (create delayMs, oneByOneTrace jobs) /\
  sleeps (oneByOneTrace jobs) = [].
Proof.
  split.
  - induction jobs as [|[task o] jobs IH]; [reflexivity|].
    change (oneByOne ((task, o) :: jobs))
      with (Add task :: Settle o :: oneByOne jobs).
    change (oneByOneTrace ((task, o) :: jobs))
      with ([Started (R := R) (E := E) task] ++ [settle task o] ++ oneByOneTrace jobs).
    eapply run_step; [reflexivity|].
    eapply run_step; [reflexivity|]. exact IH.
  - induction jobs as [|[task o] jobs IH]; [reflexivity|].
    change (oneByOneTrace ((task, o) :: jobs))
      with ([Started (R := R) (E := E) task; settle task o] ++ oneByOneTrace jobs).
    rewrite sleeps_app, IH. destruct o; reflexivity.
Qed.

Lemma step_sleeps (l l' : Limiter) (ev : Occurrence) (obs' : list Observation) :
  step l ev = Some (l', obs') ->
  delay l' = delay l /\ Forall (fun ms => ms = delay l) (sleeps obs').
Proof.
  destruct l as [d q p a]. destruct ev as [task|o|]; simpl; intros Hstep.
  - unfold add, processQueue, loop in Hstep. simpl in Hstep.
    destruct p; simpl in Hstep.
    + injection Hstep as <- <-. split; [reflexivity | constructor].
    + destruct (q ++ [task]) as [|next rest] eqn:Hq; simpl in Hstep;
        injection Hstep as <- <-; split; try reflexivity; constructor.
  - unfold settled, loop in Hstep. simpl in Hstep.
    destruct a as [|running_task|]; try discriminate.
    destruct q as [|next q]; simpl in Hstep; injection Hstep as <- <-.
    + split; [reflexivity|]. destruct o; constructor.
    + split; [reflexivity|]. destruct o; repeat constructor.
  - unfold woke, loop in Hstep. simpl in Hstep.
    destruct a as [|running_task|]; try discriminate.
    destruct q as [|next q]; injection Hstep as <- <-;
      split; try reflexivity; constructor.
Qed.

(** X5: as long as nobody calls [setDelay], every sleep the scheduler
    takes lasts the delay it was created with. *)
Theorem X5_sleeps_last_the_configured_delay (delayMs : Z)
        (evs : list Occurrence) (l : Limiter) (obs : list Observation) :
  run (create delayMs) evs = Some (l, obs) ->
  delay l = delayMs /\ Forall (fun ms => ms = delayMs) (sleeps obs).
Proof.
  change delayMs with (delay (create (Task := Task) delayMs)) at 2 3.
  generalize (create (Task := Task) delayMs). clear delayMs.
  revert l obs. induction evs as [|ev evs IH]; intros l obs l0 Hrun.
  - simpl in Hrun. injection Hrun as <- <-. split; [reflexivity | constructor].
  - simpl in Hrun.
    destruct (step l0 ev) as [[l1 obs1]|] eqn:Hstep; [|discriminate].
    destruct (run l1 evs) as [[l2 obs2]|] eqn:Hrest; [|discriminate].
    injection Hrun as <- <-.
    destruct (step_sleeps _ _ _ _ Hstep) as [Hd1 Hs1].
    destruct (IH _ _ _ Hrest) as [Hd2 Hs2].
    split; [congruence|]. rewrite sleeps_app. apply Forall_app. split; [exact Hs1|].
    rewrite Hd1 in Hs2. exact Hs2.
Qed.

Lemma run_on_empty_queue (evs : list Occurrence) (l l' : Limiter)
      (obs : list Observation) :
  queue l = [] ->
  addsNothing evs ->
  run l evs = Some (l', obs) ->
  started obs = [] /\ queue l' = [] /\
  settlements obs = combine (running l) (outcomes evs).
Proof.
  revert l obs. induction evs as [|ev evs IH]; intros [d q p a] obs Hq Hno Hrun;
    simpl in Hq; subst q.
  - simpl in Hrun. injection Hrun as <- <-. simpl.
    unfold running. simpl. destruct a; auto.
  - unfold addsNothing in Hno. rewrite (submitted_cons ev evs) in Hno.
    apply app_eq_nil in Hno. destruct Hno as [Hev Hno].
    destruct ev as [task|o|]; [discriminate Hev| |].
    + simpl in Hrun. unfold settled in Hrun. simpl in Hrun.
      destruct a as [|task|]; try discriminate. simpl in Hrun.
      destruct (run (mk d [] false NotRunning) evs) as [[l2 obs2]|] eqn:Hrest;
        [|discriminate].
      injection Hrun as <- <-.
      destruct (IH (mk d [] false NotRunning) obs2 eq_refl Hno Hrest) as (Hs & Hq & Hset).
      unfold running in Hset |- *. simpl in Hset |- *.
      rewrite Hs, Hset. repeat split; auto; destruct o; reflexivity.
    + simpl in Hrun. unfold woke in Hrun. simpl in Hrun.
      destruct a as [|task|]; try discriminate. simpl in Hrun.
      destruct (run (mk d [] false NotRunning) evs) as [[l2 obs2]|] eqn:Hrest;
        [|discriminate].
      injection Hrun as <- <-.
      destruct (IH (mk d [] false NotRunning) obs2 eq_refl Hno Hrest) as (Hs & Hq & Hset).
      unfold running in Hset |- *. simpl in Hset |- *. auto.
Qed.

(** X6: after [clear()], and until somebody adds a task again, no task
    starts: the tasks that were waiting are dropped and their promises
    never settle; only the task in flight, if there is one, settles, and
    with its own outcome. *)
Theorem X6_clear_drops_the_waiting_tasks (l l' : Limiter)
        (evs : list Occurrence) (obs : list Observation) :
  addsNothing evs ->
  run (clear l) evs = Some (l', obs) ->
  started obs = [] /\ queue l' = [] /\
  settlements obs = combine (running l) (outcomes evs) /\
  getQueueSize (clear l) = 0%nat.
Proof.
  intros Hno Hrun.
  destruct (run_on_empty_queue evs (clear l) l' obs eq_refl Hno Hrun)
    as (Hs & Hq & Hset).
  repeat split; assumption.
Qed.

(** X7: [getQueueSize] counts the tasks added and not yet started; the
    task in flight is not among them. *)
Theorem X7_queue_size_counts_the_waiting (delayMs : Z) (evs : list Occurrence)
        (l : Limiter) (obs : list Observation) :
  run (create delayMs) evs = Some (l, obs) ->
  (getQueueSize l + length (started obs) = length (submitted evs))%nat /\
  (length (started obs) = length (settlements obs) + length (running l))%nat.
Proof.
  intros Hrun.
  destruct (run_law evs _ _ _ (coherent_create delayMs) Hrun)
    as (_ & _ & Hfifo & Hown & _).
  simpl in Hfifo, Hown. unfold getQueueSize. split.
  - rewrite <- Hfifo, length_app. lia.
  - rewrite <- Hown, length_app, length_map. reflexivity.
Qed.

End Facts.
End SchedulerMore.

Lemma X5_sleeps_last_the_configured_delay_witness :
  match RateLimiter.run (RateLimiter.create 2000) exampleSchedule with
  | Some (l, obs) => sleeps obs = [2000%Z; 2000%Z] /\
                     Forall (fun ms => ms = 2000%Z) (sleeps obs)
  | None => False
  end.
Proof.
  destruct (RateLimiter.run (RateLimiter.create 2000) exampleSchedule)
    as [[l obs]|] eqn:Hrun.
  - split.
    + vm_compute in Hrun. injection Hrun as <- <-. reflexivity.
    + exact (proj2 (SchedulerMore.X5_sleeps_last_the_configured_delay
                      2000 exampleSchedule l obs Hrun)).
  - vm_compute in Hrun. discriminate.
Defined.

Lemma X6_clear_drops_the_waiting_tasks_witness :
  match RateLimiter.run (R := bool) (E := string)
          (RateLimiter.clear busyExample) [RateLimiter.Settle (inl true)] with
  | Some (l', obs) =>
      RateLimiter.started obs = [] /\ RateLimiter.queue l' = [] /\
      RateLimiter.settlements obs = [("a.com", inl true)]
  | None => False
  end.
Proof.
  destruct (RateLimiter.run (R := bool) (E := string)
              (RateLimiter.clear busyExample) [RateLimiter.Settle (inl true)])
    as [[l' obs]|] eqn:Hrun.
  - destruct (SchedulerMore.X6_clear_drops_the_waiting_tasks
                busyExample l' [RateLimiter.Settle (inl true)] obs eq_refl Hrun)
      as (Hs & Hq & Hset & _).
    repeat split; assumption.
  - vm_compute in Hrun. discriminate.
Defined.

Lemma X7_queue_size_counts_the_waiting_witness :
  match RateLimiter.run (RateLimiter.create 2000) (firstn 4 exampleSchedule) with
  | Some (l, obs) =>
      (RateLimiter.getQueueSize l + length (RateLimiter.started obs) = 3)%nat
  | None => False
  end.
Proof.
  destruct (RateLimiter.run (RateLimiter.create 2000) (firstn 4 exampleSchedule))
    as [[l obs]|] eqn:Hrun.
  - exact (proj1 (SchedulerMore.X7_queue_size_counts_the_waiting
                    2000 (firstn 4 exampleSchedule) l obs Hrun)).
  - vm_compute in Hrun. discriminate.
Defined.

(** ** Normalization *)

Lemma toLowerCaseUnit_idempotent (c : ascii) :
  toLowerCaseUnit (toLowerCaseUnit c) = toLowerCaseUnit c.
Proof. destruct c as [[] [] [] [] [] [] [] []]; reflexivity. Qed.

Lemma isWhiteSpace_toLowerCaseUnit (c : ascii) :
  isWhiteSpace (toLowerCaseUnit c) = isWhiteSpace c.
Proof. destruct c as [[] [] [] [] [] [] [] []]; reflexivity. Qed.

Lemma toLowerCase_idempotent (s : string) :
  toLowerCase (toLowerCase s) = toLowerCase s.
Proof.
  induction s as [|c s IH]; [reflexivity|].
  simpl. rewrite toLowerCaseUnit_idempotent, IH. reflexivity.
Qed.

Lemma toLowerCase_trimStart (s : string) :
  toLowerCase (trimStart s) = trimStart (toLowerCase s).
Proof.
  induction s as [|c s IH]; [reflexivity|].
  simpl. rewrite isWhiteSpace_toLowerCaseUnit.
  destruct (isWhiteSpace c); [exact IH | reflexivity].
Qed.

Lemma toLowerCase_trimEnd (s : string) :
  toLowerCase (trimEnd s) = trimEnd (toLowerCase s).
Proof.
  induction s as [|c s IH]; [reflexivity|].
  simpl. rewrite <- IH, isWhiteSpace_toLowerCaseUnit.
  destruct (trimEnd s) as [|a r]; simpl.
  - destruct (isWhiteSpace c); reflexivity.
  - reflexivity.
Qed.

Lemma toLowerCase_trim (s : string) :
  toLowerCase (trim s) = trim (toLowerCase s).
Proof. unfold trim. rewrite toLowerCase_trimEnd, toLowerCase_trimStart. reflexivity. Qed.

Lemma trimStart_startsClean (s : string) : startsClean (trimStart s).
Proof.
  induction s as [|c s IH]; [exact I|].
  simpl. destruct (isWhiteSpace c) eqn:Hc; [exact IH | exact Hc].
Qed.

Lemma trimStart_of_clean (s : string) : startsClean s -> trimStart s = s.
Proof. destruct s as [|c s]; [reflexivity|]. simpl. intros ->. reflexivity. Qed.

Lemma trimEnd_startsClean (s : string) : startsClean s -> startsClean (trimEnd s).
Proof.
  destruct s as [|c s]; [intros; exact I|].
  simpl. intros Hc. destruct (trimEnd s); [rewrite Hc|]; exact Hc.
Qed.

Lemma trimEnd_idempotent (s : string) : trimEnd (trimEnd s) = trimEnd s.
Proof.
  induction s as [|c s IH]; [reflexivity|].
  simpl. destruct (trimEnd s) as [|a r] eqn:Hs.
  - destruct (isWhiteSpace c) eqn:Hc; [reflexivity|]. simpl. rewrite Hc. reflexivity.
  - change (trimEnd (String c (String a r)))
      with (match trimEnd (String a r) with
            | "" => if isWhiteSpace c then "" else String c ""
            | String a' r' => String c (String a' r')
            end).
    rewrite IH. reflexivity.
Qed.

Lemma trim_idempotent (s : string) : trim (trim s) = trim s.
Proof.
  unfold trim.
  rewrite (trimStart_of_clean (trimEnd (trimStart s)))
    by (apply trimEnd_startsClean, trimStart_startsClean).
  apply trimEnd_idempotent.
Qed.

Lemma normalize_idempotent (domain : string) :
  trim (toLowerCase (trim (toLowerCase domain))) = trim (toLowerCase domain).
Proof.
  rewrite toLowerCase_trim, toLowerCase_idempotent. apply trim_idempotent.
Qed.

(** X8: the normalization of a domain -- lower case, then trim -- is
    idempotent, so a resolution does not tell a domain from its
    normalized form: either service gives the same result and leaves
    the same world for both. *)
Theorem X8_resolution_ignores_case_and_margins
        (whois : string -> WhoisConfig -> Z -> WhoisReply)
        (axios_get : string -> Z -> ApiReply) (domain : string) (w : World) :
  trim (toLowerCase (trim (toLowerCase domain))) = trim (toLowerCase domain) /\
  WhoisService.checkDomain whois (trim (toLowerCase domain)) w =
    WhoisService.checkDomain whois domain w /\
  GoDaddyService.checkDomain axios_get (trim (toLowerCase domain)) w =
    GoDaddyService.checkDomain axios_get domain w.
Proof.
  split; [apply normalize_idempotent|]. split.
  - unfold WhoisService.checkDomain. rewrite normalize_idempotent. reflexivity.
  - unfold GoDaddyService.checkDomain. rewrite normalize_idempotent. reflexivity.
Qed.

(** ** The WHOIS service, further *)

Lemma transportCalls_app (t1 t2 : list Effect) :
  transportCalls (t1 ++ t2) = transportCalls t1 ++ transportCalls t2.
Proof. apply flat_map_app. Qed.

Lemma submissions_app (t1 t2 : list Effect) :
  submissions (t1 ++ t2) = submissions t1 ++ submissions t2.
Proof. apply flat_map_app. Qed.

Section WhoisMore.
Import WhoisService.

Variable whois : string -> WhoisConfig -> Z -> WhoisReply.

Lemma isProblematic_existsb (domain : string) :
  isProblematic (extensionOf domain) = existsb (endsWith domain) problematicTLDs.
Proof.
  destruct (existsb (endsWith domain) problematicTLDs) eqn:He.
  - apply isProblematic_endsWith. apply existsb_exists in He. exact He.
  - destruct (isProblematic (extensionOf domain)) eqn:Hp; [|reflexivity].
    apply isProblematic_endsWith in Hp.
    assert (existsb (endsWith domain) problematicTLDs = true)
      by (apply existsb_exists; exact Hp).
    congruence.
Qed.

(** X9: a lookup calls the transport exactly once, following up to 3
    referrals, with a timeout of 15000 ms when the domain ends in one
    of the problematic TLDs and of 10000 ms otherwise; it moves the clock
    by the time the transport took and touches neither the cache nor the
    scheduler. *)
Theorem X9_lookup_is_one_transport_call (domain : string) (w : World) :
  exists cfg : WhoisConfig,
    trace (snd (performWhoisLookup whois domain w)) =
      trace w ++ [WhoisCall domain cfg] /\
    follow cfg = 3%Z /\
    timeout cfg =
      (if existsb (endsWith domain) problematicTLDs then 15000 else 10000)%Z /\
    now (snd (performWhoisLookup whois domain w)) =
      (now w + elapsed (whois domain cfg (now w)))%Z /\
    cacheService (snd (performWhoisLookup whois domain w)) = cacheService w /\
    rateLimiter (snd (performWhoisLookup whois domain w)) = rateLimiter w.
Proof.
  exists (whoisConfigOf (extensionOf domain)).
  rewrite performWhoisLookup_world, <- isProblematic_existsb.
  repeat split.
Qed.

(** X10: a transport failure whose message belongs neither to the
    not-found vocabulary nor to the transient one becomes an error result
    carrying that message verbatim, whatever the TLD, and nothing is
    cached. *)
Theorem X10_other_failures_keep_their_message (domain message : string)
        (w : World) :
  fst (CacheService.get (trim (toLowerCase domain)) (now w) (cacheService w)) = None ->
  RateLimiter.idle (rateLimiter w) = true ->
  outcome (whois (trim (toLowerCase domain))
             (whoisConfigOf (extensionOf (trim (toLowerCase domain))))
             (now w)) = inr message ->
  (forall p, In p notFoundPatterns -> includes (toLowerCase message) p = false) ->
  (forall p, In p timeoutPatterns -> includes (toLowerCase message) p = false) ->
  exists r w',
    checkDomain whois domain w = (Returned r, w') /\
    Result.status r = Error /\
    Result.available r = None /\
    Result.error r = Some message /\
    cacheService w' =
      snd (CacheService.get (trim (toLowerCase domain)) (now w) (cacheService w)).
Proof.
  intros Hmiss Hidle Hout Hnot Hnt.
  assert (Hnf : isNotFoundError message = false)
    by (apply vocabulary_no_match; exact Hnot).
  assert (Hto : isTimeoutOrConnectionError message = false)
    by (apply vocabulary_no_match; exact Hnt).
  pose proof (lookup_rethrows whois _ _ w Hout Hnf) as Hlook.
  rewrite Hto in Hlook. cbv [andb] in Hlook.
  destruct (CacheService.get (trim (toLowerCase domain)) (now w) (cacheService w))
    as [o c] eqn:Hget.
  simpl in Hmiss. subst o.
  rewrite (checkDomain_miss whois domain w c Hget Hidle), Hlook.
  eexists _, _. split; [reflexivity|]. repeat split.
Qed.

(** X11: once its TTL has elapsed an entry counts for nothing: the
    resolution goes to the scheduler and the transport as on a plain
    miss, the result is not from the cache, and the stale entry is
    replaced by the fresh result when the lookup succeeds and gone when it
    fails. *)
Theorem X11_expired_entry_is_a_miss (domain : string) (w : World)
        (item : CacheService.CacheEntry) :
  CacheService.cache (cacheService w) !! trim (toLowerCase domain) = Some item ->
  (now w > CacheService.expiry item)%Z ->
  RateLimiter.idle (rateLimiter w) = true ->
  exists r w',
    checkDomain whois domain w = (Returned r, w') /\
    Result.fromCache r = false /\
    trace w' =
      trace w ++
      [Submitted (trim (toLowerCase domain));
       WhoisCall (trim (toLowerCase domain))
         (whoisConfigOf (extensionOf (trim (toLowerCase domain))))] /\
    (Result.status r <> Error ->
     CacheService.cache (cacheService w') !! trim (toLowerCase domain) =
     Some {| CacheService.value := r;
             CacheService.expiry :=
               (Result.checkedAt r + CacheService.ttl (cacheService w))%Z;
             CacheService.createdAt := Result.checkedAt r |}) /\
    (Result.status r = Error ->
     CacheService.cache (cacheService w') !! trim (toLowerCase domain) = None).
Proof.
  intros Hitem Hold Hidle.
  assert (Hget : CacheService.get (trim (toLowerCase domain)) (now w) (cacheService w) =
                 (None, CacheService.delete (trim (toLowerCase domain)) (cacheService w))).
  { unfold CacheService.get. rewrite Hitem.
    destruct (Z.gtb_spec (now w) (CacheService.expiry item)); [reflexivity | lia]. }
  rewrite (checkDomain_miss whois domain w _ Hget Hidle).
  destruct (fst (performWhoisLookup _ _ _)) as [result|message].
  - eexists _, _. split; [reflexivity|]. split; [reflexivity|].
    split; [reflexivity|]. simpl. split.
    + intros _. rewrite lookup_insert_eq. reflexivity.
    + destruct (lookup_available result); discriminate.
  - eexists _, _. split; [reflexivity|]. split; [reflexivity|].
    split; [reflexivity|]. simpl. split.
    + intros H. congruence.
    + intros _. apply lookup_delete_eq.
Qed.

(** What one returned resolution adds to the trace: nothing on a hit, a
    submission and a transport call for the normalized domain otherwise. *)
Lemma checkDomain_calls (domain : string) (w w' : World) (r : Result.t) :
  checkDomain whois domain w = (Returned r, w') ->
  transportCalls (trace w') =
    transportCalls (trace w) ++ lookedUp [r] /\
  submissions (trace w') = submissions (trace w) ++ lookedUp [r].
Proof.
  intros Hrun.
  destruct (CacheService.get (trim (toLowerCase domain)) (now w) (cacheService w))
    as [[cached|] c] eqn:Hget.
  - unfold checkDomain in Hrun. rewrite Hget in Hrun.
    injection Hrun as <- <-. unfold lookedUp. simpl. rewrite !app_nil_r. auto.
  - destruct (RateLimiter.idle (rateLimiter w)) eqn:Hidle.
    + rewrite (checkDomain_miss whois domain w c Hget Hidle) in Hrun.
      destruct (fst (performWhoisLookup _ _ _));
        injection Hrun as <- <-; unfold lookedUp; simpl;
        rewrite transportCalls_app, submissions_app; auto.
    + pose proof (checkDomain_busy whois domain w c Hget Hidle) as Hp.
      rewrite Hrun in Hp. discriminate.
Qed.

Lemma batchLoop_returned (rest : list string) (i total : nat) (onProgress : bool)
      (acc results : list Result.t) (w w' : World) :
  batchLoop whois rest i total onProgress acc w = (Returned results, w') ->
  exists rs, results = acc ++ rs /\
             resolvedInOrder whois total onProgress i rest w rs w'.
Proof.
  revert i acc w. induction rest as [|domain rest IH]; intros i acc w Hrun.
  - simpl in Hrun. injection Hrun as <- <-. exists []. rewrite app_nil_r.
    split; [reflexivity | constructor].
  - simpl in Hrun.
    destruct (checkDomain whois domain w) as [[r| |] w1] eqn:Hone; try discriminate.
    apply IH in Hrun. destruct Hrun as (rs & -> & Hspec).
    exists (r :: rs). rewrite <- app_assoc. split; [reflexivity|].
    econstructor; [exact Hone | exact Hspec].
Qed.

Lemma lookedUp_cons (r : Result.t) (rs : list Result.t) :
  lookedUp (r :: rs) = lookedUp [r] ++ lookedUp rs.
Proof. unfold lookedUp. simpl. destruct (Result.fromCache r); reflexivity. Qed.

Lemma resolvedInOrder_calls (total : nat) (onProgress : bool) (i : nat)
      (domains : list string) (w : World) (rs : list Result.t) (w' : World) :
  resolvedInOrder whois total onProgress i domains w rs w' ->
  transportCalls (trace w') = transportCalls (trace w) ++ lookedUp rs /\
  submissions (trace w') = submissions (trace w) ++ lookedUp rs.
Proof.
  induction 1 as [i w | i domain rest w r w1 rs w' Hone _ [IHt IHs]].
  - unfold lookedUp. simpl. rewrite !app_nil_r. auto.
  - destruct (checkDomain_calls domain w w1 r Hone) as [Ht Hs].
    rewrite lookedUp_cons, IHt, IHs. unfold notify.
    destruct onProgress; simpl;
      rewrite ?transportCalls_app, ?submissions_app; simpl;
      rewrite ?app_nil_r, Ht, Hs, <- !app_assoc; auto.
Qed.

(** X12: a batch goes to the transport only for the results that do not
    come from the cache: the transport calls it makes are, in order, the
    domains of those results, one call each, every one of them through
    one task of the scheduler; so it never makes more calls than it
    returns results. *)
Theorem X12_batch_calls_only_for_misses (domains : list string)
        (onProgress : bool) (w w' : World) (results : list Result.t) :
  checkMultipleDomains whois domains onProgress w = (Returned results, w') ->
  transportCalls (trace w') = transportCalls (trace w) ++ lookedUp results /\
  submissions (trace w') = submissions (trace w) ++ lookedUp results /\
  (length (lookedUp results) <= length results)%nat /\
  length results = length domains.
Proof.
  intros Hrun. unfold checkMultipleDomains in Hrun.
  apply batchLoop_returned in Hrun. destruct Hrun as (rs & -> & Hspec).
  simpl. destruct (resolvedInOrder_calls _ _ _ _ _ _ _ Hspec) as [Ht Hs].
  split; [exact Ht|]. split; [exact Hs|]. split.
  - unfold lookedUp. rewrite length_map. apply List.filter_length_le.
  - exact (proj1 (resolvedInOrder_reports whois _ _ _ _ _ _ _ Hspec)).
Qed.

End WhoisMore.

Lemma X10_other_failures_keep_their_message_witness :
  exists r w',
    WhoisService.checkDomain whoisRefusing "example.app"
      (initialWorld 86400000 2000 1000) = (Returned r, w') /\
    Result.status r = Error /\
    Result.error r = Some "Query rate limit exceeded".
Proof.
  destruct (X10_other_failures_keep_their_message whoisRefusing
              "example.app" "Query rate limit exceeded"
              (initialWorld 86400000 2000 1000))
    as (r & w' & Hrun & Hstatus & _ & Herr & _).
  - reflexivity.
  - reflexivity.
  - reflexivity.
  - intros p Hin. simpl in Hin.
    repeat (destruct Hin as [<-|Hin]; [reflexivity|]). destruct Hin.
  - intros p Hin. simpl in Hin.
    repeat (destruct Hin as [<-|Hin]; [reflexivity|]). destruct Hin.
  - exists r, w'. repeat split; assumption.
Defined.

Lemma X11_expired_entry_is_a_miss_witness :
  exists r w',
    WhoisService.checkDomain (whoisRejecting "No match for domain" 80)
      "Example.com" staleWorld = (Returned r, w') /\
    Result.fromCache r = false /\
    transportCalls (trace w') = ["example.com"].
Proof.
  destruct (X11_expired_entry_is_a_miss
              (whoisRejecting "No match for domain" 80) "Example.com" staleWorld
              {| CacheService.value := whoisFreshResult "example.com" false 0 10;
                 CacheService.expiry := 1010;
                 CacheService.createdAt := 10 |})
    as (r & w' & Hrun & Hfresh & Htrace & _).
  - vm_compute. reflexivity.
  - reflexivity.
  - reflexivity.
  - exists r, w'. split; [exact Hrun|]. split; [exact Hfresh|].
    rewrite Htrace. reflexivity.
Defined.

Lemma X12_batch_calls_only_for_misses_witness :
  match WhoisService.checkMultipleDomains whoisByName
          ["taken.com"; " Taken.COM"; "free-name.org"] false
          (initialWorld 86400000 2000 1000) with
  | (Returned results, w') =>
      transportCalls (trace w') = lookedUp results /\
      length results = 3%nat
  | _ => False
  end.
Proof.
  destruct (WhoisService.checkMultipleDomains whoisByName
              ["taken.com"; " Taken.COM"; "free-name.org"] false
              (initialWorld 86400000 2000 1000))
    as [[results| |] w'] eqn:Hrun.
  - destruct (X12_batch_calls_only_for_misses whoisByName _ _ _ _ _ Hrun)
      as (Ht & _ & _ & Hlen).
    split; [exact Ht | exact Hlen].
  - vm_compute in Hrun. discriminate.
  - vm_compute in Hrun. discriminate.
Defined.

(** ** The registrar-API service *)

Section GoDaddyMore.

Variable whois : string -> WhoisConfig -> Z -> WhoisReply.
Variable axios_get : string -> Z -> ApiReply.

Local Arguments trim : simpl never.
Local Arguments toLowerCase : simpl never.
Local Arguments CacheService.set : simpl never.

(** X13: a failed API request becomes an error result -- status =
    error, available = null, provider godaddy -- whose message is fixed
    by the HTTP status for 400, 401, 429 and 422, four different messages,
    and is otherwise the message of the failure, or a default one when
    that is empty.  One request is made, not repeated, and nothing is
    written to the cache. *)
Theorem X13_api_failures_by_status (domain : string) (w : World) (error : ApiError) :
  fst (CacheService.get (trim (toLowerCase domain)) (now w) (cacheService w)) = None ->
  api_outcome (axios_get (trim (toLowerCase domain)) (now w)) = inr error ->
  exists r w',
    GoDaddyService.checkDomain axios_get domain w = (r, w') /\
    Result.status r = Error /\
    Result.available r = None /\
    Result.provider r = Some "godaddy" /\
    Result.fromCache r = false /\
    (response_status error = Some 400%Z -> Result.error r = Some message400) /\
    (response_status error = Some 401%Z -> Result.error r = Some message401) /\
    (response_status error = Some 429%Z -> Result.error r = Some message429) /\
    (response_status error = Some 422%Z -> Result.error r = Some message422) /\
    ((forall status, response_status error = Some status ->
                     ~ In status [400; 401; 429; 422]%Z) ->
     Result.error r =
     Some (if String.eqb (api_message error) "" then messageUnknown
           else api_message error)) /\
    NoDup [message400; message401; message429; message422] /\
    trace w' = trace w ++ [ApiCall (trim (toLowerCase domain))] /\
    cacheService w' =
      snd (CacheService.get (trim (toLowerCase domain)) (now w) (cacheService w)).
Proof.
  intros Hmiss Hout.
  assert (Hdistinct : NoDup [message400; message401; message429; message422]).
  { apply (bool_decide_unpack _). vm_compute. exact I. }
  unfold GoDaddyService.checkDomain.
  destruct (CacheService.get (trim (toLowerCase domain)) (now w) (cacheService w))
    as [o c] eqn:Hget.
  simpl in Hmiss. subst o. simpl. rewrite Hout.
  destruct (response_status error) as [status|] eqn:Hstatus.
  - destruct (Z.eqb_spec status 400) as [->|H400].
    { eexists _, _. split; [reflexivity|]. simpl.
      repeat split; auto; try discriminate.
      intros Hother. exfalso. apply (Hother 400%Z eq_refl). simpl. auto. }
    destruct (Z.eqb_spec status 401) as [->|H401].
    { eexists _, _. split; [reflexivity|]. simpl.
      repeat split; auto; try discriminate.
      intros Hother. exfalso. apply (Hother 401%Z eq_refl). simpl. auto. }
    destruct (Z.eqb_spec status 429) as [->|H429].
    { eexists _, _. split; [reflexivity|]. simpl.
      repeat split; auto; try discriminate.
      intros Hother. exfalso. apply (Hother 429%Z eq_refl). simpl. auto. }
    destruct (Z.eqb_spec status 422) as [->|H422].
    { eexists _, _. split; [reflexivity|]. simpl.
      repeat split; auto; try discriminate.
      intros Hother. exfalso. apply (Hother 422%Z eq_refl). simpl. auto. }
    eexists _, _. split; [reflexivity|]. simpl.
    repeat split; auto; intros [= ->]; congruence.
  - eexists _, _. split; [reflexivity|]. simpl.
    repeat split; auto; discriminate.
Qed.

(** X14: a successful API answer becomes a result with the availability
    the API gave and the matching status, provider godaddy, and the price
    fields with their defaults -- no price for none or 0, USD for no
    currency, 1 for no period; the result is cached under the normalized
    domain for one default TTL, and exactly one request was made. *)
Theorem X14_api_success_is_cached (domain : string) (w : World) (data : ApiData) :
  fst (CacheService.get (trim (toLowerCase domain)) (now w) (cacheService w)) = None ->
  api_outcome (axios_get (trim (toLowerCase domain)) (now w)) = inl data ->
  exists r w',
    GoDaddyService.checkDomain axios_get domain w = (r, w') /\
    Result.domain r = trim (toLowerCase domain) /\
    Result.available r = Some (api_available data) /\
    Result.status r = (if api_available data then Available else Registered) /\
    Result.provider r = Some "godaddy" /\
    Result.fromCache r = false /\
    (exists p, Result.pricing r = Some p /\
       (price p = None <-> api_price data = None \/ api_price data = Some 0%Z) /\
       (api_currency data = None \/ api_currency data = Some "" -> currency p = "USD") /\
       (api_period data = None \/ api_period data = Some 0%Z -> period p = 1%Z)) /\
    trace w' = trace w ++ [ApiCall (trim (toLowerCase domain))] /\
    CacheService.cache (cacheService w') !! trim (toLowerCase domain) =
      Some {| CacheService.value := r;
              CacheService.expiry := (now w' + CacheService.ttl (cacheService w))%Z;
              CacheService.createdAt := now w' |}.
Proof.
  clear whois. intros Hmiss Hout. unfold GoDaddyService.checkDomain.
  destruct (CacheService.get (trim (toLowerCase domain)) (now w) (cacheService w))
    as [o c] eqn:Hget.
  simpl in Hmiss. subst o. simpl. rewrite Hout.
  apply get_absent in Hget. destruct Hget as (_ & _ & Httl & _).
  eexists _, _. split; [reflexivity|]. simpl.
  repeat (split; [reflexivity|]). split; [|split; [reflexivity|]].
  - eexists. split; [reflexivity|]. simpl. split; [|split].
    + destruct (api_price data) as [p|]; [|tauto].
      destruct (Z.eqb_spec p 0) as [->|Hp]; [tauto|].
      split; [discriminate|]. intros [H|H]; congruence.
    + intros [->| ->]; reflexivity.
    + intros [->| ->]; reflexivity.
  - unfold CacheService.set. simpl. rewrite lookup_insert_eq, Httl. reflexivity.
Qed.

Lemma api_success_entry (domain : string) (w : World) (data : ApiData) :
  fst (CacheService.get (trim (toLowerCase domain)) (now w) (cacheService w)) = None ->
  api_outcome (axios_get (trim (toLowerCase domain)) (now w)) = inl data ->
  CacheService.cache
    (cacheService (snd (GoDaddyService.checkDomain axios_get domain w)))
    !! trim (toLowerCase domain) =
    Some {| CacheService.value := fst (GoDaddyService.checkDomain axios_get domain w);
            CacheService.expiry :=
              (now w + api_elapsed (axios_get (trim (toLowerCase domain)) (now w))
               + CacheService.ttl (cacheService w))%Z;
            CacheService.createdAt :=
              (now w + api_elapsed (axios_get (trim (toLowerCase domain)) (now w)))%Z |}.
Proof.
  intros Hmiss Hout. unfold GoDaddyService.checkDomain.
  destruct (CacheService.get (trim (toLowerCase domain)) (now w) (cacheService w))
    as [o c] eqn:Hget.
  simpl in Hmiss. subst o. simpl. rewrite Hout.
  apply get_absent in Hget. destruct Hget as (_ & _ & Httl & _).
  simpl. unfold CacheService.set. simpl. rewrite lookup_insert_eq, Httl. reflexivity.
Qed.

(** X15: the two services share one cache: what the registrar-API
    service cached, the WHOIS service returns for any spelling of the
    domain with the same normalization, for as long as the entry lives
    -- marked as from the cache, still with provider godaddy and its
    price fields, and without a task for the scheduler or a call to the
    WHOIS transport. *)
Theorem X15_whois_serves_what_the_api_cached (domain domain' : string)
        (w : World) (data : ApiData) (t : Z) :
  fst (CacheService.get (trim (toLowerCase domain)) (now w) (cacheService w)) = None ->
  api_outcome (axios_get (trim (toLowerCase domain)) (now w)) = inl data ->
  trim (toLowerCase domain') = trim (toLowerCase domain) ->
  (t <= now w + api_elapsed (axios_get (trim (toLowerCase domain)) (now w))
        + CacheService.ttl (cacheService w))%Z ->
  WhoisService.checkDomain whois domain'
    (atTime t (snd (GoDaddyService.checkDomain axios_get domain w))) =
  (Returned (Result.withFromCache
               (fst (GoDaddyService.checkDomain axios_get domain w)) true),
   atTime t (snd (GoDaddyService.checkDomain axios_get domain w))).
Proof.
  intros Hmiss Hout Hsame Hlive.
  pose proof (api_success_entry domain w data Hmiss Hout) as Hentry.
  rewrite <- Hsame in Hentry at 1.
  exact (checkDomain_hit whois domain'
           (atTime t (snd (GoDaddyService.checkDomain axios_get domain w)))
           _ Hentry Hlive).
Qed.

End GoDaddyMore.

Lemma X13_api_failures_by_status_witness :
  exists r w',
    GoDaddyService.checkDomain apiUnauthorized "Example.com"
      (initialWorld 86400000 2000 1000) = (r, w') /\
    Result.status r = Error /\
    Result.error r = Some message401 /\
    cacheService w' = cacheService (initialWorld 86400000 2000 1000).
Proof.
  destruct (X13_api_failures_by_status apiUnauthorized "Example.com"
              (initialWorld 86400000 2000 1000)
              {| response_status := Some 401%Z;
                 api_message := "Request failed with status code 401" |}
              eq_refl eq_refl)
    as (r & w' & Hrun & Hstatus & _ & _ & _ & _ & H401 & _ & _ & _ & _ & _ & Hcache).
  exists r, w'. split; [exact Hrun|]. split; [exact Hstatus|].
  split; [exact (H401 eq_refl) | exact Hcache].
Defined.

Lemma X14_api_success_is_cached_witness :
  exists r w',
    GoDaddyService.checkDomain (apiBare true) "Example.com"
      (initialWorld 86400000 2000 1000) = (r, w') /\
    Result.status r = Available /\
    Result.pricing r = Some {| price := None; currency := "USD"; period := 1 |}.
Proof.
  destruct (X14_api_success_is_cached (apiBare true) "Example.com"
              (initialWorld 86400000 2000 1000)
              {| api_available := true; api_price := None;
                 api_currency := None; api_period := None |}
              eq_refl eq_refl)
    as (r & w' & Hrun & _ & _ & Hstatus & _).
  exists r, w'. split; [exact Hrun|]. split; [exact Hstatus|].
  injection Hrun as <- _. reflexivity.
Defined.

Lemma X15_whois_serves_what_the_api_cached_witness :
  fst (WhoisService.checkDomain whoisRefusing " EXAMPLE.com"
         (atTime 5000
            (snd (GoDaddyService.checkDomain (apiBare false) "Example.com"
                    (initialWorld 86400000 2000 1000))))) =
  Returned
    (Result.withFromCache
       (fst (GoDaddyService.checkDomain (apiBare false) "Example.com"
               (initialWorld 86400000 2000 1000))) true).
Proof.
  rewrite (X15_whois_serves_what_the_api_cached whoisRefusing (apiBare false)
             "Example.com" " EXAMPLE.com" (initialWorld 86400000 2000 1000)
             {| api_available := false; api_price := None;
                api_currency := None; api_period := None |} 5000
             eq_refl eq_refl eq_refl).
  - reflexivity.
  - vm_compute. discriminate.
Defined.

(** ** The summary of a batch *)

Lemma consistent_one_bucket (r : Result.t) :
  Result.consistent r ->
  ((if isAvailableTrue r then 1 else 0) + (if isAvailableFalse r then 1 else 0) +
   (if isStatusError r then 1 else 0) = 1)%nat.
Proof.
  unfold Result.consistent, isAvailableTrue, isAvailableFalse, isStatusError.
  intros (Ha & Hr & He).
  destruct (Result.available r) as [[]|], (Result.status r);
    try reflexivity; exfalso;
    try (destruct Ha as [Ha1 Ha2]; first [discriminate (Ha1 eq_refl) | discriminate (Ha2 eq_refl)]);
    try (destruct Hr as [Hr1 Hr2]; first [discriminate (Hr1 eq_refl) | discriminate (Hr2 eq_refl)]);
    try discriminate (He eq_refl).
Qed.

(** X16: the three counts of the summary of a batch -- available,
    registered, errors -- add up to the number of results when the
    results are consistent, as those of the services are: every result
    is counted once. *)
Theorem X16_summary_counts_every_result_once (results : list Result.t) :
  Forall Result.consistent results ->
  (summary_available (summary results) + summary_registered (summary results) +
   summary_errors (summary results) = length results)%nat.
Proof.
  induction 1 as [|r results Hr _ IH]; [reflexivity|].
  pose proof (consistent_one_bucket r Hr) as Hone.
  unfold summary in *. simpl in *.
  destruct (isAvailableTrue r), (isAvailableFalse r), (isStatusError r);
    simpl in *; lia.
Qed.

Lemma X16_summary_counts_every_result_once_witness :
  summary threeResults =
    {| summary_available := 1; summary_registered := 1; summary_errors := 1 |} /\
  (summary_available (summary threeResults) +
   summary_registered (summary threeResults) +
   summary_errors (summary threeResults) = 3)%nat.
Proof.
  split; [reflexivity|].
  apply (X16_summary_counts_every_result_once threeResults).
  repeat constructor; first [apply consistent_fresh | apply consistent_error].
Defined.

(** ** Domain lists *)

Lemma dead_not_nullable (r : Regex.t) :
  dead r = true -> Regex.nullable r = false.
Proof.
  induction r as [| | m | r1 IH1 r2 IH2 | r1 IH1 r2 IH2 | r1 IH1];
    simpl; intros H; try discriminate; try reflexivity.
  - apply orb_true_iff in H. destruct H as [H|H].
    + rewrite (IH1 H). reflexivity.
    + rewrite (IH2 H). apply andb_false_r.
  - apply andb_true_iff in H. destruct H as [H1 H2].
    rewrite (IH1 H1), (IH2 H2). reflexivity.
Qed.

Lemma dead_deriv (c : ascii) (r : Regex.t) :
  dead r = true -> dead (Regex.deriv c r) = true.
Proof.
  induction r as [| | m | r1 IH1 r2 IH2 | r1 IH1 r2 IH2 | r1 IH1];
    simpl; intros H; try discriminate; try reflexivity.
  - apply orb_true_iff in H. destruct H as [H|H].
    + rewrite (dead_not_nullable r1 H). simpl. rewrite (IH1 H). reflexivity.
    + destruct (Regex.nullable r1); simpl; rewrite ?(IH2 H), H;
        rewrite ?orb_true_r; reflexivity.
  - apply andb_true_iff in H. destruct H as [H1 H2].
    rewrite (IH1 H1), (IH2 H2). reflexivity.
Qed.

Lemma dead_no_match (r : Regex.t) (s : string) :
  dead r = true -> Regex.test r s = false.
Proof.
  revert r. induction s as [|c s IH]; intros r Hdead; simpl.
  - apply dead_not_nullable. exact Hdead.
  - apply IH. apply dead_deriv. exact Hdead.
Qed.

(** A unit outside the classes of an expression kills its derivative. *)
Lemma deriv_outside (P : ascii -> bool) (c : ascii) (r : Regex.t) :
  within P r -> P c = false -> dead (Regex.deriv c r) = true.
Proof.
  intros Hr Hc.
  induction r as [| | m | r1 IH1 r2 IH2 | r1 IH1 r2 IH2 | r1 IH1];
    simpl in *; try reflexivity.
  - destruct (m c) eqn:Hm; [|reflexivity].
    rewrite (Hr c Hm) in Hc. discriminate.
  - destruct Hr as [H1 H2].
    destruct (Regex.nullable r1); simpl; rewrite (IH1 H1), ?(IH2 H2); reflexivity.
  - destruct Hr as [H1 H2]. rewrite (IH1 H1), (IH2 H2). reflexivity.
  - rewrite (IH1 Hr). reflexivity.
Qed.

Lemma within_deriv (P : ascii -> bool) (c : ascii) (r : Regex.t) :
  within P r -> within P (Regex.deriv c r).
Proof.
  induction r as [| | m | r1 IH1 r2 IH2 | r1 IH1 r2 IH2 | r1 IH1];
    simpl; intros Hr; auto.
  - destruct (m c); exact I.
  - destruct Hr as [H1 H2]. destruct (Regex.nullable r1); simpl; auto.
  - destruct Hr as [H1 H2]. auto.
Qed.

(** What an expression matches is made of units of its classes. *)
Lemma test_within (P : ascii -> bool) (s : string) (r : Regex.t) :
  within P r -> Regex.test r s = true -> allUnits P s.
Proof.
  revert r. induction s as [|c s IH]; intros r Hr Ht; [exact I|].
  simpl in Ht |- *. split.
  - destruct (P c) eqn:Hc; [reflexivity|].
    rewrite (dead_no_match _ s (deriv_outside P c r Hr Hc)) in Ht. discriminate.
  - exact (IH _ (within_deriv P c r Hr) Ht).
Qed.

Lemma domainPattern_within : within nameUnit FileParser.domainPattern.
Proof.
  simpl. repeat split; intros c H; unfold nameUnit;
    first [ rewrite H | unfold FileParser.alnumHyphen; rewrite H ];
    rewrite ?orb_true_r; reflexivity.
Qed.

Lemma valid_units (domain : string) :
  FileParser.isValidDomainName domain = true -> allUnits nameUnit domain.
Proof.
  unfold FileParser.isValidDomainName.
  destruct (String.length domain =? 0)%nat; [discriminate|].
  rewrite !andb_true_iff. intros [[[[Ht _] _] _] _].
  exact (test_within nameUnit domain _ domainPattern_within Ht).
Qed.

Lemma nameUnit_plain (c : ascii) :
  nameUnit c = true ->
  isWhiteSpace c = false /\ c <> "/"%char /\ c <> "?"%char /\ c <> ":"%char.
Proof.
  destruct c as [[] [] [] [] [] [] [] []]; vm_compute; intros H;
    try discriminate H; repeat split; discriminate.
Qed.

Lemma allLower_toLowerCase (s : string) : allLower (toLowerCase s).
Proof.
  induction s as [|c s IH]; [exact I|].
  simpl. split; [apply toLowerCaseUnit_idempotent | exact IH].
Qed.

Lemma allLower_fixed (s : string) : allLower s -> toLowerCase s = s.
Proof.
  induction s as [|c s IH]; [reflexivity|].
  simpl. intros [Hc Hs]. rewrite Hc, (IH Hs). reflexivity.
Qed.

Lemma allLower_drop (n : nat) (s : string) : allLower s -> allLower (drop n s).
Proof.
  revert s. induction n as [|n IH]; intros s Hs; [exact Hs|].
  destruct s as [|c s]; [exact I|]. simpl. apply IH. exact (proj2 Hs).
Qed.

Lemma allLower_removeLast (s : string) :
  allLower s -> allLower (DomainsFile.removeLast s).
Proof.
  induction s as [|c s IH]; [auto|].
  intros [Hc Hs]. simpl. destruct s as [|a r]; [exact I|].
  split; [exact Hc | exact (IH Hs)].
Qed.

Lemma allLower_upTo (sep : ascii) (s : string) :
  allLower s -> allLower (DomainsFile.upTo sep s).
Proof.
  induction s as [|c s IH]; [auto|].
  intros [Hc Hs]. simpl. destruct (Ascii.eqb c sep); [exact I|].
  split; [exact Hc | exact (IH Hs)].
Qed.

Lemma allLower_trim (s : string) : allLower s -> allLower (trim s).
Proof.
  intros Hs. apply allLower_fixed in Hs.
  rewrite <- Hs, <- toLowerCase_trim. apply allLower_toLowerCase.
Qed.

Lemma allLower_clean_tail (s : string) :
  allLower s ->
  allLower (DomainsFile.upTo "?"%char
              (DomainsFile.upTo "/"%char
                 (DomainsFile.stripFinalSlash
                    (DomainsFile.stripWww (DomainsFile.stripProtocol s))))).
Proof.
  intros Hs. apply allLower_upTo, allLower_upTo.
  unfold DomainsFile.stripFinalSlash, DomainsFile.stripWww, DomainsFile.stripProtocol.
  repeat match goal with
         | |- context [if ?b then _ else _] => destruct b
         end;
    repeat first [ apply allLower_removeLast | apply allLower_drop ]; exact Hs.
Qed.

Lemma allLower_cleanDomainName (line : string) :
  allLower (DomainsFile.cleanDomainName line).
Proof.
  unfold DomainsFile.cleanDomainName. apply allLower_clean_tail.
  apply allLower_trim, allLower_toLowerCase.
Qed.

Lemma trimEnd_units (s : string) :
  allUnits (fun c => negb (isWhiteSpace c)) s -> trimEnd s = s.
Proof.
  induction s as [|c s IH]; [reflexivity|].
  intros [Hc Hs]. simpl. rewrite (IH Hs).
  destruct s; [|reflexivity].
  apply negb_true_iff in Hc. rewrite Hc. reflexivity.
Qed.

Lemma trim_units (s : string) :
  allUnits (fun c => negb (isWhiteSpace c)) s -> trim s = s.
Proof.
  intros Hs. unfold trim.
  rewrite (trimStart_of_clean s).
  - apply trimEnd_units. exact Hs.
  - destruct s as [|c s]; [exact I|]. simpl. apply negb_true_iff. exact (proj1 Hs).
Qed.

Lemma allUnits_weaken (P Q : ascii -> bool) (s : string) :
  (forall c, P c = true -> Q c = true) -> allUnits P s -> allUnits Q s.
Proof.
  intros HPQ. induction s as [|c s IH]; [auto|].
  intros [Hc Hs]. split; [apply HPQ; exact Hc | exact (IH Hs)].
Qed.

Lemma name_is_normalized (domain : string) :
  allUnits nameUnit domain -> allLower domain ->
  trim (toLowerCase domain) = domain.
Proof.
  intros Hu Hl. rewrite (allLower_fixed _ Hl). apply trim_units.
  eapply allUnits_weaken; [|exact Hu].
  intros c Hc. apply negb_true_iff. exact (proj1 (nameUnit_plain c Hc)).
Qed.

Lemma distinctFrom_In (seen l : list string) (x : string) :
  In x (DomainsFile.distinctFrom seen l) <-> In x l /\ ~ In x seen.
Proof.
  revert seen. induction l as [|y l IH]; intros seen; simpl; [tauto|].
  destruct (existsb (String.eqb y) seen) eqn:Hy.
  - apply existsb_exists in Hy. destruct Hy as (z & Hz & Heq).
    apply String.eqb_eq in Heq. subst z.
    rewrite IH. split.
    + intros [H1 H2]. auto.
    + intros [[->|H1] H2]; [contradiction | auto].
  - assert (Hny : ~ In y seen).
    { intros Hin. assert (existsb (String.eqb y) seen = true)
        by (apply existsb_exists; exists y; split; [exact Hin | apply String.eqb_refl]).
      congruence. }
    simpl. rewrite IH. simpl. split.
    + intros [->|[H1 H2]]; [auto|]. split; [auto|]. intros H. apply H2. auto.
    + intros [[->|H1] H2]; [auto|].
      destruct (String.eqb_spec y x) as [->|Hne]; [auto|].
      right. split; [exact H1|]. intros [H|H]; [congruence | contradiction].
Qed.

Lemma distinctFrom_NoDup (seen l : list string) :
  List.NoDup (DomainsFile.distinctFrom seen l).
Proof.
  revert seen. induction l as [|y l IH]; intros seen; simpl; [constructor|].
  destruct (existsb (String.eqb y) seen); [apply IH|].
  constructor; [|apply IH].
  rewrite distinctFrom_In. intros [_ H]. apply H. simpl. auto.
Qed.

(** X17: every name [parseDomainsFile] returns passes
    [isValidDomainName], is made of lower-case letters, digits, hyphens
    and dots only, and is its own normalized form, so that it is also the
    key a resolution caches it under; no name is returned twice, and an
    empty file gives no name. *)
Theorem X17_parsed_names_are_valid_and_normalized (fileContent : string) :
  List.NoDup (DomainsFile.parseDomainsFile fileContent) /\
  (forall domain,
      In domain (DomainsFile.parseDomainsFile fileContent) ->
      FileParser.isValidDomainName domain = true /\
      allUnits nameUnit domain /\ allLower domain /\
      trim (toLowerCase domain) = domain) /\
  DomainsFile.parseDomainsFile "" = [].
Proof.
  unfold DomainsFile.parseDomainsFile.
  destruct (String.length fileContent =? 0)%nat.
  { split; [constructor|]. split; [intros d []| reflexivity]. }
  unfold DomainsFile.parseLines, DomainsFile.distinct.
  split; [apply distinctFrom_NoDup|]. split; [|reflexivity].
  intros domain Hin. apply distinctFrom_In in Hin. destruct Hin as [Hin _].
  apply List.filter_In in Hin. destruct Hin as [Hin Hvalid].
  apply List.in_map_iff in Hin. destruct Hin as (line & <- & _).
  pose proof (valid_units _ Hvalid) as Hunits.
  pose proof (allLower_cleanDomainName line) as Hlower.
  repeat split; auto. apply name_is_normalized; assumption.
Qed.

(** X18: the parser of the client and the parser of the server agree
    on every file content: the client trims each line before it cleans
    it, which makes up for the [trim] its cleaning function lacks. *)
Theorem X18_client_and_server_parse_alike (content : string) :
  FileHandler.parseDomains content = DomainsFile.parseDomainsFile content.
Proof.
  unfold DomainsFile.parseDomainsFile.
  destruct content as [|c content]; [reflexivity|].
  simpl (String.length (String c content) =? 0)%nat. cbv iota.
  unfold FileHandler.parseDomains, DomainsFile.parseLines.
  f_equal.
  change FileHandler.isValidDomain with FileParser.isValidDomainName.
  f_equal. apply List.map_ext_in. intros line Hin.
  apply List.filter_In in Hin. destruct Hin as [Hin _].
  apply List.filter_In in Hin. destruct Hin as [Hin _].
  apply List.in_map_iff in Hin. destruct Hin as (x & <- & _).
  unfold FileHandler.cleanDomain, DomainsFile.cleanDomainName.
  rewrite toLowerCase_trim, trim_idempotent. reflexivity.
Qed.

Lemma startsWith_units (P : ascii -> bool) (p s : string) :
  startsWith s p = true -> allUnits P s -> allUnits P p.
Proof.
  revert s. induction p as [|b p IH]; intros s Hs Hu; [exact I|].
  destruct s as [|a s]; [discriminate|]. simpl in Hs.
  apply andb_true_iff in Hs. destruct Hs as [Hab Hs].
  apply Ascii.eqb_eq in Hab. subst b.
  destruct Hu as [Ha Hu]. split; [exact Ha | exact (IH s Hs Hu)].
Qed.

Lemma allUnits_app (P : ascii -> bool) (a b : string) :
  allUnits P (a +:+ b) -> allUnits P b.
Proof.
  induction a as [|c a IH]; [auto|].
  rewrite append_cons. intros [_ H]. exact (IH H).
Qed.

Lemma upTo_absent (sep : ascii) (s : string) :
  allUnits (fun c => negb (Ascii.eqb c sep)) s -> DomainsFile.upTo sep s = s.
Proof.
  induction s as [|c s IH]; [reflexivity|].
  intros [Hc Hs]. simpl. apply negb_true_iff in Hc. rewrite Hc, (IH Hs). reflexivity.
Qed.

Lemma clean_name_fixed (domain : string) :
  FileParser.isValidDomainName domain = true ->
  allLower domain ->
  startsWith domain "www." = false ->
  DomainsFile.cleanDomainName domain = domain.
Proof.
  intros Hvalid Hlower Hwww.
  pose proof (valid_units _ Hvalid) as Hu.
  unfold DomainsFile.cleanDomainName.
  rewrite (name_is_normalized _ Hu Hlower).
  unfold DomainsFile.stripProtocol.
  destruct (startsWith domain "http://") eqn:H1.
  { pose proof (startsWith_units nameUnit _ _ H1 Hu) as H. simpl in H.
    destruct H as (_ & _ & _ & _ & H & _). discriminate H. }
  destruct (startsWith domain "https://") eqn:H2.
  { pose proof (startsWith_units nameUnit _ _ H2 Hu) as H. simpl in H.
    destruct H as (_ & _ & _ & _ & _ & H & _). discriminate H. }
  unfold DomainsFile.stripWww. rewrite Hwww.
  unfold DomainsFile.stripFinalSlash.
  destruct (endsWith domain "/") eqn:H3.
  { apply endsWith_spec in H3. destruct H3 as [pre ->].
    apply allUnits_app in Hu. simpl in Hu. destruct Hu as [H _]. discriminate H. }
  rewrite (upTo_absent "/"%char domain).
  - apply upTo_absent. eapply allUnits_weaken; [|exact Hu].
    intros c Hc. apply negb_true_iff, Ascii.eqb_neq.
    exact (proj1 (proj2 (proj2 (nameUnit_plain c Hc)))).
  - eapply allUnits_weaken; [|exact Hu].
    intros c Hc. apply negb_true_iff, Ascii.eqb_neq.
    exact (proj1 (proj2 (nameUnit_plain c Hc))).
Qed.

(** X19: cleaning leaves a clean name alone: a name that passes
    [isValidDomainName], is in lower case and does not begin with
    [www.] is returned unchanged by [cleanDomainName]. *)
Theorem X19_cleaning_keeps_a_clean_name (domain : string) :
  FileParser.isValidDomainName domain = true ->
  allLower domain ->
  startsWith domain "www." = false ->
  DomainsFile.cleanDomainName domain = domain.
Proof. exact (clean_name_fixed domain). Qed.

Lemma X19_cleaning_keeps_a_clean_name_witness :
  DomainsFile.cleanDomainName "foo-bar.example.cl" = "foo-bar.example.cl".
Proof.
  apply X19_cleaning_keeps_a_clean_name.
  - reflexivity.
  - simpl. repeat split.
  - reflexivity.
Defined.

Lemma includes_startsWith (s p : string) :
  startsWith s p = true -> includes s p = true.
Proof. intros H. destruct s; simpl in *; rewrite H; reflexivity. Qed.

Lemma includes_append (a b p : string) :
  includes b p = true -> includes (a +:+ b) p = true.
Proof.
  intros H. induction a as [|c a IH]; [exact H|].
  rewrite append_cons. simpl. rewrite IH. apply orb_true_r.
Qed.

Lemma withDot_includes (baseName ext : string) :
  includes (baseName +:+ DomainsFile.withDot ext) "." = true.
Proof.
  apply includes_append, includes_startsWith. unfold DomainsFile.withDot.
  destruct (startsWith ext ".") eqn:H; [exact H|].
  rewrite append_cons, append_nil. destruct ext; reflexivity.
Qed.

Lemma combine_dotted (names extensions : list string) :
  Forall (fun name => includes name "." = true) names ->
  DomainsFile.combineDomainsWithExtensions names extensions = names.
Proof.
  unfold DomainsFile.combineDomainsWithExtensions.
  induction 1 as [|name names Hname _ IH]; [reflexivity|].
  simpl. rewrite Hname, IH. reflexivity.
Qed.

Lemma combine_all_dotted (names extensions : list string) :
  Forall (fun name => includes name "." = true)
         (DomainsFile.combineDomainsWithExtensions names extensions).
Proof.
  unfold DomainsFile.combineDomainsWithExtensions.
  induction names as [|name names IH]; simpl; [constructor|].
  apply Forall_app. split; [|exact IH].
  destruct (includes name ".") eqn:Hn.
  - constructor; [exact Hn | constructor].
  - apply Forall_forall. intros d Hd.
    apply list_elem_of_In, List.in_map_iff in Hd. destruct Hd as (ext & <- & _).
    apply withDot_includes.
Qed.

(** X20: every domain [combineDomainsWithExtensions] returns has a dot
    in it; a base name with a dot is passed on as it is, and one without
    gives one domain per extension, so the count is the number of dotted
    names plus the number of the others times the number of extensions
    -- with no extension the names without a dot are dropped; combining
    once more, with any extensions, changes nothing. *)
Theorem X20_combining_with_extensions (baseNames extensions : list string) :
  Forall (fun domain => includes domain "." = true)
         (DomainsFile.combineDomainsWithExtensions baseNames extensions) /\
  length (DomainsFile.combineDomainsWithExtensions baseNames extensions) =
    (length (List.filter (fun name => includes name ".") baseNames) +
     length (List.filter (fun name => negb (includes name ".")) baseNames) *
     length extensions)%nat /\
  DomainsFile.combineDomainsWithExtensions baseNames [] =
    List.filter (fun name => includes name ".") baseNames /\
  (forall extensions',
      DomainsFile.combineDomainsWithExtensions
        (DomainsFile.combineDomainsWithExtensions baseNames extensions)
        extensions' =
      DomainsFile.combineDomainsWithExtensions baseNames extensions).
Proof.
  split; [apply combine_all_dotted|]. split; [|split].
  - unfold DomainsFile.combineDomainsWithExtensions.
    induction baseNames as [|name names IH]; [reflexivity|].
    simpl. rewrite length_app, IH.
    destruct (includes name "."); simpl; rewrite ?length_map; lia.
  - unfold DomainsFile.combineDomainsWithExtensions.
    induction baseNames as [|name names IH]; [reflexivity|].
    cbn [flat_map]. rewrite IH. simpl. destruct (includes name "."); reflexivity.
  - intros extensions'. apply combine_dotted, combine_all_dotted.
Qed.

Lemma distinct_keeps (l : list string) (x : string) :
  In x l -> In x (DomainsFile.distinct l).
Proof.
  intros H. unfold DomainsFile.distinct. apply distinctFrom_In.
  split; [exact H | intros []].
Qed.

Lemma startsWith_hash_lower (s : string) :
  startsWith s "#" = true -> startsWith (toLowerCase s) "#" = true.
Proof.
  destruct s as [|c s]; [discriminate|].
  simpl. intros H. apply andb_true_iff in H. destruct H as [H _].
  apply Ascii.eqb_eq in H. subst c. destruct s; reflexivity.
Qed.

(** X21: a line of the file that is a domain name up to case and
    surrounding white space is found: when the trimmed, lower-case line
    passes [isValidDomainName] and does not begin with [www.], that name
    is among the parsed domains, and [validateFileContent] accepts the
    file with the parsed domains and their count. *)
Theorem X21_name_lines_are_found (fileContent line : string) :
  In line (DomainsFile.splitLines fileContent) ->
  FileParser.isValidDomainName (trim (toLowerCase line)) = true ->
  startsWith (trim (toLowerCase line)) "www." = false ->
  In (trim (toLowerCase line)) (DomainsFile.parseDomainsFile fileContent) /\
  DomainsFile.validateFileContent fileContent =
    inr (length (DomainsFile.parseDomainsFile fileContent),
         DomainsFile.parseDomainsFile fileContent).
Proof.
  intros Hline Hvalid Hwww.
  set (d := trim (toLowerCase line)) in *.
  assert (Hlower : allLower d) by (apply allLower_trim, allLower_toLowerCase).
  assert (Hunits : allUnits nameUnit d) by (apply valid_units; exact Hvalid).
  assert (Hd : toLowerCase (trim line) = d) by apply toLowerCase_trim.
  assert (Hfound : In d (DomainsFile.parseDomainsFile fileContent)).
  { unfold DomainsFile.parseDomainsFile.
    destruct fileContent as [|c0 content].
    { simpl in Hline. destruct Hline as [<-|[]]. discriminate Hvalid. }
    simpl (String.length (String c0 content) =? 0)%nat. cbv iota.
    unfold DomainsFile.parseLines. apply distinct_keeps.
    apply List.filter_In. split; [|exact Hvalid].
    apply List.in_map_iff. exists (trim line). split.
    - unfold DomainsFile.cleanDomainName.
      rewrite toLowerCase_trim, trim_idempotent. fold d.
      rewrite <- (name_is_normalized d Hunits Hlower) at 1.
      exact (clean_name_fixed d Hvalid Hlower Hwww).
    - apply List.filter_In. split.
      + apply List.filter_In. split.
        * apply List.in_map. exact Hline.
        * destruct (trim line) eqn:Ht; [|reflexivity].
          simpl in Hd. rewrite <- Hd in Hvalid. discriminate Hvalid.
      + apply negb_true_iff.
        destruct (startsWith (trim line) "#") eqn:Hhash; [|reflexivity].
        apply startsWith_hash_lower in Hhash. rewrite Hd in Hhash.
        pose proof (startsWith_units nameUnit _ _ Hhash Hunits) as H.
        simpl in H. destruct H as [H _]. discriminate H. }
  split; [exact Hfound|].
  unfold DomainsFile.validateFileContent.
  destruct (String.length fileContent =? 0)%nat eqn:Hlen.
  - unfold DomainsFile.parseDomainsFile in Hfound. rewrite Hlen in Hfound.
    destruct Hfound.
  - destruct (DomainsFile.parseDomainsFile fileContent) as [|d0 ds];
      [destruct Hfound | reflexivity].
Qed.

Lemma X21_name_lines_are_found_witness :
  In "example.com" (DomainsFile.parseDomainsFile exampleFile) /\
  DomainsFile.validateFileContent exampleFile =
    inr (length (DomainsFile.parseDomainsFile exampleFile),
         DomainsFile.parseDomainsFile exampleFile).
Proof.
  apply (X21_name_lines_are_found exampleFile "Example.COM").
  - vm_compute. right. left. reflexivity.
  - reflexivity.
  - reflexivity.
Defined.

(** ** The pattern of domain names *)

Lemma nullable_matches (r : Regex.t) :
  Regex.nullable r = true -> matches r "".
Proof.
  induction r as [| | m | r1 IH1 r2 IH2 | r1 IH1 r2 IH2 | r1 IH1];
    simpl; intros H; try discriminate.
  - constructor.
  - apply andb_true_iff in H. destruct H as [H1 H2].
    exact (MSeq r1 r2 "" "" (IH1 H1) (IH2 H2)).
  - apply orb_true_iff in H. destruct H as [H|H].
    + apply MAltL. exact (IH1 H).
    + apply MAltR. exact (IH2 H).
  - constructor.
Qed.

Lemma deriv_matches (c : ascii) (r : Regex.t) (s : string) :
  matches (Regex.deriv c r) s -> matches r (String c s).
Proof.
  revert s.
  induction r as [| | m | r1 IH1 r2 IH2 | r1 IH1 r2 IH2 | r1 IH1];
    simpl; intros s H.
  - inversion H.
  - inversion H.
  - destruct (m c) eqn:Hm; inversion H; subst. constructor. exact Hm.
  - destruct (Regex.nullable r1) eqn:Hn.
    + inversion H as [ | | | ? ? ? HL | ? ? ? HR | | ]; subst.
      * inversion HL as [ | | ? ? s1 s2 H1 H2 | | | | ]; subst.
        exact (MSeq r1 r2 (String c s1) s2 (IH1 s1 H1) H2).
      * exact (MSeq r1 r2 "" (String c s) (nullable_matches r1 Hn) (IH2 s HR)).
    + inversion H as [ | | ? ? s1 s2 H1 H2 | | | | ]; subst.
      exact (MSeq r1 r2 (String c s1) s2 (IH1 s1 H1) H2).
  - inversion H as [ | | | ? ? ? HL | ? ? ? HR | | ]; subst.
    + apply MAltL. exact (IH1 s HL).
    + apply MAltR. exact (IH2 s HR).
  - inversion H as [ | | ? ? s1 s2 H1 H2 | | | | ]; subst.
    exact (MStarCons r1 (String c s1) s2 (IH1 s1 H1) H2).
Qed.

(** What [test] accepts, the expression stands for. *)
Lemma test_matches (s : string) (r : Regex.t) :
  Regex.test r s = true -> matches r s.
Proof.
  revert r. induction s as [|c s IH]; intros r H; simpl in H.
  - apply nullable_matches. exact H.
  - apply deriv_matches, IH. exact H.
Qed.

Lemma append_empty_r (s : string) : s +:+ "" = s.
Proof.
  induction s as [|c s IH]; [reflexivity|].
  rewrite append_cons, IH. reflexivity.
Qed.

Lemma headIs_app (P : ascii -> bool) (a b : string) :
  headIs P a = true -> headIs P (a +:+ b) = true.
Proof. destruct a as [|c a]; [discriminate|]. rewrite append_cons. auto. Qed.

Lemma lastIs_app (P : ascii -> bool) (a b : string) :
  lastIs P b = true -> lastIs P (a +:+ b) = true.
Proof.
  intros Hb. induction a as [|c a IH]; [exact Hb|].
  rewrite append_cons. simpl.
  destruct (a +:+ b); [discriminate IH | exact IH].
Qed.

Lemma lastIs_snoc (P : ascii -> bool) (a : string) (c : ascii) :
  lastIs P (a +:+ String c "") = P c.
Proof.
  induction a as [|x a IH]; [reflexivity|].
  rewrite append_cons. simpl.
  destruct (a +:+ String c "") eqn:Ha; [|exact IH].
  destruct a; discriminate Ha.
Qed.

Lemma alnum_not_dot (c : ascii) :
  FileParser.alnumHyphen c = true -> FileParser.dot c = false.
Proof.
  destruct c as [[] [] [] [] [] [] [] []]; vm_compute; intros H;
    try discriminate H; reflexivity.
Qed.

Lemma alnum_not_hyphen (c : ascii) :
  FileParser.alnum c = true ->
  FileParser.alnumHyphen c = true /\ Ascii.eqb c "-"%char = false.
Proof.
  destruct c as [[] [] [] [] [] [] [] []]; vm_compute; intros H;
    try discriminate H; split; reflexivity.
Qed.

Lemma headIs_weaken (P Q : ascii -> bool) (s : string) :
  (forall c, P c = true -> Q c = false) -> headIs P s = true -> headIs Q s = false.
Proof. intros HPQ. destruct s as [|c s]; [reflexivity | apply HPQ]. Qed.

Lemma lastIs_weaken (P Q : ascii -> bool) (s : string) :
  (forall c, P c = true -> Q c = false) -> lastIs P s = true -> lastIs Q s = false.
Proof.
  intros HPQ. induction s as [|c s IH]; [reflexivity|].
  simpl. destruct s; [apply HPQ | exact IH].
Qed.

Lemma alnum_is_no_dot (c : ascii) :
  FileParser.alnum c = true -> FileParser.dot c = false.
Proof. intros H. apply alnum_not_dot, alnum_not_hyphen, H. Qed.

Lemma dotsApart_app (a b : string) :
  dotsApart a = true -> dotsApart b = true ->
  lastIs FileParser.dot a && headIs FileParser.dot b = false ->
  dotsApart (a +:+ b) = true.
Proof.
  induction a as [|c a IH]; [auto|].
  rewrite append_cons. intros Ha Hb Hjoin.
  simpl in Ha. apply andb_true_iff in Ha. destruct Ha as [Hc Ha].
  destruct a as [|x a].
  - rewrite append_nil. simpl in *. rewrite Hjoin, Hb. reflexivity.
  - change (dotsApart (String c (String x a +:+ b)))
      with (negb (FileParser.dot c && headIs FileParser.dot (String x a +:+ b)) &&
            dotsApart (String x a +:+ b)).
    rewrite (IH Ha Hb Hjoin), andb_true_r.
    rewrite append_cons. exact Hc.
Qed.

Lemma dotless_dotsApart (s : string) :
  allUnits FileParser.alnumHyphen s -> dotsApart s = true.
Proof.
  induction s as [|c s IH]; [reflexivity|].
  intros [Hc Hs]. simpl. rewrite (alnum_not_dot c Hc), (IH Hs). reflexivity.
Qed.

Lemma allUnits_append (P : ascii -> bool) (a b : string) :
  allUnits P a -> allUnits P b -> allUnits P (a +:+ b).
Proof.
  induction a as [|c a IH]; [auto|].
  rewrite append_cons. intros [Hc Ha] Hb. split; [exact Hc | exact (IH Ha Hb)].
Qed.

Lemma star_class_units (P : ascii -> bool) (r : Regex.t) (s : string) :
  matches r s -> r = Regex.Star (Regex.Class P) -> allUnits P s.
Proof.
  induction 1 as [ | | | | | r | r s1 s2 H1 _ H2 IH2]; intros Hr;
    try discriminate Hr.
  - exact I.
  - injection Hr as ->. apply allUnits_append; [|exact (IH2 eq_refl)].
    inversion H1; subst. split; [assumption | exact I].
Qed.

(** A label begins and ends with a letter or a digit and holds no dot. *)
Lemma label_shape (s : string) :
  matches FileParser.label s ->
  headIs FileParser.alnum s = true /\ lastIs FileParser.alnum s = true /\
  dotsApart s = true.
Proof.
  unfold FileParser.label, Regex.Opt. intros H.
  inversion H as [ | | ? ? s1 s2 H1 H2 | | | | ]; subst.
  inversion H1 as [ | ? a Ha | | | | | ]; subst.
  rewrite append_cons, append_nil.
  inversion H2 as [ | | | ? ? ? HL | ? ? ? HR | | ]; subst.
  - inversion HL as [ | | ? ? s3 s4 H3 H4 | | | | ]; subst.
    inversion H4 as [ | ? b Hb | | | | | ]; subst.
    pose proof (star_class_units _ _ _ H3 eq_refl) as Hmid.
    split; [exact Ha|]. split.
    + change (String a (s3 +:+ String b "")) with (String a s3 +:+ String b "").
      rewrite lastIs_snoc. exact Hb.
    + apply dotless_dotsApart. split; [apply alnum_not_hyphen, Ha|].
      apply allUnits_append; [exact Hmid|].
      split; [apply alnum_not_hyphen, Hb | exact I].
  - inversion HR; subst. simpl. rewrite Ha, (alnum_is_no_dot a Ha). auto.
Qed.

(** The dotted labels after the first: nothing, or a string that ends
    with a letter or a digit and has its dots apart. *)
Lemma tail_shape (r : Regex.t) (s : string) :
  matches r s ->
  r = Regex.Star (Regex.Seq (Regex.Class FileParser.dot) FileParser.label) ->
  s = "" \/ (lastIs FileParser.alnum s = true /\ dotsApart s = true).
Proof.
  induction 1 as [ | | | | | r | r s1 s2 H1 _ H2 IH2]; intros Hr;
    try discriminate Hr.
  - left. reflexivity.
  - injection Hr as ->. right.
    inversion H1 as [ | | ? ? s3 s4 H3 H4 | | | | ]; subst.
    inversion H3 as [ | ? c Hc | | | | | ]; subst.
    destruct (label_shape s4 H4) as (Hhead & Hlast & Hdots).
    assert (Hone : lastIs FileParser.alnum (String c "" +:+ s4) = true)
      by (apply lastIs_app; exact Hlast).
    assert (Hdd : dotsApart (String c "" +:+ s4) = true).
    { rewrite append_cons, append_nil. simpl.
      rewrite (headIs_weaken _ _ s4 alnum_is_no_dot Hhead), andb_false_r, Hdots.
      reflexivity. }
    destruct (IH2 eq_refl) as [->|[Hlast2 Hdots2]].
    + rewrite append_empty_r. auto.
    + split; [apply lastIs_app; exact Hlast2|].
      apply dotsApart_app; [exact Hdd | exact Hdots2 |].
      rewrite (lastIs_weaken _ _ _ alnum_is_no_dot Hone). reflexivity.
Qed.

Lemma domainPattern_shape (s : string) :
  Regex.test FileParser.domainPattern s = true ->
  headIs FileParser.alnum s = true /\ lastIs FileParser.alnum s = true /\
  dotsApart s = true.
Proof.
  intros H. apply test_matches in H. unfold FileParser.domainPattern in H.
  inversion H as [ | | ? ? s1 s2 H1 H2 | | | | ]; subst.
  destruct (label_shape s1 H1) as (Hhead & Hlast & Hdots).
  destruct (tail_shape _ s2 H2 eq_refl) as [->|[Hlast2 Hdots2]].
  - rewrite append_empty_r. auto.
  - split; [apply headIs_app; exact Hhead|].
    split; [apply lastIs_app; exact Hlast2|].
    apply dotsApart_app; [exact Hdots | exact Hdots2 |].
    rewrite (lastIs_weaken _ _ _ alnum_is_no_dot Hlast). reflexivity.
Qed.

Lemma includes_dot_dot (s : string) :
  includes s ".." = negb (dotsApart s).
Proof.
  induction s as [|c s IH]; [reflexivity|].
  simpl. rewrite IH, negb_andb, negb_involutive.
  f_equal. unfold FileParser.dot.
  destruct s as [|x s]; [reflexivity|].
  simpl. destruct s; rewrite ?andb_true_r; reflexivity.
Qed.

(** X22: the pattern alone decides, up to length: what [domainPattern]
    accepts is not empty, has no two dots in a row and neither begins nor
    ends with a hyphen, so the four further tests of [isValidDomainName]
    reject nothing the pattern let through, and a name is valid exactly
    when the pattern matches it and it has at most 253 code units. *)
Theorem X22_the_pattern_decides_up_to_length (domain : string) :
  FileParser.isValidDomainName domain =
  Regex.test FileParser.domainPattern domain &&
  (String.length domain <=? 253)%nat.
Proof.
  unfold FileParser.isValidDomainName.
  destruct (Regex.test FileParser.domainPattern domain) eqn:Htest.
  - destruct (domainPattern_shape domain Htest) as (Hhead & Hlast & Hdots).
    destruct domain as [|c domain]; [discriminate Hhead|].
    simpl (String.length (String c domain) =? 0)%nat. cbv iota.
    rewrite includes_dot_dot, Hdots.
    assert (Hstart : startsWith (String c domain) "-" = false).
    { simpl in Hhead |- *. rewrite (proj2 (alnum_not_hyphen c Hhead)). reflexivity. }
    assert (Hend : endsWith (String c domain) "-" = false).
    { destruct (endsWith (String c domain) "-") eqn:He; [|reflexivity].
      apply endsWith_spec in He. destruct He as [pre He].
      rewrite He, lastIs_snoc in Hlast. discriminate Hlast. }
    rewrite Hstart, Hend. simpl. rewrite !andb_true_r. reflexivity.
  - destruct (String.length domain =? 0)%nat; reflexivity.
Qed.

(** ** The two classifiers of whois.service.js *)

Lemma scanAvailable_vocabulary (patterns : list string) (s : string) :
  match scanAvailable patterns s with
  | Some _ => true
  | None => false
  end = some_includes patterns s.
Proof.
  unfold some_includes. induction patterns as [|p patterns IH]; [reflexivity|].
  simpl. destruct (includes s p); [reflexivity | exact IH].
Qed.

Lemma vocabulary_counts (patterns : list string) (s : string) :
  some_includes patterns s = true -> (1 <= matchCount patterns s)%nat.
Proof.
  unfold some_includes. induction patterns as [|p patterns IH]; [discriminate|].
  rewrite matchCount_cons. simpl. destruct (includes s p); [lia|].
  intros H. specialize (IH H). lia.
Qed.

(** X23: the verdict of the second classifier in closed form: a payload
    is available exactly when it is falsy or its lowercase serialization
    holds one of the seven availability phrases; the registration
    patterns, looked for afterwards, never change the answer, and neither
    does the length. *)
Theorem X23_second_classifier_in_closed_form (data : JsValue) (domain : string) :
  Classifier2.isDomainAvailable data domain =
  negb (truthy data) ||
  some_includes Classifier2.availablePatterns (serialize data).
Proof.
  unfold Classifier2.isDomainAvailable.
  destruct (truthy data); [|reflexivity].
  cbv [negb orb]. rewrite <- scanAvailable_vocabulary.
  destruct (scanAvailable Classifier2.availablePatterns (serialize data));
    [reflexivity|].
  destruct (scanAvailable Classifier2.registeredPatterns (serialize data));
    reflexivity.
Qed.

(** X24: the two classifiers of the file read a mixed payload in
    opposite ways: when the serialization has 50 code units or more and
    holds both a strong-registration phrase and one of the availability
    phrases of the second classifier, the first classifier answers
    registered and the second answers available. *)
Theorem X24_classifiers_disagree_on_mixed_payloads (data : JsValue)
        (domain : string) :
  truthy data = true ->
  (50 <= String.length (serialize data))%nat ->
  some_includes strongRegisteredPatterns (serialize data) = true ->
  some_includes Classifier2.availablePatterns (serialize data) = true ->
  isDomainAvailable data domain = false /\
  Classifier2.isDomainAvailable data domain = true.
Proof.
  intros Htruthy Hlen Hreg Havail. split.
  - apply vocabulary_counts in Hreg.
    unfold isDomainAvailable, isDomainAvailable_log. rewrite Htruthy.
    cbv [negb]. destruct (Nat.ltb_spec (String.length (serialize data)) 50);
      [lia|].
    rewrite scanRegistered_spec by lia. rewrite Nat.add_0_l.
    destruct (Nat.leb_spec 2 (matchCount strongRegisteredPatterns (serialize data)));
      [reflexivity|].
    destruct (Nat.leb_spec 1 (matchCount strongRegisteredPatterns (serialize data)));
      [reflexivity | lia].
  - unfold Classifier2.isDomainAvailable. rewrite Htruthy. cbv [negb].
    rewrite <- scanAvailable_vocabulary in Havail.
    destruct (scanAvailable Classifier2.availablePatterns (serialize data));
      [reflexivity | discriminate Havail].
Qed.

Lemma X24_classifiers_disagree_on_mixed_payloads_witness :
  isDomainAvailable parkedScenario "example.com" = false /\
  Classifier2.isDomainAvailable parkedScenario "example.com" = true.
Proof.
  apply X24_classifiers_disagree_on_mixed_payloads.
  - reflexivity.
  - vm_compute. lia.
  - reflexivity.
  - reflexivity.
Defined.

(** ** The cache store, further *)

(** X25: the eviction a read performs cannot be seen by a later read:
    after [get] or [has] on any key at time [t], a [get] on any key at
    a time not before [t] answers as it would have without the first
    read. *)
Theorem X25_reads_do_not_disturb_later_reads (key key' : string) (t t' : Z)
        (c : CacheService.t) :
  (t <= t')%Z ->
  fst (CacheService.get key' t' (snd (CacheService.get key t c))) =
  fst (CacheService.get key' t' c) /\
  fst (CacheService.get key' t' (snd (CacheService.has key t c))) =
  fst (CacheService.get key' t' c).
Proof.
  intros Hle.
  assert (Hhas : snd (CacheService.has key t c) = snd (CacheService.get key t c)).
  { unfold CacheService.has. destruct (CacheService.get key t c) as [[v|] c'];
      reflexivity. }
  rewrite Hhas.
  cut (fst (CacheService.get key' t' (snd (CacheService.get key t c))) =
       fst (CacheService.get key' t' c)); [intros H; exact (conj H H)|].
  unfold CacheService.get at 2.
  destruct (CacheService.cache c !! key) as [item|] eqn:Hkey; [|reflexivity].
  destruct (Z.gtb_spec t (CacheService.expiry item)) as [Hdead|Hlive];
    [|reflexivity].
  unfold CacheService.get. simpl.
  destruct (String.eqb_spec key' key) as [->|Hne].
  - rewrite lookup_delete_eq, Hkey.
    destruct (Z.gtb_spec t' (CacheService.expiry item)); [reflexivity | lia].
  - rewrite lookup_delete_ne by congruence.
    destruct (CacheService.cache c !! key') as [item'|]; [|reflexivity].
    destruct (t' >? CacheService.expiry item')%Z; reflexivity.
Qed.

Lemma X25_reads_do_not_disturb_later_reads_witness :
  fst (CacheService.get "example.com" 5000
         (snd (CacheService.get "example.com" 5000 (cacheService staleWorld)))) =
  fst (CacheService.get "example.com" 5000 (cacheService staleWorld)) /\
  fst (CacheService.get "example.com" 5000
         (snd (CacheService.has "example.com" 5000 (cacheService staleWorld)))) =
  fst (CacheService.get "example.com" 5000 (cacheService staleWorld)).
Proof.
  apply X25_reads_do_not_disturb_later_reads. lia.
Defined.

(** X26: after [delete(key)] a read of that key misses and every other
    key reads as before; after [clear()] every read misses; both leave
    the default TTL as it was, so that a later [set] lives as long as
    before. *)
Theorem X26_delete_and_clear (key : string) (t : Z) (c : CacheService.t) :
  fst (CacheService.get key t (CacheService.delete key c)) = None /\
  (forall key', key' <> key ->
     fst (CacheService.get key' t (CacheService.delete key c)) =
     fst (CacheService.get key' t c)) /\
  (forall key', fst (CacheService.get key' t (CacheService.clear c)) = None) /\
  (forall value customTTL,
     CacheService.cache (CacheService.set key value customTTL t (CacheService.clear c))
       !! key =
     CacheService.cache (CacheService.set key value customTTL t c) !! key /\
     CacheService.cache
       (CacheService.set key value customTTL t (CacheService.delete key c)) =
     CacheService.cache (CacheService.set key value customTTL t c)).
Proof.
  split; [|split; [|split]].
  - unfold CacheService.get, CacheService.delete. simpl.
    rewrite lookup_delete_eq. reflexivity.
  - intros key' Hne. unfold CacheService.get, CacheService.delete. simpl.
    rewrite lookup_delete_ne by congruence.
    destruct (CacheService.cache c !! key') as [item|]; [|reflexivity].
    destruct (t >? CacheService.expiry item)%Z; reflexivity.
  - intros key'. unfold CacheService.get, CacheService.clear. simpl.
    rewrite lookup_empty. reflexivity.
  - intros value customTTL. unfold CacheService.set, CacheService.clear,
      CacheService.delete. simpl. split.
    + rewrite !lookup_insert_eq. reflexivity.
    + apply insert_delete_eq.
Qed.

(** ** Colons in the serialization *)

Lemma guardedFrom_app (prev : ascii) (a b : string) :
  guardedFrom prev (a +:+ b) =
  guardedFrom prev a && guardedFrom (lastUnit prev a) b.
Proof.
  revert prev. induction a as [|c a IH]; intros prev; [reflexivity|].
  rewrite append_cons. simpl. rewrite IH, andb_assoc. reflexivity.
Qed.

Lemma lastUnit_app (prev : ascii) (a b : string) :
  lastUnit prev (a +:+ b) = lastUnit (lastUnit prev a) b.
Proof.
  revert prev. induction a as [|c a IH]; intros prev; [reflexivity|].
  rewrite append_cons. simpl. apply IH.
Qed.

Lemma colonless_guarded (s : string) :
  colonless s = true -> forall prev, guardedFrom prev s = true.
Proof.
  induction s as [|c s IH]; [reflexivity|].
  simpl. intros H prev. apply andb_true_iff in H. destruct H as [Hc Hs].
  rewrite Hc, (IH Hs). reflexivity.
Qed.

Lemma colonless_app (a b : string) :
  colonless (a +:+ b) = colonless a && colonless b.
Proof.
  induction a as [|c a IH]; [reflexivity|].
  rewrite append_cons. simpl. rewrite IH, andb_assoc. reflexivity.
Qed.

Lemma quoteUnit_colonless (c : ascii) :
  isColon c = false -> colonless (JSON.quoteUnit c) = true.
Proof.
  destruct c as [[] [] [] [] [] [] [] []]; intros H;
    first [discriminate H | reflexivity].
Qed.

Lemma quote_colonless (s : string) :
  colonless s = true -> colonless (JSON.quote s) = true.
Proof.
  intros Hs. unfold JSON.quote. rewrite !colonless_app.
  assert (Hbody : colonless (JSON.quoteBody s) = true).
  { induction s as [|c s IH]; [reflexivity|].
    simpl in Hs |- *. apply andb_true_iff in Hs. destruct Hs as [Hc Hs].
    apply negb_true_iff in Hc.
    rewrite colonless_app, (quoteUnit_colonless c Hc), (IH Hs). reflexivity. }
  rewrite Hbody. reflexivity.
Qed.

Lemma quote_ends_with_a_quote (prev : ascii) (s : string) :
  isQuote (lastUnit prev (JSON.quote s)) = true.
Proof. unfold JSON.quote. rewrite !lastUnit_app. reflexivity. Qed.

Lemma guarded_app (a b : string) :
  (forall prev, guardedFrom prev a = true) ->
  (forall prev, guardedFrom prev b = true) ->
  forall prev, guardedFrom prev (a +:+ b) = true.
Proof. intros Ha Hb prev. rewrite guardedFrom_app, Ha, Hb. reflexivity. Qed.

(** A property name, its colon and its value. *)
Lemma guarded_member (k x : string) :
  colonless k = true ->
  (forall prev, guardedFrom prev x = true) ->
  forall prev, guardedFrom prev (JSON.quote k +:+ ":" +:+ x) = true.
Proof.
  intros Hk Hx prev.
  rewrite guardedFrom_app, (colonless_guarded _ (quote_colonless k Hk)).
  rewrite append_cons, append_nil.
  generalize (quote_ends_with_a_quote prev k).
  generalize (lastUnit prev (JSON.quote k)). intros l Hl.
  simpl. rewrite Hl, Hx. reflexivity.
Qed.

Lemma guarded_whatever_precedes (p : ascii) (e : string) :
  guardedFrom p e = true -> isQuote p = false ->
  forall q, guardedFrom q e = true.
Proof.
  destruct e as [|c e]; [reflexivity|].
  simpl. intros H Hp q. rewrite Hp, orb_false_r in H.
  apply andb_true_iff in H. destruct H as [Hc He].
  rewrite Hc, He. reflexivity.
Qed.

Lemma guarded_between (l : ascii) (e r : string) :
  isQuote l = false ->
  (forall prev, guardedFrom prev (String l (e +:+ r)) = true) ->
  forall q, guardedFrom q e = true.
Proof.
  intros Hl H. specialize (H l). simpl in H.
  apply andb_true_iff in H. destruct H as [_ H].
  rewrite guardedFrom_app in H. apply andb_true_iff in H. destruct H as [H _].
  exact (guarded_whatever_precedes l e H Hl).
Qed.

Lemma stringify_array_cons (x : JsValue) (r : list JsValue) :
  exists e,
    JSON.stringify (JsArray r) = "[" +:+ e +:+ "]" /\
    JSON.stringify (JsArray (x :: r)) =
      "[" +:+ (JSON.stringify x +:+
               match r with [] => "" | _ => "," +:+ e end) +:+ "]".
Proof. eexists. split; reflexivity. Qed.

Lemma stringify_object_cons (k : string) (x : JsValue)
      (r : list (string * JsValue)) :
  exists e,
    JSON.stringify (JsObject r) = "{" +:+ e +:+ "}" /\
    JSON.stringify (JsObject ((k, x) :: r)) =
      "{" +:+ (JSON.quote k +:+ ":" +:+ JSON.stringify x +:+
               match r with [] => "" | _ => "," +:+ e end) +:+ "}".
Proof. eexists. split; reflexivity. Qed.

(** In the serialization of a value without colons, every colon is one
    JSON put after a property name: it follows a double quote. *)
Lemma stringify_guarded (v : JsValue) :
  colonFree v -> forall prev, guardedFrom prev (JSON.stringify v) = true.
Proof.
  induction 1 as [ | b | s Hs | | x r Hx IHx Hr IHr | | k x r Hk Hx IHx Hr IHr ].
  - reflexivity.
  - destruct b; reflexivity.
  - apply colonless_guarded, quote_colonless, Hs.
  - reflexivity.
  - destruct (stringify_array_cons x r) as (e & Hr' & ->).
    rewrite Hr' in IHr. rewrite append_cons, append_nil in IHr.
    pose proof (guarded_between "["%char e "]" eq_refl IHr) as He.
    apply guarded_app; [intros; reflexivity|].
    apply guarded_app; [|intros; reflexivity].
    apply guarded_app; [exact IHx|].
    destruct r; [intros; reflexivity|].
    apply guarded_app; [intros; reflexivity | exact He].
  - reflexivity.
  - destruct (stringify_object_cons k x r) as (e & Hr' & ->).
    rewrite Hr' in IHr. rewrite append_cons, append_nil in IHr.
    pose proof (guarded_between "{"%char e "}" eq_refl IHr) as He.
    apply guarded_app; [intros; reflexivity|].
    apply guarded_app; [|intros; reflexivity].
    apply guarded_member; [exact Hk|].
    apply guarded_app; [exact IHx|].
    destruct r; [intros; reflexivity|].
    apply guarded_app; [intros; reflexivity | exact He].
Qed.

Lemma toLowerCaseUnit_keeps_marks (c : ascii) :
  isColon (toLowerCaseUnit c) = isColon c /\
  isQuote (toLowerCaseUnit c) = isQuote c.
Proof. destruct c as [[] [] [] [] [] [] [] []]; split; reflexivity. Qed.

Lemma toLowerCase_guarded (s : string) (prev : ascii) :
  guardedFrom (toLowerCaseUnit prev) (toLowerCase s) = guardedFrom prev s.
Proof.
  revert prev. induction s as [|c s IH]; intros prev; [reflexivity|].
  simpl. rewrite IH.
  rewrite (proj1 (toLowerCaseUnit_keeps_marks c)),
          (proj2 (toLowerCaseUnit_keeps_marks prev)).
  reflexivity.
Qed.

Lemma startsWith_guarded (p s : string) (prev : ascii) :
  startsWith s p = true -> guardedFrom prev s = true ->
  guardedFrom prev p = true.
Proof.
  revert s prev. induction p as [|b p IH]; intros s prev Hs Hg; [reflexivity|].
  destruct s as [|a s]; [discriminate|]. simpl in Hs.
  apply andb_true_iff in Hs. destruct Hs as [Hab Hs].
  apply Ascii.eqb_eq in Hab. subst b.
  simpl in Hg |- *. apply andb_true_iff in Hg. destruct Hg as [Ha Hg].
  rewrite Ha, (IH s a Hs Hg). reflexivity.
Qed.

(** What occurs in a string whose colons follow double quotes has, from
    its second code unit on, its colons after double quotes too. *)
Lemma includes_guarded (p s : string) (prev : ascii) :
  guardedFrom prev s = true -> includes s p = true -> innerGuarded p = true.
Proof.
  revert prev. induction s as [|c s IH]; intros prev Hg Hinc.
  - simpl in Hinc. rewrite orb_false_r in Hinc.
    destruct p; [reflexivity | discriminate].
  - simpl in Hinc. apply orb_true_iff in Hinc. destruct Hinc as [Hpre|Hin].
    + pose proof (startsWith_guarded p (String c s) prev Hpre Hg) as H.
      destruct p as [|b p]; [reflexivity|].
      simpl in H |- *. apply andb_true_iff in H. tauto.
    + simpl in Hg. apply andb_true_iff in Hg. destruct Hg as [_ Hg].
      exact (IH c Hg Hin).
Qed.

Lemma matchCount_none (patterns : list string) (s : string) :
  (forall p, In p patterns -> includes s p = false) ->
  matchCount patterns s = 0%nat.
Proof.
  induction patterns as [|p patterns IH]; intros H; [reflexivity|].
  rewrite matchCount_cons, (H p (or_introl eq_refl)), IH; [reflexivity|].
  intros q Hq. apply H. right. exact Hq.
Qed.

(** X27: the colons JSON puts between a property name and its value are
    no evidence of registration: every strong-registration phrase has a
    colon right after a letter, and in the serialization a structural
    colon comes right after a double quote.  So a payload none of whose
    names and strings holds a colon -- a record with its fields parsed,
    such as one with a [registrar] property -- matches no
    strong-registration phrase, and is answered available when it holds
    an availability phrase or serializes to fewer than 200 code units. *)
Theorem X27_structural_colons_are_no_evidence (data : JsValue)
        (domain : string) :
  colonFree data ->
  matchCount strongRegisteredPatterns (serialize data) = 0%nat /\
  isDomainAvailable data domain =
    negb (truthy data) ||
    (1 <=? matchCount availablePatterns (serialize data))%nat ||
    (String.length (serialize data) <? 200)%nat.
Proof.
  intros Hfree.
  assert (Hnone : matchCount strongRegisteredPatterns (serialize data) = 0%nat).
  { apply matchCount_none. intros p Hp.
    destruct (includes (serialize data) p) eqn:Hinc; [|reflexivity].
    assert (Hg : guardedFrom (toLowerCaseUnit "a"%char) (serialize data) = true).
    { unfold serialize. rewrite toLowerCase_guarded.
      apply stringify_guarded. exact Hfree. }
    pose proof (includes_guarded p _ _ Hg Hinc) as Hinner.
    assert (Hall : forallb (fun p => negb (innerGuarded p))
                           strongRegisteredPatterns = true) by reflexivity.
    rewrite forallb_forall in Hall. specialize (Hall p Hp).
    rewrite Hinner in Hall. discriminate Hall. }
  split; [exact Hnone|].
  rewrite isDomainAvailable_table, Hnone.
  simpl (1 <=? 0)%nat. cbv iota.
  destruct (truthy data); cbv [negb orb].
  - destruct (Nat.ltb_spec (String.length (serialize data)) 50) as [Hshort|Hlong].
    + destruct (Nat.ltb_spec (String.length (serialize data)) 200); [|lia].
      destruct (1 <=? matchCount availablePatterns (serialize data))%nat;
        reflexivity.
    + destruct (1 <=? matchCount availablePatterns (serialize data))%nat;
        reflexivity.
  - reflexivity.
Qed.

Lemma X27_structural_colons_are_no_evidence_witness :
  matchCount strongRegisteredPatterns (serialize recordScenario) = 0%nat /\
  isDomainAvailable recordScenario "example.com" =
    negb (truthy recordScenario) ||
    (1 <=? matchCount availablePatterns (serialize recordScenario))%nat ||
    (String.length (serialize recordScenario) <? 200)%nat.
Proof.
  apply X27_structural_colons_are_no_evidence.
  repeat (constructor; try reflexivity).
Defined.
